(** * Plimsoll: a shallow embedding of [src/plimsoll.js]

    The JavaScript module compiles model operations (create, find, update,
    ...) into parameterised SQL, executes them lazily through a "thenable"
    builder and shapes the rows that come back.  This file embeds

    - the JavaScript values the module manipulates (module [Js]),
    - the pure SQL-fragment compilers ([buildWhereQuery], [buildSetQuery],
      ...), with [throw] modelled by the [result] type,
    - the builder returned by [sendNativeQuery], whose [then] runs against an
      explicit world (connection pool, storage, clock) and records every
      interaction in a trace of events,
    - the per-model operations installed by [initialiseModel].

    Functions that the module takes from outside the repository (pg-format's
    escaping, [JSON.stringify], [Number], the String.prototype methods) are
    fields of the record [Runtime]. *)

From Stdlib Require Import ZArith List String Ascii Bool Lia DecimalString.
Import ListNotations.
Open Scope string_scope.
Open Scope list_scope.

Set Implicit Arguments.
Set Warnings "-register-all".

(* ------------------------------------------------------------------ *)
(** ** Values *)

Module Js.

(** A JavaScript number, as far as the module can tell numbers apart:
    an integral double, a quotient [n/d], NaN and the infinities. *)
Inductive number : Type :=
| Int (z : Z)
| Frac (n : Z) (d : positive)
| NaN
| Infinity (negative : bool).

(** The values that travel through the module.  [VNow] is the module-level
    constant [NOW = { NOW:'NOW' }], recognised by reference ([it === NOW]),
    hence a constructor of its own. *)
Inductive value : Type :=
| VUndefined
| VNull
| VBool (b : bool)
| VNum (n : number)
| VStr (s : string)
| VArr (xs : list value)
| VObj (props : list (string * value))
| VNow.

(** A plain object: its own enumerable properties, in [Object.entries]
    order. *)
Definition obj : Type := list (string * value).

Definition MAX_SAFE_INTEGER : Z := 2 ^ 53 - 1.

(** [Number.isSafeInteger] *)
Definition isSafeInteger (v : value) : bool :=
  match v with
  | VNum (Int z) => (Z.abs z <=? MAX_SAFE_INTEGER)%Z
  | VNum (Frac n d) =>
      ((n mod Zpos d =? 0) && (Z.abs (n / Zpos d) <=? MAX_SAFE_INTEGER))%Z
  | _ => false
  end.

(** ToBoolean *)
Definition truthy (v : value) : bool :=
  match v with
  | VUndefined | VNull => false
  | VBool b => b
  | VNum (Int z) => negb (z =? 0)%Z
  | VNum (Frac n _) => negb (n =? 0)%Z
  | VNum NaN => false
  | VNum (Infinity _) => true
  | VStr s => negb (s =? EmptyString)
  | VArr _ | VObj _ | VNow => true
  end.

Definition number_eq (a b : number) : bool :=
  match a, b with
  | Int x, Int y => (x =? y)%Z
  | Int x, Frac n d | Frac n d, Int x => (n =? x * Zpos d)%Z
  | Frac n d, Frac n' d' => (n * Zpos d' =? n' * Zpos d)%Z
  | Infinity s, Infinity s' => Bool.eqb s s'
  | _, _ => false
  end.

(** [a === b].  Arrays and objects compare by reference; the two operands
    of the one comparison the module makes between arbitrary values
    ([r[populate] === id]) come out of two different query results, so two
    arrays or two objects are never the same reference there. *)
Definition strict_eq (a b : value) : bool :=
  match a, b with
  | VUndefined, VUndefined => true
  | VNull, VNull => true
  | VBool x, VBool y => Bool.eqb x y
  | VNum x, VNum y => number_eq x y
  | VStr x, VStr y => (x =? y)
  | VNow, VNow => true
  | _, _ => false
  end.

Definition is_undefined (v : value) : bool :=
  match v with VUndefined => true | _ => false end.
Definition is_null (v : value) : bool :=
  match v with VNull => true | _ => false end.
Definition is_NOW (v : value) : bool :=
  match v with VNow => true | _ => false end.
(** [Array.isArray] *)
Definition isArray (v : value) : bool :=
  match v with VArr _ => true | _ => false end.
(** [typeof v === 'object'] *)
Definition typeof_object (v : value) : bool :=
  match v with VNull | VArr _ | VObj _ | VNow => true | _ => false end.

(** Decimal rendering of an array length or index. *)
Definition nat_to_string (n : nat) : string :=
  NilEmpty.string_of_uint (Nat.to_uint n).

Fixpoint indexed (i : nat) (xs : list value) : obj :=
  match xs with
  | [] => []
  | x :: xs' => (nat_to_string i, x) :: indexed (S i) xs'
  end.

(** [Object.entries] on a value that is not null or undefined. *)
Definition entries (v : value) : obj :=
  match v with
  | VObj props => props
  | VArr xs => indexed 0 xs
  | VNow => [("NOW", VStr "NOW")]
  | _ => []
  end.

(** [o[k]] among the own properties of a plain object; an absent property
    reads as [undefined].  The module reads property maps and rows under
    the names of declared attributes, their own keys and fixed names ([id],
    [created_at], ...).  The two lookups it makes under an arbitrary name on
    objects it builds itself, [Model.attributes[k]] and
    [opts.intercepters[code]], also see the members of [Object.prototype]:
    [attributes_at] and [intercepter_at] below. *)
Fixpoint get (o : obj) (k : string) : value :=
  match o with
  | [] => VUndefined
  | (k', v) :: o' => if k' =? k then v else get o' k
  end.

Fixpoint has (o : obj) (k : string) : bool :=
  match o with
  | [] => false
  | (k', _) :: o' => (k' =? k) || has o' k
  end.

(** [o[k] = v]: an existing property keeps its place, a new one goes
    last. *)
Fixpoint set (o : obj) (k : string) (v : value) : obj :=
  match o with
  | [] => [(k, v)]
  | (k', v') :: o' =>
      if k' =? k then (k', v) :: o' else (k', v') :: set o' k v
  end.

(** The names every plain object inherits from [Object.prototype]: [o[k]]
    on an object that has no property [k] of its own finds the member there
    instead of [undefined]. *)
Definition Object_prototype : list string :=
  ["constructor"; "__defineGetter__"; "__defineSetter__"; "hasOwnProperty";
   "__lookupGetter__"; "__lookupSetter__"; "isPrototypeOf";
   "propertyIsEnumerable"; "toString"; "valueOf"; "__proto__";
   "toLocaleString"].

Definition inherited (k : string) : bool :=
  existsb (String.eqb k) Object_prototype.

(** [xs.join(sep)] on strings. *)
Definition join (sep : string) (xs : list string) : string :=
  String.concat sep xs.

End Js.
Import Js.

(** What lives outside the repository. *)
Record Runtime : Type := {
  esc_col : value -> string;          (* pg-format's [ident] *)
  esc_num : value -> string;          (* pg-format's [literal] *)
  esc_table : string -> string;       (* pg-format's [ident] *)
  JSON_stringify : value -> value;    (* [JSON.stringify] *)
  Number_ : value -> value;           (* [Number(v)] *)
  toLowerCase : string -> string;
  toUpperCase : string -> string;
  trim_split : string -> list string  (* [s.trim().split(/\s+/)] *)
}.

(* ------------------------------------------------------------------ *)
(** ** Exceptions *)

(** The module only ever throws [new Error(message)]; it also runs into the
    engine's own [TypeError]s and receives the storage's native errors.  One
    constructor per throw site, named after the error taxonomy. *)
Inductive exn : Type :=
| InvalidArgument (msg : string)
    (* limit: 'Limit must be an integer.'; buildOrderByQuery's two throws *)
| UnsupportedOperator (op : string)
    (* safeOp: `Unrecognised op in criteria: ${op}` *)
| InvalidCriteria (k : string)
    (* buildWhereQuery: 'TODO: ' + JSON.stringify({ k, v }) *)
| NotImplemented
    (* then: `No handling for intercepter of this type yet: ...` *)
| ModelNotFound (name : string)
    (* getModelWithName: `Model not found: ${name}` *)
| NoModelSupplied
    (* withSelectedValuesCast, withDefaultValues: 'No model supplied! ...' *)
| TypeError (msg : string)
    (* raised by the engine: property of undefined, not a function *)
| NativeError (code : string) (msg : string).
    (* raised by the storage collaborator; [code] is [err.code] *)

Inductive result (A : Type) : Type :=
| Ok (a : A)
| Throw (e : exn).
Arguments Ok {A} a.
Arguments Throw {A} e.

Definition bind {A B} (r : result A) (k : A -> result B) : result B :=
  match r with
  | Ok a => k a
  | Throw e => Throw e
  end.

Infix "+++" := String.append (right associativity, at level 60).

Notation "x <- r ;; k" := (bind r (fun x => k))
  (at level 61, r at next level, right associativity).
Notation "' pat <- r ;; k" := (bind r (fun x => match x with pat => k end))
  (at level 61, pat pattern, r at next level, right associativity).

(** [xs.forEach(f)] where [f] updates an accumulator and may throw. *)
Fixpoint forEachM {A S} (f : S -> A -> result S) (xs : list A) (s : S)
  : result S :=
  match xs with
  | [] => Ok s
  | x :: xs' => s' <- f s x ;; forEachM f xs' s'
  end.

Definition nl : string := String (ascii_of_nat 10) EmptyString.
Definition dquote : string := String (ascii_of_nat 34) EmptyString.

(* ------------------------------------------------------------------ *)
(** ** Model definitions *)

(** One attribute's configuration, with the fields the module reads.
    [defaultsTo = VUndefined] is "no default". *)
Record AttributeSpec : Type := {
  type : option string;
  allowNull : bool;
  defaultsTo : value;
  autoCreatedAt : bool;
  autoUpdatedAt : bool;
  model : option string
}.

Definition attrs : Type := list (string * AttributeSpec).

Fixpoint attr_get (o : attrs) (k : string) : option AttributeSpec :=
  match o with
  | [] => None
  | (k', c) :: o' => if k' =? k then Some c else attr_get o' k
  end.

Fixpoint attr_set (o : attrs) (k : string) (c : AttributeSpec) : attrs :=
  match o with
  | [] => [(k, c)]
  | (k', c') :: o' =>
      if k' =? k then (k', c) :: o' else (k', c') :: attr_set o' k c
  end.

(** Object spread [{ ...a, ...b }]: [a]'s properties in order, each of [b]'s
    assigned on top. *)
Definition spread (a b : attrs) : attrs :=
  fold_left (fun o kc => attr_set o (fst kc) (snd kc)) b
    (fold_left (fun o kc => attr_set o (fst kc) (snd kc)) a []).

Record Model : Type := {
  globalId : string;
  tableName : string;
  attributes : attrs
}.

(** [Model.attributes[k]], as far as the module reads it.  The attribute
    map is the plain object [initialiseModel] builds, so a name it does not
    declare still finds a member of [Object.prototype] when it is one of
    [Object_prototype]: a function, or for [__proto__] the prototype itself,
    on which [type], [allowNull] and [model] all read [undefined].  Any
    other name finds [undefined]. *)
Definition no_fields : AttributeSpec :=
  {| type := None; allowNull := false; defaultsTo := VUndefined;
     autoCreatedAt := false; autoUpdatedAt := false; model := None |}.

Definition attributes_at (M : Model) (k : string) : option AttributeSpec :=
  match attr_get (attributes M) k with
  | Some cfg => Some cfg
  | None => if inherited k then Some no_fields else None
  end.

(** The zero value that stands in for null on a [string], [number] or
    [boolean] attribute ([switch(type)] in [withDefaultValues] and
    [withSelectedValuesCast]); other types have none. *)
Definition zero_of (t : option string) : option value :=
  match t with
  | Some t' =>
      if t' =? "string" then Some (VStr EmptyString)
      else if t' =? "number" then Some (VNum (Int 0))
      else if t' =? "boolean" then Some (VBool false)
      else None
  | None => None
  end.

Section Compilers.

Variable rt : Runtime.

(* ------------------------------------------------------------------ *)
(** ** Defaults and auto-timestamps *)

Definition withDefaultValues_attr (creating : bool) (props : obj)
  (ac : string * AttributeSpec) : obj :=
  let '(attr, cfg) := ac in
  let props :=
    if creating && is_undefined (get props attr) then
      if negb (is_undefined (defaultsTo cfg))
      then set props attr (defaultsTo cfg)
      else props
    else props in
  if (creating && is_undefined (get props attr)) || is_null (get props attr)
  then
    if autoCreatedAt cfg then
      (if creating then set props attr VNow else props)
    else if autoUpdatedAt cfg then set props attr VNow
    else if negb (allowNull cfg) then
      match zero_of (type cfg) with
      | Some z => set props attr z
      | None => props
      end
    else props
  else props.

Definition withDefaultValues (M : Model) (props : obj) (creating : bool)
  : obj :=
  fold_left (withDefaultValues_attr creating) (attributes M) props.

(* ------------------------------------------------------------------ *)
(** ** SQL fragments *)

Definition placeholder (n : nat) : string := "$" +++ nat_to_string n.

Definition buildSetQuery_entry (M : Model) (acc : list value * list string)
  (kv : string * value) : result (list value * list string) :=
  let '(values, sets) := acc in
  let '(k, v) := kv in
  match attributes_at M k with
  | None =>
      Throw (TypeError
        "Cannot read properties of undefined (reading 'type')")
  | Some cfg =>
      let values :=
        match type cfg with
        | Some t =>
            if t =? "json" then values ++ [JSON_stringify rt v]
            else values ++ [v]
        | None => values ++ [v]
        end in
      Ok (values,
          sets ++ [esc_col rt (VStr k) +++ " = "
                     +++ placeholder (List.length values)])
  end.

(** [buildSetQuery(Model, props, values)]: the fragment and the extended
    argument list. *)
Definition buildSetQuery (M : Model) (props : obj) (values : list value)
  : result (string * list value) :=
  '(values', sets) <- forEachM (buildSetQuery_entry M) props (values, []) ;;
  Ok (join ", " sets, values').

Definition safeOp (op : string) : result string :=
  if (op =? "<") || (op =? ">") || (op =? "<=") || (op =? ">=")
     || (op =? "!=")
  then Ok op
  else Throw (UnsupportedOperator op).

(** The three mutable locals of [buildWhereQuery]'s mapping branch. *)
Record WhereAcc : Type := {
  w_args : list value;
  w_argIdx : nat;
  w_wher : list string
}.

Definition where_op (k : string) (acc : WhereAcc) (opval : string * value)
  : result WhereAcc :=
  let '(op, val) := opval in
  if (op =? "!=") && is_null val then
    Ok {| w_args := w_args acc;
          w_argIdx := w_argIdx acc;
          w_wher := w_wher acc ++ [esc_col rt (VStr k) +++ " IS NOT NULL"] |}
  else if (op =? "!=") && isArray val then
    Ok {| w_args := w_args acc ++ [val];
          w_argIdx := S (w_argIdx acc);
          w_wher := w_wher acc ++
            ["NOT ( " +++ esc_col rt (VStr k) +++ " = ANY( "
               +++ placeholder (S (w_argIdx acc)) +++ " ) )"] |}
  else
    op' <- safeOp op ;;
    Ok {| w_args := w_args acc ++ [val];
          w_argIdx := S (w_argIdx acc);
          w_wher := w_wher acc ++
            [esc_col rt (VStr k) +++ op' +++ placeholder (S (w_argIdx acc))] |}.

Definition where_entry (acc : WhereAcc) (kv : string * value)
  : result WhereAcc :=
  let '(k, v) := kv in
  if is_null v then
    Ok {| w_args := w_args acc;
          w_argIdx := w_argIdx acc;
          w_wher := w_wher acc ++ [esc_col rt (VStr k) +++ " IS NULL"] |}
  else if isArray v then
    Ok {| w_args := w_args acc ++ [v];
          w_argIdx := S (w_argIdx acc);
          w_wher := w_wher acc ++
            [esc_col rt (VStr k) +++ "=ANY("
               +++ placeholder (S (w_argIdx acc)) +++ ")"] |}
  else if typeof_object v then
    if negb (List.length (entries v) =? 1)%nat then Throw (InvalidCriteria k)
    else forEachM (where_op k) (entries v) acc
  else
    Ok {| w_args := w_args acc ++ [v];
          w_argIdx := S (w_argIdx acc);
          w_wher := w_wher acc ++
            [esc_col rt (VStr k) +++ "=" +++ placeholder (S (w_argIdx acc))] |}.

(** [buildWhereQuery(criteria, args)]: the fragment and the extended
    argument list. *)
Definition buildWhereQuery (criteria : value) (args : list value)
  : result (string * list value) :=
  if negb (truthy criteria) then Ok (EmptyString, args)
  else if typeof_object criteria then
    acc <- forEachM where_entry (entries criteria)
             {| w_args := args; w_argIdx := List.length args; w_wher := [] |} ;;
    match w_wher acc with
    | [] => Ok (EmptyString, w_args acc)
    | _ => Ok ("WHERE " +++ join " AND " (w_wher acc), w_args acc)
    end
  else
    Ok ("WHERE id=" +++ placeholder (List.length (args ++ [criteria])),
        args ++ [criteria]).

Definition buildValuesQuery_col (props : obj) (acc : list value * list string)
  (k : string) : list value * list string :=
  let '(values, q) := acc in
  let values := values ++ [get props k] in
  (values, q ++ [placeholder (List.length values)]).

Definition buildValuesQuery (M : Model) (cols : list string) (props : obj)
  (values : list value) : string * list value :=
  let '(values', q) :=
    fold_left (buildValuesQuery_col props) cols (values, []) in
  ("(" +++ join ", " q +++ ")", values').

Definition buildColumnNamesQuery (cols : list string) : string :=
  "( " +++ join ", " (map (fun c => esc_col rt (VStr c)) cols) +++ " )".

Definition buildOrderByQuery (orderBy : value) : result string :=
  if negb (truthy orderBy) then Ok EmptyString
  else
    match orderBy with
    | VStr s =>
        let parts := trim_split rt s in
        dir <- match parts with
               | [] => Ok None
               | [_] => Ok (Some EmptyString)
               | [_; d] => Ok (Some (toUpperCase rt d))
               | _ => Throw (InvalidArgument
                        ("Unexpected extras in ORDER BY clause: "
                           +++ dquote +++ s +++ dquote))
               end ;;
        match dir with
        | None => Ok EmptyString
        | Some dir =>
            if negb (dir =? EmptyString)
               && negb ((dir =? "ASC") || (dir =? "DESC"))
            then Throw (InvalidArgument
                   ("Unexpected direction provided in ORDER BY clause: "
                      +++ dquote +++ s +++ dquote))
            else Ok (" ORDER BY " +++ esc_col rt (VStr (hd EmptyString parts))
                       +++ " " +++ dir)
        end
    | _ => Throw (TypeError "orderBy.trim is not a function")
    end.

Definition buildLimitQuery (limit : value) : string :=
  if is_undefined limit then EmptyString
  else " LIMIT " +++ esc_num rt limit.

(** Map sails error names to postgres error codes (as property keys). *)
Definition getErrorCodesFor (sailsErrorName : string) : list string :=
  if sailsErrorName =? "E_UNIQUE" then ["23505"] else [].

(* ------------------------------------------------------------------ *)
(** ** Casting result rows *)

Definition withTimestampsCast (row : obj) : obj :=
  let row :=
    if truthy (get row "created_at")
    then set row "created_at" (Number_ rt (get row "created_at"))
    else row in
  if truthy (get row "updated_at")
  then set row "updated_at" (Number_ rt (get row "updated_at"))
  else row.

Definition cast_entry (M : Model) (row : obj) (kv : string * value)
  : result obj :=
  let '(k, v) := kv in
  if is_undefined v || is_null v then
    match attributes_at M k with
    | None =>
        Throw (TypeError
          "Cannot destructure property 'allowNull' of undefined")
    | Some cfg =>
        if negb (allowNull cfg) then
          match zero_of (type cfg) with
          | Some z => Ok (set row k z)
          | None => Ok row
          end
        else Ok row
    end
  else Ok row.

(** [withSelectedValuesCast(Model, row)]; [row = None] is [undefined]. *)
Definition withSelectedValuesCast (M : option Model) (row : option obj)
  : result (option obj) :=
  match M with
  | None => Throw NoModelSupplied
  | Some M =>
      match row with
      | None => Ok None
      | Some row =>
          let row := withTimestampsCast row in
          row' <- forEachM (cast_entry M) row row ;;
          Ok (Some row')
      end
  end.

(** The same on a row that is there. *)
Definition castRow (M : option Model) (row : obj) : result obj :=
  r <- withSelectedValuesCast M (Some row) ;;
  Ok (match r with Some row' => row' | None => row end).

(** [getFindCriteriaFrom(options)]: select, criteria, orderBy, limit. *)
Definition getFindCriteriaFrom (options : value)
  : result (string * value * value * value) :=
  match options with
  | VUndefined | VNull =>
      Throw (TypeError "Cannot convert undefined or null to object")
  | _ =>
      let o := entries options in
      if has o "select" then
        select <-
          (if truthy (get o "select") then
             match get o "select" with
             | VArr xs => Ok (join ", " (map (esc_col rt) xs))
             | _ => Throw (TypeError "options.select.map is not a function")
             end
           else Ok "*") ;;
        Ok (select,
            if truthy (get o "where") then get o "where" else VUndefined,
            if truthy (get o "sort") then get o "sort" else VUndefined,
            if truthy (get o "limit") then get o "limit" else VUndefined)
      else Ok ("*", options, VUndefined, VUndefined)
  end.

End Compilers.

(* ------------------------------------------------------------------ *)
(** ** The world a builder executes in *)

(** A pooled or caller-owned connection (a [pg] client). *)
Definition conn : Type := nat.

(** What [client.query] resolves to. *)
Record QueryResult : Type := {
  rows : list obj;
  rowCount : Z
}.

(** Every interaction of the module with the clock, the pool and the
    storage, in the order it happens. *)
Inductive event : Type :=
| Now (t : Z)                                   (* [Date.now()] gave [t] *)
| Connect (r : result conn)                     (* [pool.connect()] settled *)
| Query (c : conn) (sql : string) (args : option (list value))
        (r : result QueryResult)          (* [c.query(sql, args)] settled *)
| Release (c : conn).                           (* [c.release()] *)

(** The collaborators, each answering from the history so far. *)
Record World : Type := {
  date_now : list event -> Z;
  pool_connect : list event -> result conn;
  client_query :
    list event -> conn -> string -> option (list value) -> result QueryResult
}.

(** What [reject] is called with. *)
Inductive rejection : Type :=
| RejErr (e : exn)
| RejVal (v : value).

(** What [intercept] stores under an error code: a function, which returns
    a rejection value or throws, or any other value. *)
Inductive handler : Type :=
| HFun (f : exn -> result rejection)
| HVal (v : value).

(** [opts] of [sendNativeQuery]. *)
Record Opts : Type := {
  o_Model : option Model;
  o_single : bool;
  o_returnSingleRow : bool;
  o_returnRows : bool;
  o_fetch : bool;
  o_limit : value;
  o_orderBy : value;
  o_populate : option string;
  o_client : option conn;
  o_intercepters : list (string * handler)
}.

Definition no_opts : Opts :=
  {| o_Model := None; o_single := false; o_returnSingleRow := false;
     o_returnRows := false; o_fetch := false; o_limit := VUndefined;
     o_orderBy := VUndefined; o_populate := None; o_client := None;
     o_intercepters := [] |}.

(** The closure state behind one [returnable]. *)
Record Builder : Type := {
  b_sql : string;
  b_args : option (list value);
  b_opts : Opts
}.

Definition with_opts (f : Opts -> Opts) (b : Builder) : Builder :=
  {| b_sql := b_sql b; b_args := b_args b; b_opts := f (b_opts b) |}.

(** [sendNativeQuery(sql, args, opts)], with
    [opts = { ...opts, intercepters:{} }]. *)
Definition sendNativeQuery (sql : string) (args : option (list value))
  (opts : Opts) : Builder :=
  {| b_sql := sql; b_args := args;
     b_opts :=
       {| o_Model := o_Model opts; o_single := o_single opts;
          o_returnSingleRow := o_returnSingleRow opts;
          o_returnRows := o_returnRows opts; o_fetch := o_fetch opts;
          o_limit := o_limit opts; o_orderBy := o_orderBy opts;
          o_populate := o_populate opts; o_client := o_client opts;
          o_intercepters := [] |} |}.

Definition usingConnection (client : conn) : Builder -> Builder :=
  with_opts (fun o =>
    {| o_Model := o_Model o; o_single := o_single o;
       o_returnSingleRow := o_returnSingleRow o;
       o_returnRows := o_returnRows o; o_fetch := o_fetch o;
       o_limit := o_limit o; o_orderBy := o_orderBy o;
       o_populate := o_populate o; o_client := Some client;
       o_intercepters := o_intercepters o |}).

Definition fetch : Builder -> Builder :=
  with_opts (fun o =>
    {| o_Model := o_Model o; o_single := o_single o;
       o_returnSingleRow := o_returnSingleRow o;
       o_returnRows := o_returnRows o; o_fetch := true;
       o_limit := o_limit o; o_orderBy := o_orderBy o;
       o_populate := o_populate o; o_client := o_client o;
       o_intercepters := o_intercepters o |}).

Fixpoint handler_set (o : list (string * handler)) (k : string) (h : handler)
  : list (string * handler) :=
  match o with
  | [] => [(k, h)]
  | (k', h') :: o' =>
      if k' =? k then (k', h) :: o' else (k', h') :: handler_set o' k h
  end.

Fixpoint handler_get (o : list (string * handler)) (k : string)
  : option handler :=
  match o with
  | [] => None
  | (k', h) :: o' => if k' =? k then Some h else handler_get o' k
  end.

(** The TypeError of a built-in method that is called without a receiver
    and converts [this] to an object. *)
Definition this_undefined : exn :=
  TypeError "Cannot convert undefined or null to object".

(** What [opts.intercepters], a plain object, inherits under the name [k],
    as a handler: [constructor] is [Object], which returns the error object
    it is given; [toString], called as a plain function, returns
    ['[object Undefined]']; [__proto__] reads as the prototype, an object;
    the other methods of [Object.prototype] convert their missing receiver
    to an object, which throws. *)
Definition inherited_handler (k : string) : option handler :=
  if k =? "constructor" then Some (HFun (fun err => Ok (RejErr err)))
  else if k =? "toString"
  then Some (HFun (fun _ => Ok (RejVal (VStr "[object Undefined]"))))
  else if k =? "__proto__" then Some (HVal (VObj []))
  else if inherited k then Some (HFun (fun _ => Throw this_undefined))
  else None.

(** [opts.intercepters[code]]: the registered handler, else the inherited
    member. *)
Definition intercepter_at (o : list (string * handler)) (code : string)
  : option handler :=
  match handler_get o code with
  | Some h => Some h
  | None => inherited_handler code
  end.

Definition intercept (errName : string) (h : handler) : Builder -> Builder :=
  with_opts (fun o =>
    {| o_Model := o_Model o; o_single := o_single o;
       o_returnSingleRow := o_returnSingleRow o;
       o_returnRows := o_returnRows o; o_fetch := o_fetch o;
       o_limit := o_limit o; o_orderBy := o_orderBy o;
       o_populate := o_populate o; o_client := o_client o;
       o_intercepters :=
         fold_left (fun i code => handler_set i code h)
           (getErrorCodesFor errName) (o_intercepters o) |}).

Definition limit (n : value) (b : Builder) : result Builder :=
  if negb (isSafeInteger n)
  then Throw (InvalidArgument "Limit must be an integer.")
  else Ok (with_opts (fun o =>
    {| o_Model := o_Model o; o_single := o_single o;
       o_returnSingleRow := o_returnSingleRow o;
       o_returnRows := o_returnRows o; o_fetch := o_fetch o;
       o_limit := n; o_orderBy := o_orderBy o;
       o_populate := o_populate o; o_client := o_client o;
       o_intercepters := o_intercepters o |}) b).

Definition populate (prop : string) : Builder -> Builder :=
  with_opts (fun o =>
    {| o_Model := o_Model o; o_single := o_single o;
       o_returnSingleRow := o_returnSingleRow o;
       o_returnRows := o_returnRows o; o_fetch := o_fetch o;
       o_limit := o_limit o; o_orderBy := o_orderBy o;
       o_populate := Some prop; o_client := o_client o;
       o_intercepters := o_intercepters o |}).

Definition sort (criteria : value) : Builder -> Builder :=
  with_opts (fun o =>
    {| o_Model := o_Model o; o_single := o_single o;
       o_returnSingleRow := o_returnSingleRow o;
       o_returnRows := o_returnRows o; o_fetch := o_fetch o;
       o_limit := o_limit o; o_orderBy := criteria;
       o_populate := o_populate o; o_client := o_client o;
       o_intercepters := o_intercepters o |}).

(* ------------------------------------------------------------------ *)
(** ** Forcing a builder: [then] *)

(** Code that talks to the world: it extends the trace and may throw. *)
Definition exec (A : Type) : Type := list event -> result A * list event.

Definition eret {A} (a : A) : exec A := fun tr => (Ok a, tr).

Definition lift {A} (r : result A) : exec A := fun tr => (r, tr).

Definition ebind {A B} (m : exec A) (k : A -> exec B) : exec B :=
  fun tr =>
    match m tr with
    | (Ok a, tr') => k a tr'
    | (Throw e, tr') => (Throw e, tr')
    end.

Notation "x <~ m ;; k" := (ebind m (fun x => k))
  (at level 61, m at next level, right associativity).

(** How an awaited thenable ends: [resolve] called, [reject] called, or
    [then] itself threw, in which case neither callback is ever called. *)
Inductive outcome (A : Type) : Type :=
| Resolved (a : A)
| Rejected (r : rejection)
| ThenThrew (e : exn).
Arguments Resolved {A} a.
Arguments Rejected {A} r.
Arguments ThenThrew {A} e.

(** What a builder resolves with. *)
Inductive resolution : Type :=
| Single (r : option obj)      (* one cast record, or [undefined] *)
| Rows (rs : list obj)         (* the cast records *)
| Raw (res : QueryResult).     (* the storage's own result *)

Fixpoint mapM {A B} (f : A -> result B) (xs : list A) : result (list B) :=
  match xs with
  | [] => Ok []
  | x :: xs' => y <- f x ;; ys <- mapM f xs' ;; Ok (y :: ys)
  end.

Fixpoint find_index {A} (f : A -> bool) (xs : list A) : option nat :=
  match xs with
  | [] => None
  | x :: xs' =>
      if f x then Some 0%nat
      else match find_index f xs' with
           | Some j => Some (S j)
           | None => None
           end
  end.

Fixpoint replace_nth {A} (j : nat) (a : A) (xs : list A) {struct xs}
  : list A :=
  match xs, j with
  | [], _ => []
  | _ :: xs', O => a :: xs'
  | x :: xs', S j' => x :: replace_nth j' a xs'
  end.

(** [it === NOW ? now : it] over the argument list. *)
Definition substitute_now (now : Z) (args : list value) : list value :=
  map (fun it => if is_NOW it then VNum (Int now) else it) args.

(** [err.code] as a property key. *)
Definition err_code (err : exn) : string :=
  match err with
  | NativeError code _ => code
  | _ => "undefined"
  end.

Definition populated (row : option obj) : value :=
  match row with
  | Some r => VObj r
  | None => VUndefined
  end.

Section Execution.

Variable rt : Runtime.
Variable w : World.
(** [Object.values(models)] of the registry the builder was made in. *)
Variable models : list Model.

Definition connect : exec conn :=
  fun tr => let r := pool_connect w tr in (r, tr ++ [Connect r]).

Definition query (c : conn) (sql : string) (args : option (list value))
  : exec QueryResult :=
  fun tr =>
    let r := client_query w tr c sql args in (r, tr ++ [Query c sql args r]).

Definition getModelWithName (name : option string) : result Model :=
  match models, name with
  | [], Some n => Throw (ModelNotFound n)
  | [], None => Throw (ModelNotFound "undefined")
  | _ :: _, None =>
      Throw (TypeError
        "Cannot read properties of undefined (reading 'toLowerCase')")
  | _ :: _, Some n =>
      match find (fun m => toLowerCase rt (globalId m) =? toLowerCase rt n)
                 models with
      | Some m => Ok m
      | None => Throw (ModelNotFound n)
      end
  end.

(** [opts.populate], when truthy. *)
Definition populate_of (o : Opts) : option string :=
  match o_populate o with
  | Some p => if p =? EmptyString then None else Some p
  | None => None
  end.

(** [getModelWithName(opts.Model.attributes[opts.populate].model)] *)
Definition populateModel_of (o : Opts) (p : string) : result Model :=
  match o_Model o with
  | None =>
      Throw (TypeError
        "Cannot read properties of undefined (reading 'attributes')")
  | Some M =>
      match attributes_at M p with
      | None =>
          Throw (TypeError
            "Cannot read properties of undefined (reading 'model')")
      | Some cfg => getModelWithName (model cfg)
      end
  end.

(** Single-row mode of [then]. *)
Definition then_single (o : Opts) (c : conn) (result : QueryResult)
  : exec resolution :=
  ret <~ lift (withSelectedValuesCast rt (o_Model o)
                 (hd_error (rows result))) ;;
  match populate_of o with
  | None => eret (Single ret)
  | Some p =>
      pm <~ lift (populateModel_of o p) ;;
      let sql :=
        "SELECT * FROM " +++ esc_table rt (tableName pm) +++ " WHERE id=$1" in
      match ret with
      | None =>
          lift (Throw (TypeError "Cannot read properties of undefined"))
      | Some r =>
          res <~ query c sql (Some [get r p]) ;;
          prow <~ lift (withSelectedValuesCast rt (Some pm)
                          (hd_error (rows res))) ;;
          eret (Single (Some (set r p (populated prow))))
      end
  end.

(** The [ret.forEach] that merges the related rows back.  A related row is
    cast in place, and every record that found it holds the same object: the
    looked-up rows are kept as a store, a record remembers the index of the
    row it found. *)
Fixpoint populate_each (pm : Model) (p : string) (ret : list obj)
  (store : list obj) : result (list (obj * option nat) * list obj) :=
  match ret with
  | [] => Ok ([], store)
  | r :: ret' =>
      match find_index (fun row => strict_eq (get r p) (get row "id"))
                       store with
      | None =>
          '(out, store') <- populate_each pm p ret' store ;;
          Ok ((r, None) :: out, store')
      | Some j =>
          row' <- castRow rt (Some pm) (nth j store []) ;;
          '(out, store') <-
            populate_each pm p ret' (replace_nth j row' store) ;;
          Ok ((r, Some j) :: out, store')
      end
  end.

Definition populate_merge (pm : Model) (p : string) (ret : list obj)
  (looked_up : list obj) : result (list obj) :=
  '(out, store) <- populate_each pm p ret looked_up ;;
  Ok (map (fun rj : obj * option nat =>
             set (fst rj) p
               (populated (match snd rj with
                           | Some j => nth_error store j
                           | None => None
                           end))) out).

(** Multi-row mode of [then]. *)
Definition then_rows (o : Opts) (c : conn) (result : QueryResult)
  : exec resolution :=
  ret <~ lift (mapM (castRow rt (o_Model o)) (rows result)) ;;
  match populate_of o with
  | None => eret (Rows ret)
  | Some p =>
      pm <~ lift (populateModel_of o p) ;;
      let populateIds := map (fun r => get r p) ret in
      let sql :=
        "SELECT * FROM " +++ esc_table rt (tableName pm)
          +++ " WHERE id=ANY($1)" in
      res <~ query c sql (Some [VArr populateIds]) ;;
      merged <~ lift (populate_merge pm p ret (rows res)) ;;
      eret (Rows merged)
  end.

Definition shape (o : Opts) (c : conn) (result : QueryResult)
  : exec resolution :=
  if o_returnSingleRow o || (o_fetch o && o_single o)
  then then_single o c result
  else if o_returnRows o || o_fetch o
  then then_rows o c result
  else eret (Raw result).

(** The [catch] block of [then]. *)
Definition on_error (o : Opts) (err : exn) : outcome resolution :=
  match intercepter_at (o_intercepters o) (err_code err) with
  | None => Rejected (RejErr err)
  | Some (HFun f) =>
      match f err with
      | Ok r => Rejected r
      | Throw e => ThenThrew e
      end
  | Some (HVal v) =>
      if negb (truthy v) then Rejected (RejErr err)
      else match v with
           | VStr _ => Rejected (RejVal v)
           | _ => ThenThrew NotImplemented
           end
  end.

(** [then(resolve, reject)]: the outcome and the extended trace. *)
Definition then_ (b : Builder) (tr : list event)
  : outcome resolution * list event :=
  let o := b_opts b in
  let sql := b_sql b +++ (if o_fetch o then " RETURNING *" else EmptyString) in
  match buildOrderByQuery rt (o_orderBy o) with
  | Throw e => (ThenThrew e, tr)
  | Ok orderBy =>
      let sql := sql +++ orderBy +++ buildLimitQuery rt (o_limit o) in
      let '(args, tr) :=
        match b_args b with
        | Some args =>
            let now := date_now w tr in
            (Some (substitute_now now args), tr ++ [Now now])
        | None => (None, tr)
        end in
      (* try *)
      let '(client, tr) :=
        match o_client o with
        | Some c => (Ok c, tr)
        | None => connect tr
        end in
      let '(r, tr) :=
        match client with
        | Throw e => (Throw e, tr)
        | Ok c => (result <~ query c sql args ;; shape o c result) tr
        end in
      (* catch *)
      let out :=
        match r with
        | Ok res => Resolved res
        | Throw err => on_error o err
        end in
      (* finally *)
      match client, o_client o with
      | Ok c, None => (out, tr ++ [Release c])
      | _, _ => (out, tr)
      end
  end.

End Execution.

(* ------------------------------------------------------------------ *)
(** ** The operations [initialiseModel] installs on a model *)

(** What a model operation, or a modifier called on its result, evaluates
    to. *)
Inductive returned : Type :=
| RBuilder (b : Builder)
    (* [sendNativeQuery]'s returnable *)
| RValue (v : value)
    (* a plain value: 'TODO', [], undefined *)
| REmptyCreate
    (* createEach's [{ fetch, usingConnection }] for an empty list *)
| REmptyCreateFetched.
    (* that object's [fetch()]: [{ usingConnection, then }] *)

(** What [await x] evaluates to when it fulfils. *)
Inductive awaited : Type :=
| AResolution (r : resolution)   (* a builder's [resolve] argument *)
| AReturned (x : returned).      (* [x] has no [then]: the value itself *)

Section Models.

Variable rt : Runtime.

(** A caller-supplied model document; [attributes] may be missing. *)
Definition initialiseModel (defaultAttributes : attrs) (name : string)
  (own : option attrs) : Model :=
  {| globalId := name;
     tableName := toLowerCase rt name;
     attributes :=
       spread defaultAttributes
         (match own with Some a => a | None => [] end) |}.

Definition model_opts (M : Model) : Opts :=
  {| o_Model := Some M; o_single := false; o_returnSingleRow := false;
     o_returnRows := false; o_fetch := false; o_limit := VUndefined;
     o_orderBy := VUndefined; o_populate := None; o_client := None;
     o_intercepters := [] |}.

Definition create_sql (M : Model) (cols : list string) (vals : string)
  : string :=
  nl +++ "        INSERT INTO " +++ esc_table rt (tableName M)
  +++ nl +++ "            " +++ buildColumnNamesQuery rt cols
  +++ nl +++ "            VALUES " +++ vals
  +++ nl +++ "      ".

Definition create (M : Model) (props : obj) : returned :=
  let props := withDefaultValues M props true in
  let cols := map fst props in
  let '(vals, values) := buildValuesQuery M cols props [] in
  RBuilder (sendNativeQuery (create_sql M cols vals) (Some values)
    {| o_Model := Some M; o_single := true; o_returnSingleRow := false;
       o_returnRows := false; o_fetch := false; o_limit := VUndefined;
       o_orderBy := VUndefined; o_populate := None; o_client := None;
       o_intercepters := [] |}).

(** [propses.map(props => buildValuesQuery(Model, cols, props, values))],
    all pushing onto the one [values]. *)
Fixpoint createEach_values (M : Model) (cols : list string)
  (propses : list obj) (values : list value) : list string * list value :=
  match propses with
  | [] => ([], values)
  | props :: rest =>
      let '(q, values') := buildValuesQuery M cols props values in
      let '(qs, values'') := createEach_values M cols rest values' in
      (q :: qs, values'')
  end.

Definition createEach (M : Model) (propses : list obj) : returned :=
  let propses := map (fun props => withDefaultValues M props true) propses in
  match propses with
  | [] => REmptyCreate
  | first :: _ =>
      let cols := map fst first in
      let '(qs, values) := createEach_values M cols propses [] in
      RBuilder (sendNativeQuery
        (create_sql M cols (join ("," +++ nl +++ "                   ") qs))
        (Some values) (model_opts M))
  end.

(** [Model.destroy = () => {}] and [Model.destroyOne = () => {}]. *)
Definition destroy (M : Model) (criteria : value) : returned :=
  RValue VUndefined.

Definition destroyOne (M : Model) (criteria : value) : returned :=
  RValue VUndefined.

Definition find_sql (M : Model) (select wher : string) : string :=
  nl +++ "        SELECT " +++ select
  +++ nl +++ "          FROM " +++ esc_table rt (tableName M)
  +++ nl +++ "          " +++ wher
  +++ nl +++ "      ".

Definition find (M : Model) (options : value) : result returned :=
  let options := if is_undefined options then VObj [] else options in
  '(select, criteria, orderBy, limit) <- getFindCriteriaFrom rt options ;;
  '(wher, args) <- buildWhereQuery rt criteria [] ;;
  Ok (RBuilder (sendNativeQuery (find_sql M select wher) (Some args)
    {| o_Model := Some M; o_single := false; o_returnSingleRow := false;
       o_returnRows := true; o_fetch := false; o_limit := limit;
       o_orderBy := orderBy; o_populate := None; o_client := None;
       o_intercepters := [] |})).

Definition findOne_sql (M : Model) (select wher : string) : string :=
  nl +++ "        SELECT " +++ select
  +++ nl +++ "          FROM " +++ esc_table rt (tableName M)
  +++ nl +++ "          WHERE id = ("
  +++ nl +++ "            SELECT id"
  +++ nl +++ "              FROM " +++ esc_table rt (tableName M)
  +++ nl +++ "              " +++ wher
  +++ nl +++ "          )"
  +++ nl +++ "      ".

Definition findOne (M : Model) (options : value) : result returned :=
  let options := if is_undefined options then VObj [] else options in
  '(select, criteria, orderBy, limit) <- getFindCriteriaFrom rt options ;;
  '(wher, args) <- buildWhereQuery rt criteria [] ;;
  Ok (RBuilder (sendNativeQuery (findOne_sql M select wher) (Some args)
    {| o_Model := Some M; o_single := false; o_returnSingleRow := true;
       o_returnRows := false; o_fetch := false; o_limit := limit;
       o_orderBy := orderBy; o_populate := None; o_client := None;
       o_intercepters := [] |})).

Definition update_sql (M : Model) (setQuery wher : string) : string :=
  nl +++ "            UPDATE " +++ esc_table rt (tableName M)
  +++ nl +++ "              SET " +++ setQuery
  +++ nl +++ "              " +++ wher
  +++ nl +++ "          ".

(** [Model.update(criteria).set(props)] *)
Definition update (M : Model) (criteria : value) (props : obj)
  : result returned :=
  let props := withDefaultValues M props false in
  '(setQuery, args) <- buildSetQuery rt M props [] ;;
  if setQuery =? EmptyString then Ok (RValue (VStr "TODO"))
  else
    '(wher, args') <- buildWhereQuery rt criteria args ;;
    Ok (RBuilder (sendNativeQuery (update_sql M setQuery wher) (Some args')
          (model_opts M))).

Definition updateOne_sql (M : Model) (setQuery wher : string) : string :=
  nl +++ "            UPDATE " +++ esc_table rt (tableName M)
  +++ nl +++ "              SET " +++ setQuery
  +++ nl +++ "              WHERE id = ("
  +++ nl +++ "                SELECT id"
  +++ nl +++ "                  FROM " +++ esc_table rt (tableName M)
  +++ nl +++ "                  " +++ wher
  +++ nl +++ "              )"
  +++ nl +++ "          ".

(** [Model.updateOne(criteria).set(props)] *)
Definition updateOne (M : Model) (criteria : value) (props : obj)
  : result returned :=
  let props := withDefaultValues M props false in
  '(setQuery, args) <- buildSetQuery rt M props [] ;;
  if setQuery =? EmptyString then Ok (RValue (VStr "TODO"))
  else
    '(wher, args') <- buildWhereQuery rt criteria args ;;
    Ok (RBuilder (sendNativeQuery (updateOne_sql M setQuery wher)
          (Some args')
          {| o_Model := Some M; o_single := true; o_returnSingleRow := false;
             o_returnRows := false; o_fetch := true; o_limit := VUndefined;
             o_orderBy := VUndefined; o_populate := None; o_client := None;
             o_intercepters := [] |})).

(* ------------------------------------------------------------------ *)
(** ** Calling modifiers on, and awaiting, what an operation returned *)

Definition not_a_function (method : string) : exn :=
  TypeError (method +++ " is not a function").

(** [x.fetch()] *)
Definition call_fetch (x : returned) : result returned :=
  match x with
  | RBuilder b => Ok (RBuilder (fetch b))
  | REmptyCreate => Ok REmptyCreateFetched
  | REmptyCreateFetched | RValue _ => Throw (not_a_function "fetch")
  end.

(** [x.usingConnection(client)] *)
Definition call_usingConnection (client : conn) (x : returned)
  : result returned :=
  match x with
  | RBuilder b => Ok (RBuilder (usingConnection client b))
  | REmptyCreate => Ok (RValue VUndefined)
  | REmptyCreateFetched => Ok (RValue (VArr []))
  | RValue _ => Throw (not_a_function "usingConnection")
  end.

(** [x.populate(prop)] *)
Definition call_populate (prop : string) (x : returned) : result returned :=
  match x with
  | RBuilder b => Ok (RBuilder (populate prop b))
  | _ => Throw (not_a_function "populate")
  end.

(** [typeof x.then === 'function'] *)
Definition is_thenable (x : returned) : bool :=
  match x with
  | RBuilder _ | REmptyCreateFetched => true
  | RValue _ | REmptyCreate => false
  end.

(** [await x]: a thenable is forced, anything else is its own value. *)
Definition await (w : World) (models : list Model) (x : returned)
  (tr : list event) : outcome awaited * list event :=
  match x with
  | RBuilder b =>
      match then_ rt w models b tr with
      | (Resolved r, tr') => (Resolved (AResolution r), tr')
      | (Rejected r, tr') => (Rejected r, tr')
      | (ThenThrew e, tr') => (ThenThrew e, tr')
      end
  | REmptyCreateFetched => (Resolved (AReturned (RValue (VArr []))), tr)
  | REmptyCreate | RValue _ => (Resolved (AReturned x), tr)
  end.

End Models.

(* ------------------------------------------------------------------ *)
(** ** The registry and [transaction] *)

(** The module's entry point initialises every caller-supplied model:
    [Object.entries(models).forEach(([ modelName, model ]) =>
    initialiseModel(modelName, model))].  The models, in
    [Object.values(models)] order. *)
Definition plimsoll_models (rt : Runtime) (defaultAttributes : attrs)
  (models : list (string * option attrs)) : list Model :=
  map (fun nm => initialiseModel rt defaultAttributes (fst nm) (snd nm))
      models.

(** How the promise of an [async] function ends; [Pending] is a promise
    that never settles. *)
Inductive settlement (A : Type) : Type :=
| Fulfilled (a : A)
| Failed (r : rejection)
| Pending.
Arguments Fulfilled {A} a.
Arguments Failed {A} r.
Arguments Pending {A}.

(** What [await thenable] does to the awaiting function: a [then] that
    threw calls neither callback, so the await never returns. *)
Definition settled {A} (o : outcome A) : settlement A :=
  match o with
  | Resolved a => Fulfilled a
  | Rejected r => Failed r
  | ThenThrew _ => Pending
  end.

(** A unit of work: what [fn(client)] does to the world and how its promise
    ends. *)
Definition work (A : Type) : Type :=
  conn -> list event -> settlement A * list event.

(** [transaction(fn)] *)
Definition transaction {A} (w : World) (fn : work A) (tr : list event)
  : settlement A * list event :=
  match connect w tr with
  | (Throw e, tr) => (Failed (RejErr e), tr)
  | (Ok client, tr) =>
      (* try *)
      let '(r, tr) :=
        match query w client "BEGIN" None tr with
        | (Throw e, tr) => (Failed (RejErr e), tr)
        | (Ok _, tr) =>
            match fn client tr with
            | (Fulfilled res, tr) =>
                match query w client "COMMIT" None tr with
                | (Throw e, tr) => (Failed (RejErr e), tr)
                | (Ok _, tr) => (Fulfilled res, tr)
                end
            | (r, tr) => (r, tr)
            end
        end in
      match r with
      | Fulfilled res => (Fulfilled res, tr ++ [Release client])
      | Failed err =>
          (* catch *)
          match query w client "ROLLBACK" None tr with
          | (Throw e, tr) => (Failed (RejErr e), tr ++ [Release client])
          | (Ok _, tr) => (Failed err, tr ++ [Release client])
          end
      | Pending => (Pending, tr)
      end
  end.

(** The unit of work [client => builder.usingConnection(client)]. *)
Definition within (rt : Runtime) (w : World) (models : list Model)
  (b : Builder) : work resolution :=
  fun client tr =>
    let '(o, tr') := then_ rt w models (usingConnection client b) tr in
    (settled o, tr').

(** The builders one can hold: what [sendNativeQuery] returned, with
    modifiers called on it. *)
Inductive built : Builder -> Prop :=
| built_sendNativeQuery sql args opts :
    built (sendNativeQuery sql args opts)
| built_usingConnection client b :
    built b -> built (usingConnection client b)
| built_fetch b : built b -> built (fetch b)
| built_intercept errName h b : built b -> built (intercept errName h b)
| built_limit n b b' : built b -> limit n b = Ok b' -> built b'
| built_populate prop b : built b -> built (populate prop b)
| built_sort criteria b : built b -> built (sort criteria b).

(* ------------------------------------------------------------------ *)
(** ** Fixtures: the models of the test suite, and a small world *)

Module Fixtures.

Definition lower_ascii (c : ascii) : ascii :=
  let n := nat_of_ascii c in
  if (65 <=? n)%nat && (n <=? 90)%nat then ascii_of_nat (n + 32) else c.

Definition upper_ascii (c : ascii) : ascii :=
  let n := nat_of_ascii c in
  if (97 <=? n)%nat && (n <=? 122)%nat then ascii_of_nat (n - 32) else c.

Fixpoint map_string (f : ascii -> ascii) (s : string) : string :=
  match s with
  | EmptyString => EmptyString
  | String c s' => String (f c) (map_string f s')
  end.

(** Split on blanks, dropping empty pieces. *)
Fixpoint words (cur : string) (s : string) : list string :=
  match s with
  | EmptyString => if cur =? EmptyString then [] else [cur]
  | String c s' =>
      if Ascii.eqb c " "%char
      then (if cur =? EmptyString then words EmptyString s'
            else cur :: words EmptyString s')
      else words (cur +++ String c EmptyString) s'
  end.

Definition z_to_string (z : Z) : string :=
  if (z <? 0)%Z then "-" +++ nat_to_string (Z.to_nat (- z))
  else nat_to_string (Z.to_nat z).

(** An ASCII-only runtime: identifiers in lower case need no quoting,
    integers are rendered as quoted literals. *)
Definition rt : Runtime :=
  {| esc_col := fun v => match v with VStr s => s | _ => "?" end;
     esc_num := fun v =>
       match v with
       | VNum (Int z) => "'" +++ z_to_string z +++ "'"
       | _ => "NULL"
       end;
     esc_table := fun s => s;
     JSON_stringify := fun v =>
       match v with VStr s => VStr s | _ => VStr "{}" end;
     Number_ := fun v => match v with VNum n => VNum n | _ => VNum NaN end;
     toLowerCase := map_string lower_ascii;
     toUpperCase := map_string upper_ascii;
     trim_split := fun s =>
       match words EmptyString s with [] => [EmptyString] | ws => ws end |}.

Definition attr (t : option string) : AttributeSpec :=
  {| type := t; allowNull := false; defaultsTo := VUndefined;
     autoCreatedAt := false; autoUpdatedAt := false; model := None |}.

Definition createdAt : AttributeSpec :=
  {| type := Some "number"; allowNull := false; defaultsTo := VUndefined;
     autoCreatedAt := true; autoUpdatedAt := false; model := None |}.

Definition updatedAt : AttributeSpec :=
  {| type := Some "number"; allowNull := false; defaultsTo := VUndefined;
     autoCreatedAt := false; autoUpdatedAt := true; model := None |}.

Definition relation (target : string) : AttributeSpec :=
  {| type := None; allowNull := false; defaultsTo := VUndefined;
     autoCreatedAt := false; autoUpdatedAt := false; model := Some target |}.

Definition Simple : Model :=
  initialiseModel rt [] "Simple"
    (Some [("id", attr (Some "number")); ("name", attr (Some "string"))]).

Definition Audited : Model :=
  initialiseModel rt [] "Audited"
    (Some [("id", attr (Some "number")); ("name", attr (Some "string"));
           ("created_at", createdAt); ("inserted_at", createdAt);
           ("updated_at", updatedAt); ("_set_at", updatedAt)]).

Definition WithRelationship : Model :=
  initialiseModel rt [] "WithRelationship"
    (Some [("id", attr (Some "number")); ("name", attr (Some "string"));
           ("my_simple", relation "Simple")]).

Definition registry : list Model := [Audited; Simple; WithRelationship].

Definition num (z : Z) : value := VNum (Int z).

Definition alice : obj := [("id", num 1); ("name", VStr "alice")].
Definition bob : obj := [("id", num 2); ("name", VStr "bob")].

Definition alice_owner : obj :=
  [("id", num 1); ("name", VStr "alice_owner"); ("my_simple", num 1)].
Definition second_alice_owner : obj :=
  [("id", num 2); ("name", VStr "second_alice_owner"); ("my_simple", num 1)].
Definition owns_nothing : obj :=
  [("id", num 3); ("name", VStr "owns_nothing"); ("my_simple", VNull)].

(** A storage that answers every statement with the same rows. *)
Definition answering (rs : list obj) : World :=
  {| date_now := fun tr => Z.of_nat (List.length tr);
     pool_connect := fun _ => Ok 7%nat;
     client_query := fun _ _ _ _ =>
       Ok {| rows := rs; rowCount := Z.of_nat (List.length rs) |} |}.

(** A storage that answers the first statement of a trace with [first] and
    every later one with [later]. *)
Definition is_query (e : event) : bool :=
  match e with Query _ _ _ _ => true | _ => false end.

Definition answering_then (first later : list obj) : World :=
  {| date_now := fun tr => Z.of_nat (List.length tr);
     pool_connect := fun _ => Ok 7%nat;
     client_query := fun tr _ _ _ =>
       let rs := if existsb is_query tr then later else first in
       Ok {| rows := rs; rowCount := Z.of_nat (List.length rs) |} |}.

(** A storage that fails every statement with the same native error. *)
Definition failing (err : exn) : World :=
  {| date_now := fun tr => Z.of_nat (List.length tr);
     pool_connect := fun _ => Ok 7%nat;
     client_query := fun _ _ _ _ => Throw err |}.

Definition unique_violation : exn :=
  NativeError "23505" "duplicate key value violates unique constraint".

(** The builder behind what an operation returned. *)
Definition builder_of (x : returned) : Builder :=
  match x with
  | RBuilder b => b
  | _ => sendNativeQuery EmptyString None no_opts
  end.

Definition insert_alice : Builder :=
  builder_of (create rt Simple [("name", VStr "alice")]).

Definition audit_alice : Builder :=
  builder_of (create rt Audited [("name", VStr "alice")]).

(** [WithRelationship.find().populate('my_simple')] *)
Definition find_owners : Builder :=
  populate "my_simple"
    (match find rt WithRelationship VUndefined with
     | Ok x => builder_of x
     | Throw _ => sendNativeQuery EmptyString None no_opts
     end).

(** [WithRelationship.findOne(3).populate('my_simple')] *)
Definition find_owner_3 : Builder :=
  populate "my_simple"
    (match findOne rt WithRelationship (num 3) with
     | Ok x => builder_of x
     | Throw _ => sendNativeQuery EmptyString None no_opts
     end).

Definition WithDefaults : Model :=
  initialiseModel rt [] "WithDefaults"
    (Some [("id", attr (Some "number"));
           ("str_no_def", attr (Some "string"));
           ("str_def",
            {| type := Some "string"; allowNull := false;
               defaultsTo := VStr "val"; autoCreatedAt := false;
               autoUpdatedAt := false; model := None |});
           ("num_no_def", attr (Some "number"));
           ("num_def",
            {| type := Some "number"; allowNull := false;
               defaultsTo := VStr "77"; autoCreatedAt := false;
               autoUpdatedAt := false; model := None |})]).

End Fixtures.

(* ------------------------------------------------------------------ *)
(** ** The criteria translation as the specification words it *)

Module Spec.

Definition comparison_operators : list string :=
  ["<"; ">"; "<="; ">="; "!="].

(** A single-key operator mapping [{ op: val }] on column [col]; [n] is the
    number of the next bound parameter.  The clause, and the parameters it
    binds. *)
Definition operator_clause (col op : string) (val : value) (n : nat)
  : result (string * list value) :=
  if op =? "!=" then
    match val with
    | VNull => Ok (col +++ " IS NOT NULL", [])
    | VArr _ =>
        Ok ("NOT ( " +++ col +++ " = ANY( " +++ placeholder n +++ " ) )",
            [val])
    | _ => Ok (col +++ op +++ placeholder n, [val])
    end
  else if existsb (String.eqb op) comparison_operators then
    Ok (col +++ op +++ placeholder n, [val])
  else Throw (UnsupportedOperator op).

(** One key/value pair of a criteria mapping. *)
Definition clause (rt : Runtime) (k : string) (v : value) (n : nat)
  : result (string * list value) :=
  let col := esc_col rt (VStr k) in
  match v with
  | VNull => Ok (col +++ " IS NULL", [])
  | VArr _ => Ok (col +++ "=ANY(" +++ placeholder n +++ ")", [v])
  | VObj _ | VNow =>
      match entries v with
      | [(op, val)] => operator_clause col op val n
      | _ => Throw (InvalidCriteria k)
      end
  | _ => Ok (col +++ "=" +++ placeholder n, [v])
  end.

(** The clauses of a mapping, left to right; each bound parameter takes the
    next position of the argument list. *)
Fixpoint clauses (rt : Runtime) (es : obj) (args : list value)
  : result (list string * list value) :=
  match es with
  | [] => Ok ([], args)
  | (k, v) :: es' =>
      '(text, params) <- clause rt k v (S (List.length args)) ;;
      '(texts, args') <- clauses rt es' (args ++ params) ;;
      Ok (text :: texts, args')
  end.

Definition compileWhere (rt : Runtime) (es : obj) (args : list value)
  : result (string * list value) :=
  '(texts, args') <- clauses rt es args ;;
  match texts with
  | [] => Ok (EmptyString, args')
  | _ => Ok ("WHERE " +++ join " AND " texts, args')
  end.

End Spec.

(* ------------------------------------------------------------------ *)
(** ** Reading traces *)

(** New events of a run that started from the trace [tr]. *)
Definition since (tr : list event) (tr' : list event) : list event :=
  skipn (List.length tr) tr'.

Definition is_connect (e : event) : bool :=
  match e with Connect _ => true | _ => false end.

Definition is_release (e : event) : bool :=
  match e with Release _ => true | _ => false end.

(** [e] is a statement sent on connection [c]. *)
Definition is_query_on (c : conn) (e : event) : bool :=
  match e with Query c' _ _ _ => Nat.eqb c' c | _ => false end.

(** The arguments of the first statement among [evs]. *)
Fixpoint first_statement_args (evs : list event)
  : option (option (list value)) :=
  match evs with
  | [] => None
  | Query _ _ args _ :: _ => Some args
  | _ :: evs' => first_statement_args evs'
  end.

(** What one clause does to the accumulator of [buildWhereQuery]. *)
Definition clause_step (acc : WhereAcc) (r : result (string * list value))
  : result WhereAcc :=
  match r with
  | Ok (text, params) =>
      Ok {| w_args := w_args acc ++ params;
            w_argIdx := List.length (w_args acc ++ params);
            w_wher := w_wher acc ++ [text] |}
  | Throw e => Throw e
  end.

Definition is_now (e : event) : bool :=
  match e with Now _ => true | _ => false end.

(** Whatever the history, running [m] only appends events that satisfy
    [P]. *)
Definition emits {A} (P : event -> bool) (m : exec A) : Prop :=
  forall tr, exists evs, snd (m tr) = tr ++ evs /\ forallb P evs = true.

(** The statements among [evs], with their arguments. *)
Fixpoint statements (evs : list event)
  : list (string * option (list value)) :=
  match evs with
  | [] => []
  | Query _ sql args _ :: evs' => (sql, args) :: statements evs'
  | _ :: evs' => statements evs'
  end.

(** A foreign key that is null or absent. *)
Definition no_key (v : value) : bool := is_null v || is_undefined v.

(** A looked-up row whose [id] is neither null nor absent. *)
Definition has_id (row : obj) : bool := negb (no_key (get row "id")).

(* ------------------------------------------------------------------ *)
(** ** Reading compiled fragments *)

(** [xs] with the positions [n], [n+1], ... *)
Definition numbered {A} (n : nat) (xs : list A) : list (nat * A) :=
  combine (seq n (List.length xs)) xs.

(** The value [buildSetQuery] binds for one property: serialised when the
    attribute is declared [json]. *)
Definition set_value (rt : Runtime) (M : Model) (kv : string * value)
  : value :=
  match attr_get (attributes M) (fst kv) with
  | Some cfg =>
      match type cfg with
      | Some t => if t =? "json" then JSON_stringify rt (snd kv) else snd kv
      | None => snd kv
      end
  | None => snd kv
  end.

(** The assignment [col = $i] of the [i]-th bound value. *)
Definition set_clause (rt : Runtime) (ik : nat * (string * value))
  : string :=
  esc_col rt (VStr (fst (snd ik))) +++ " = " +++ placeholder (fst ik).

(** Every property of [props] names a declared attribute. *)
Definition all_declared (M : Model) (props : obj) : bool :=
  forallb (fun kv =>
             match attr_get (attributes M) (fst kv) with
             | Some _ => true
             | None => false
             end) props.

(** [Model.attributes[k]] is defined for every property [k] of [props]:
    each names a declared attribute or a member of [Object.prototype]. *)
Definition all_readable (M : Model) (props : obj) : bool :=
  forallb (fun kv =>
             match attributes_at M (fst kv) with
             | Some _ => true
             | None => false
             end) props.

(** What the cast leaves in a column that holds [v] under the name [k]. *)
Definition cast_column (M : Model) (kv : string * value)
  : result (string * value) :=
  if no_key (snd kv) then
    match attributes_at M (fst kv) with
    | None =>
        Throw (TypeError
          "Cannot destructure property 'allowNull' of undefined")
    | Some cfg =>
        if allowNull cfg then Ok kv
        else match zero_of (type cfg) with
             | Some z => Ok (fst kv, z)
             | None => Ok kv
             end
    end
  else Ok kv.

(** A null or absent column for whose name [Model.attributes[k]] is
    undefined: the name is neither a declared attribute nor a member of
    [Object.prototype]. *)
Definition unreadable_null (M : Model) (kv : string * value) : bool :=
  no_key (snd kv) &&
  match attributes_at M (fst kv) with
  | Some _ => false
  | None => true
  end.

(** The text [then] sends for a builder whose ORDER BY fragment is
    [orderBy]: [sql], then [' RETURNING *'] if fetching, then the ORDER BY
    and LIMIT fragments. *)
Definition statement_text (rt : Runtime) (b : Builder) (orderBy : string)
  : string :=
  (b_sql b
   +++ (if o_fetch (b_opts b) then " RETURNING *" else EmptyString))
  +++ orderBy +++ buildLimitQuery rt (o_limit (b_opts b)).

(** The arguments [then] sends when forced at the trace [tr]. *)
Definition statement_args (w : World) (b : Builder) (tr : list event)
  : option (list value) :=
  option_map (substitute_now (date_now w tr)) (b_args b).

(** The [try] block of [then] for the statement [sql], [args]: the bound
    connection or else one leased from the pool, the statement, the shaping
    of its result.  Whatever it throws is what the [catch] block gets. *)
Definition try_block (rt : Runtime) (w : World) (models : list Model)
  (o : Opts) (sql : string) (args : option (list value)) : exec resolution :=
  match o_client o with
  | Some c => result <~ query w c sql args ;; shape rt w models o c result
  | None =>
      c <~ connect w ;;
      result <~ query w c sql args ;; shape rt w models o c result
  end.

(** [e] is a statement on connection [c] or a reading of the clock. *)
Definition uses_only (c : conn) (e : event) : bool :=
  is_query_on c e || is_now e.

(** A VALUES tuple of [n] placeholders, the first numbered [start + 1]. *)
Definition values_tuple (n start : nat) : string :=
  "(" +++ join ", " (map placeholder (seq (S start) n)) +++ ")".

(* ------------------------------------------------------------------ *)
(** * Properties *)

(** ** Attribute maps *)

Lemma attr_get_set_same (o : attrs) k c :
  attr_get (attr_set o k c) k = Some c.
Proof.
  induction o as [|[k' c'] o IH]; simpl.
  - now rewrite String.eqb_refl.
  - destruct (k' =? k) eqn:E; simpl; rewrite E; auto.
Qed.

Lemma attr_get_set_other (o : attrs) k k' c :
  k <> k' -> attr_get (attr_set o k c) k' = attr_get o k'.
Proof.
  intros Hne. induction o as [|[k0 c0] o IH]; simpl.
  - destruct (k =? k') eqn:E; auto. apply String.eqb_eq in E. contradiction.
  - destruct (k0 =? k) eqn:E; simpl.
    + apply String.eqb_eq in E. subst k0.
      destruct (k =? k') eqn:E'; auto.
      apply String.eqb_eq in E'. contradiction.
    + now rewrite IH.
Qed.

Lemma attr_get_none_notin (o : attrs) k :
  ~ In k (map fst o) -> attr_get o k = None.
Proof.
  induction o as [|[k' c'] o IH]; simpl; auto.
  intros Hn. destruct (k' =? k) eqn:E.
  - apply String.eqb_eq in E. exfalso. auto.
  - apply IH. auto.
Qed.

Lemma attr_get_assign_all (b o : attrs) k :
  NoDup (map fst b) ->
  attr_get (fold_left (fun o kc => attr_set o (fst kc) (snd kc)) b o) k =
  match attr_get b k with
  | Some c => Some c
  | None => attr_get o k
  end.
Proof.
  revert o. induction b as [|[k1 c1] b IH]; intros o Hnd; simpl; auto.
  inversion Hnd as [|? ? Hnotin Hnd']; subst.
  rewrite IH by assumption.
  destruct (k1 =? k) eqn:E.
  - apply String.eqb_eq in E. subst k1.
    rewrite (attr_get_none_notin _ _ Hnotin).
    apply attr_get_set_same.
  - destruct (attr_get b k); auto.
    apply attr_get_set_other. intros ->. now rewrite String.eqb_refl in E.
Qed.

Lemma attr_set_keys (o : attrs) k c :
  map fst (attr_set o k c) =
  if existsb (String.eqb k) (map fst o) then map fst o else map fst o ++ [k].
Proof.
  induction o as [|[k' c'] o IH]; simpl; auto.
  rewrite (String.eqb_sym k k').
  destruct (k' =? k) eqn:E; simpl; auto.
  rewrite IH. now destruct (existsb (String.eqb k) (map fst o)).
Qed.

Lemma attr_set_NoDup (o : attrs) k c :
  NoDup (map fst o) -> NoDup (map fst (attr_set o k c)).
Proof.
  intros Hnd. rewrite attr_set_keys.
  destruct (existsb (String.eqb k) (map fst o)) eqn:E; auto.
  apply NoDup_app; auto.
  - constructor; [intros []|constructor].
  - intros x Hin [Hx|[]]. subst x.
    assert (existsb (String.eqb k) (map fst o) = true); [|congruence].
    apply existsb_exists. exists k. split; auto. apply String.eqb_refl.
Qed.

Lemma assign_all_NoDup (b o : attrs) :
  NoDup (map fst o) ->
  NoDup (map fst (fold_left (fun o kc => attr_set o (fst kc) (snd kc)) b o)).
Proof.
  revert o. induction b as [|[k c] b IH]; intros o Hnd; simpl; auto.
  apply IH. now apply attr_set_NoDup.
Qed.

(** C9.  A model initialised in a registry with global default attributes
    has, as its attribute mapping, the defaults merged with its own declared
    attributes: a name the model declares reads as the model's declaration
    (the global one of that name is replaced whole), any other name reads as
    the global default, and no name occurs twice. *)
Theorem initialiseModel_merges_defaults
  (rt : Runtime) (defaultAttributes : attrs) (name : string)
  (own : option attrs) (k : string) :
  NoDup (map fst defaultAttributes) ->
  NoDup (map fst (match own with Some a => a | None => [] end)) ->
  let M := initialiseModel rt defaultAttributes name own in
  attr_get (attributes M) k =
    match attr_get (match own with Some a => a | None => [] end) k with
    | Some c => Some c
    | None => attr_get defaultAttributes k
    end
  /\ NoDup (map fst (attributes M)).
Proof.
  intros Hd Ho M. unfold M, initialiseModel, spread. simpl. split.
  - rewrite attr_get_assign_all by assumption.
    destruct (attr_get _ k); auto.
    rewrite attr_get_assign_all by assumption.
    now destruct (attr_get defaultAttributes k).
  - apply assign_all_NoDup, assign_all_NoDup. constructor.
Qed.

Lemma initialiseModel_merges_defaults_witness :
  let M := initialiseModel Fixtures.rt
             [("created_timestamp", Fixtures.createdAt);
              ("name", Fixtures.attr None)]
             "Simple"
             (Some [("id", Fixtures.attr (Some "number"));
                    ("name", Fixtures.attr (Some "string"))]) in
  attr_get (attributes M) "name" = Some (Fixtures.attr (Some "string"))
  /\ attr_get (attributes M) "created_timestamp" = Some Fixtures.createdAt.
Proof.
  pose (defaults := [("created_timestamp", Fixtures.createdAt);
                     ("name", Fixtures.attr None)]).
  pose (own := [("id", Fixtures.attr (Some "number"));
                ("name", Fixtures.attr (Some "string"))]).
  assert (Hd : NoDup (map fst defaults)).
  { simpl. repeat constructor; simpl; intuition discriminate. }
  assert (Ho : NoDup (map fst (match Some own with
                               | Some a => a | None => [] end))).
  { simpl. repeat constructor; simpl; intuition discriminate. }
  split.
  - exact (proj1 (initialiseModel_merges_defaults Fixtures.rt defaults
                    "Simple" (Some own) "name" Hd Ho)).
  - exact (proj1 (initialiseModel_merges_defaults Fixtures.rt defaults
                    "Simple" (Some own) "created_timestamp" Hd Ho)).
Defined.

(** ** The criteria compiler *)

Lemma safeOp_spec (op : string) :
  safeOp op =
  if existsb (String.eqb op) Spec.comparison_operators then Ok op
  else Throw (UnsupportedOperator op).
Proof.
  unfold safeOp, Spec.comparison_operators. simpl.
  destruct (op =? "<"), (op =? ">"), (op =? "<="), (op =? ">="),
    (op =? "!="); reflexivity.
Qed.

Lemma where_op_spec (rt : Runtime) k op val (acc : WhereAcc) :
  w_argIdx acc = List.length (w_args acc) ->
  where_op rt k acc (op, val) =
  clause_step acc
    (Spec.operator_clause (esc_col rt (VStr k)) op val
       (S (List.length (w_args acc)))).
Proof.
  intros Hidx. destruct acc as [args idx wher]. simpl in *. subst idx.
  unfold where_op, Spec.operator_clause.
  rewrite safeOp_spec. unfold Spec.comparison_operators.
  cbn [existsb w_args w_argIdx w_wher].
  destruct (op =? "!=") eqn:Ene.
  - apply String.eqb_eq in Ene. subst op.
    destruct val; simpl;
      rewrite ?app_nil_r, ?length_app; simpl; rewrite ?Nat.add_1_r;
      reflexivity.
  - destruct (op =? "<"), (op =? ">"), (op =? "<="), (op =? ">="); simpl;
      rewrite ?length_app; simpl; rewrite ?Nat.add_1_r; reflexivity.
Qed.

Lemma where_entry_spec (rt : Runtime) k v (acc : WhereAcc) :
  w_argIdx acc = List.length (w_args acc) ->
  where_entry rt acc (k, v) =
  clause_step acc (Spec.clause rt k v (S (List.length (w_args acc)))).
Proof.
  intros Hidx. unfold where_entry, Spec.clause.
  destruct v as [| |b|n|s|xs|props|];
    try (destruct acc as [args idx wher]; simpl in *; subst idx;
         rewrite ?app_nil_r, ?length_app; simpl; rewrite ?Nat.add_1_r;
         reflexivity).
  (* what is left is an object: an operator mapping *)
  - cbn [is_null isArray typeof_object entries].
    destruct props as [|[op val] [|kv props]]; try reflexivity.
    cbn [List.length Nat.eqb negb forEachM].
    rewrite where_op_spec by assumption.
    now destruct (clause_step acc _).
Qed.

Lemma clause_step_index acc r acc' :
  clause_step acc r = Ok acc' -> w_argIdx acc' = List.length (w_args acc').
Proof.
  destruct r as [[text params]|e]; simpl; intros H; inversion H; reflexivity.
Qed.

Lemma forEach_where_entry_spec (rt : Runtime) (es : obj) (acc : WhereAcc) :
  w_argIdx acc = List.length (w_args acc) ->
  forEachM (where_entry rt) es acc =
  match Spec.clauses rt es (w_args acc) with
  | Ok (texts, args') =>
      Ok {| w_args := args';
            w_argIdx := List.length args';
            w_wher := w_wher acc ++ texts |}
  | Throw e => Throw e
  end.
Proof.
  revert acc. induction es as [|[k v] es IH]; intros acc Hidx;
    cbn [forEachM Spec.clauses].
  - rewrite app_nil_r. destruct acc; simpl in *; now subst.
  - rewrite where_entry_spec by assumption.
    destruct (Spec.clause rt k v (S (List.length (w_args acc))))
      as [[text params]|e] eqn:Ec; simpl; auto.
    rewrite IH by reflexivity. simpl.
    destruct (Spec.clauses rt es (w_args acc ++ params))
      as [[texts args']|e]; simpl; auto.
    now rewrite <- app_assoc.
Qed.

(** C4.  On a criteria mapping, [buildWhereQuery] is the translation table
    of the specification: each key/value pair becomes the clause its shape
    calls for (null: IS NULL; sequence: =ANY($n) with the array bound;
    single-key operator mapping: IS NOT NULL, NOT ( col = ANY( $n ) ),
    col<op>$n or UnsupportedOperator; any other operator mapping:
    InvalidCriteria; anything else: col=$n), each bound parameter takes the
    next position of the argument list, the clauses are joined with AND
    behind WHERE, and the first pair that fails fails the whole criteria. *)
Theorem buildWhereQuery_mapping
  (rt : Runtime) (es : obj) (args : list value) :
  buildWhereQuery rt (VObj es) args = Spec.compileWhere rt es args.
Proof.
  unfold buildWhereQuery, Spec.compileWhere. simpl.
  rewrite forEach_where_entry_spec by reflexivity. simpl.
  destruct (Spec.clauses rt es args) as [[texts args']|e]; simpl; auto.
Qed.

(** ** The [limit] modifier *)

Lemma isSafeInteger_Int (z : Z) :
  isSafeInteger (VNum (Int z)) = true <->
  (- (2 ^ 53 - 1) <= z <= 2 ^ 53 - 1)%Z.
Proof.
  unfold isSafeInteger, MAX_SAFE_INTEGER. rewrite Z.leb_le. lia.
Qed.

(** C5, as the code has it.  [limit(n)] accepts exactly the safe integers,
    of either sign: an integer between -(2^53-1) and 2^53-1 is stored as the
    builder's limit and nothing else of the builder changes; an integer
    outside that range, a number that is not integral, NaN, an infinity and
    any value that is not a number fail with InvalidArgument. *)
Theorem limit_accepts_safe_integers (b : Builder) :
  (forall z : Z, (- (2 ^ 53 - 1) <= z <= 2 ^ 53 - 1)%Z ->
     exists b', limit (VNum (Int z)) b = Ok b'
       /\ o_limit (b_opts b') = VNum (Int z)
       /\ b_sql b' = b_sql b /\ b_args b' = b_args b)
  /\ (forall z : Z, ~ (- (2 ^ 53 - 1) <= z <= 2 ^ 53 - 1)%Z ->
        limit (VNum (Int z)) b
        = Throw (InvalidArgument "Limit must be an integer."))
  /\ (forall (n : Z) (d : positive), (n mod Zpos d <> 0)%Z ->
        limit (VNum (Frac n d)) b
        = Throw (InvalidArgument "Limit must be an integer."))
  /\ (forall v : value,
        match v with VNum (Int _) | VNum (Frac _ _) => False | _ => True end ->
        limit v b = Throw (InvalidArgument "Limit must be an integer.")).
Proof.
  split; [|split; [|split]].
  - intros z Hz. apply isSafeInteger_Int in Hz.
    unfold limit. rewrite Hz. simpl. eexists. repeat split.
  - intros z Hz. unfold limit.
    destruct (isSafeInteger (VNum (Int z))) eqn:E; auto.
    apply isSafeInteger_Int in E. contradiction.
  - intros n d Hnd. unfold limit, isSafeInteger.
    destruct (n mod Z.pos d =? 0)%Z eqn:E; auto.
    apply Z.eqb_eq in E. contradiction.
  - intros v Hv. unfold limit.
    destruct v as [| | |[]| | | |]; simpl in *; auto; contradiction.
Qed.

Lemma limit_accepts_safe_integers_witness :
  exists b', limit (VNum (Int 10))
               (sendNativeQuery "SELECT 1" None no_opts) = Ok b'
    /\ o_limit (b_opts b') = VNum (Int 10)
    /\ b_sql b' = "SELECT 1" /\ b_args b' = None.
Proof.
  apply (proj1 (limit_accepts_safe_integers
                  (sendNativeQuery "SELECT 1" None no_opts)) 10%Z).
  lia.
Defined.

(** C5 as stated fails: [limit(-1)] is accepted and stored. *)
Lemma limit_accepts_negative :
  exists b', limit (VNum (Int (-1)))
               (sendNativeQuery "SELECT 1" None no_opts) = Ok b'
    /\ o_limit (b_opts b') = VNum (Int (-1))
    /\ buildLimitQuery Fixtures.rt (o_limit (b_opts b')) = " LIMIT '-1'".
Proof.
  eexists. repeat split.
Qed.

(** ** Updates with an empty property map *)

Lemma withDefaultValues_empty (M : Model) :
  withDefaultValues M [] false = [].
Proof.
  unfold withDefaultValues.
  induction (attributes M) as [|[a cfg] l IH]; simpl; auto.
Qed.

(** C1, what the code does.  [update(criteria).set({})] and
    [updateOne(criteria).set({})] return the string 'TODO' for every model
    and criteria.  No statement is compiled and awaiting the string touches
    neither pool nor storage, but the string is no builder: it is not
    thenable and has no [fetch], [usingConnection] or [populate]. *)
Theorem update_empty_set_returns_TODO
  (rt : Runtime) (M : Model) (criteria : value)
  (w : World) (models : list Model) (tr : list event)
  (client : conn) (prop : string) :
  let r := RValue (VStr "TODO") in
  update rt M criteria [] = Ok r
  /\ updateOne rt M criteria [] = Ok r
  /\ await rt w models r tr = (Resolved (AReturned r), tr)
  /\ is_thenable r = false
  /\ call_fetch r = Throw (not_a_function "fetch")
  /\ call_usingConnection client r = Throw (not_a_function "usingConnection")
  /\ call_populate prop r = Throw (not_a_function "populate").
Proof.
  unfold update, updateOne. rewrite withDefaultValues_empty.
  repeat split.
Qed.

(** ** [createEach] on an empty list *)

(** C10, what the code does.  [createEach([])] returns the two-method
    object [{ fetch, usingConnection }].  It touches neither pool nor
    storage.  After [fetch()] it resolves to the empty list; awaited
    directly it is not thenable and the await yields the object itself;
    after [usingConnection()] it is [undefined]. *)
Theorem createEach_empty
  (rt : Runtime) (M : Model)
  (w : World) (models : list Model) (tr : list event) (client : conn) :
  createEach rt M [] = REmptyCreate
  /\ is_thenable REmptyCreate = false
  /\ await rt w models REmptyCreate tr
     = (Resolved (AReturned REmptyCreate), tr)
  /\ (x <- call_fetch REmptyCreate ;; Ok (await rt w models x tr))
     = Ok (Resolved (AReturned (RValue (VArr []))), tr)
  /\ (x <- call_usingConnection client REmptyCreate ;;
      Ok (await rt w models x tr))
     = Ok (Resolved (AReturned (RValue VUndefined)), tr)
  /\ (x <- call_fetch REmptyCreate ;;
      y <- call_usingConnection client x ;; Ok (await rt w models y tr))
     = Ok (Resolved (AReturned (RValue (VArr []))), tr)
  /\ (x <- call_usingConnection client REmptyCreate ;; call_fetch x)
     = Throw (not_a_function "fetch").
Proof.
  repeat split.
Qed.

(** ** Whole-table scope *)

(** C6, what the code does.  An absent or empty-mapping criteria compiles
    to the empty fragment, and [find] with either one builds the SELECT
    over the whole table with no arguments and no WHERE clause.  [destroy]
    is the empty function: it returns [undefined], and awaiting that touches
    neither pool nor storage, so no row is deleted. *)
Theorem whole_table_scope
  (rt : Runtime) (M : Model) (args : list value)
  (w : World) (models : list Model) (tr : list event) (criteria : value) :
  buildWhereQuery rt VUndefined args = Ok (EmptyString, args)
  /\ buildWhereQuery rt (VObj []) args = Ok (EmptyString, args)
  /\ (forall options, options = VUndefined \/ options = VObj [] ->
        exists b, find rt M options = Ok (RBuilder b)
          /\ b_sql b = find_sql rt M "*" EmptyString
          /\ b_args b = Some []
          /\ o_returnRows (b_opts b) = true)
  /\ destroy M criteria = RValue VUndefined
  /\ await rt w models (destroy M criteria) tr
     = (Resolved (AReturned (RValue VUndefined)), tr).
Proof.
  repeat split.
  intros options [-> | ->]; eexists; repeat split.
Qed.

Lemma whole_table_scope_witness :
  exists b, find Fixtures.rt Fixtures.Simple (VObj []) = Ok (RBuilder b)
    /\ b_sql b = find_sql Fixtures.rt Fixtures.Simple "*" EmptyString
    /\ b_args b = Some []
    /\ o_returnRows (b_opts b) = true.
Proof.
  apply (proj1 (proj2 (proj2 (whole_table_scope Fixtures.rt Fixtures.Simple []
           (Fixtures.answering []) Fixtures.registry [] VUndefined)))).
  right. reflexivity.
Defined.

(** ** Traces of an execution *)

Lemma since_app (tr evs : list event) : since tr (tr ++ evs) = evs.
Proof.
  unfold since. induction tr; simpl; auto.
Qed.

Lemma emits_eret {A} P (a : A) : emits P (eret a).
Proof.
  intros tr. exists []. simpl. now rewrite app_nil_r.
Qed.

Lemma emits_lift {A} P (r : result A) : emits P (lift r).
Proof.
  intros tr. exists []. simpl. now rewrite app_nil_r.
Qed.

Lemma emits_ebind {A B} P (m : exec A) (k : A -> exec B) :
  emits P m -> (forall a, emits P (k a)) -> emits P (ebind m k).
Proof.
  intros Hm Hk tr. unfold ebind.
  destruct (Hm tr) as [evs [Htr Hevs]].
  destruct (m tr) as [[a|e] tr1]; simpl in Htr; subst tr1.
  - destruct (Hk a (tr ++ evs)) as [evs' [Htr' Hevs']].
    exists (evs ++ evs'). rewrite Htr', app_assoc. split; auto.
    rewrite forallb_app, Hevs, Hevs'. reflexivity.
  - exists evs. auto.
Qed.

Lemma emits_query (w : World) c sql args :
  emits (is_query_on c) (query w c sql args).
Proof.
  intros tr. eexists. split; [reflexivity|]. simpl.
  now rewrite Nat.eqb_refl.
Qed.

Create HintDb emits.
#[local] Hint Resolve emits_eret emits_lift emits_query : emits.

Ltac emits_step :=
  first
    [ apply emits_ebind; [|intros ?]
    | solve [auto with emits]
    | match goal with
      | |- emits _ (match ?x with _ => _ end) => destruct x
      | |- emits _ (if ?x then _ else _) => destruct x
      end ].

Lemma emits_shape (rt : Runtime) (w : World) (models : list Model)
  (o : Opts) (c : conn) (result : QueryResult) :
  emits (is_query_on c) (shape rt w models o c result).
Proof.
  unfold shape, then_single, then_rows. repeat emits_step.
Qed.

Lemma emits_statement (rt : Runtime) (w : World) (models : list Model)
  (o : Opts) (c : conn) sql args :
  emits (is_query_on c)
    (result <~ query w c sql args ;; shape rt w models o c result).
Proof.
  apply emits_ebind; [apply emits_query | intros; apply emits_shape].
Qed.

Lemma statements_no_pool_event (c : conn) (evs : list event) :
  forallb (is_query_on c) evs = true ->
  filter is_connect evs = [] /\ filter is_release evs = [].
Proof.
  induction evs as [|e evs IH]; simpl; auto.
  intros H. apply andb_prop in H. destruct H as [He Hevs].
  destruct e; simpl in *; try discriminate. auto.
Qed.

Lemma filter_pool_events (c : conn) (clock stmts : list event) :
  forallb is_now clock = true ->
  forallb (is_query_on c) stmts = true ->
  filter is_connect (clock ++ stmts) = []
  /\ filter is_release (clock ++ stmts) = [].
Proof.
  intros Hclock Hstmts. rewrite !filter_app.
  destruct (statements_no_pool_event c stmts Hstmts) as [-> ->].
  rewrite !app_nil_r. clear Hstmts.
  induction clock as [|e clock IH]; simpl; auto.
  simpl in Hclock. apply andb_prop in Hclock. destruct Hclock as [He Hc].
  destruct e; simpl in *; try discriminate. auto.
Qed.

Lemma forallb_is_now_clock (args : option (list value)) (t : Z) :
  forallb is_now (match args with Some _ => [Now t] | None => [] end) = true.
Proof.
  now destruct args.
Qed.

(** The shape of every execution that gets past the ORDER BY fragment: the
    clock is read once when there is an argument list, the statement goes
    out with the substituted arguments on the bound or the leased
    connection, any follow-up statement uses the same connection, and a
    leased connection is released last. *)
Lemma then_trace (rt : Runtime) (w : World) (models : list Model)
  (b : Builder) (tr : list event) (orderBy : string) :
  buildOrderByQuery rt (o_orderBy (b_opts b)) = Ok orderBy ->
  let t := date_now w tr in
  let clock := match b_args b with Some _ => [Now t] | None => [] end in
  let args := option_map (substitute_now t) (b_args b) in
  let evs := since tr (snd (then_ rt w models b tr)) in
  exists sql,
    match o_client (b_opts b) with
    | Some c =>
        exists r rest,
          evs = clock ++ Query c sql args r :: rest
          /\ forallb (is_query_on c) rest = true
    | None =>
        match pool_connect w (tr ++ clock) with
        | Ok c =>
            exists r rest,
              evs = clock ++ Connect (Ok c) :: Query c sql args r
                            :: rest ++ [Release c]
              /\ forallb (is_query_on c) rest = true
        | Throw e => evs = clock ++ [Connect (Throw e)]
        end
    end.
Proof.
  intros Hob t clock args evs. subst evs t. unfold then_. rewrite Hob.
  eexists.
  assert (Hstmt : forall c sql a tr0,
    exists r rest,
      snd ((result <~ query w c sql a ;;
            shape rt w models (b_opts b) c result) tr0)
      = tr0 ++ Query c sql a r :: rest
      /\ forallb (is_query_on c) rest = true).
  { intros c sql a tr0. unfold ebind at 1, query.
    destruct (client_query w tr0 c sql a) as [result|e] eqn:Eq.
    - destruct (emits_shape rt w models (b_opts b) c result
                  (tr0 ++ [Query c sql a (Ok result)])) as [rest [Htr Hr]].
      exists (Ok result), rest. rewrite Htr, <- app_assoc. auto.
    - exists (Throw e), []. auto. }
  assert (Hsince : forall xs ys zs : list event,
            since tr (((tr ++ xs) ++ ys) ++ zs) = xs ++ ys ++ zs).
  { intros. now rewrite <- !app_assoc, since_app. }
  destruct (o_client (b_opts b)) as [c|];
    destruct (b_args b) as [a|]; subst clock args; cbn [option_map];
    unfold connect; rewrite ?app_nil_r;
    try match goal with
      | |- context [pool_connect w ?tr0] =>
          destruct (pool_connect w tr0) as [c|e]
      end;
    try match goal with
      | |- context [ebind (query w ?c ?sql ?a) ?k ?tr0] =>
          destruct (Hstmt c sql a tr0) as [r [rest [Htr Hr]]];
          destruct (ebind (query w c sql a) k tr0) as [x tr1];
          simpl in Htr; subst tr1; exists r, rest
      end;
    cbn [snd]; try (split; [|assumption]).
  all: try (rewrite <- ?app_assoc, since_app; reflexivity).
Qed.

Lemma leased_pool_events (c : conn) (x : result conn)
  (clock stmts : list event) :
  forallb is_now clock = true ->
  forallb (is_query_on c) stmts = true ->
  filter is_connect (clock ++ Connect x :: stmts ++ [Release c]) = [Connect x]
  /\ filter is_release (clock ++ Connect x :: stmts ++ [Release c])
     = [Release c].
Proof.
  intros Hclock Hstmts.
  destruct (filter_pool_events c clock [] Hclock eq_refl) as [H1 H2].
  rewrite app_nil_r in H1, H2.
  destruct (statements_no_pool_event c stmts Hstmts) as [H3 H4].
  rewrite !filter_app. cbn [filter is_connect is_release].
  rewrite !filter_app, H1, H2, H3, H4. auto.
Qed.

(** ** Connections *)

(** [then], once the ORDER BY fragment has compiled, as a function of the
    connection it runs on. *)
Lemma then_unfold (rt : Runtime) (w : World) (models : list Model)
  (b : Builder) (tr : list event) (orderBy : string) :
  buildOrderByQuery rt (o_orderBy (b_opts b)) = Ok orderBy ->
  let clock :=
    match b_args b with Some _ => [Now (date_now w tr)] | None => [] end in
  let run := fun c tr0 =>
    (result <~ query w c (statement_text rt b orderBy)
                 (statement_args w b tr) ;;
     shape rt w models (b_opts b) c result) tr0 in
  let conclude := fun r : result resolution =>
    match r with
    | Ok res => Resolved res
    | Throw err => on_error (b_opts b) err
    end in
  then_ rt w models b tr
  = match o_client (b_opts b) with
    | Some c =>
        (conclude (fst (run c (tr ++ clock))), snd (run c (tr ++ clock)))
    | None =>
        match pool_connect w (tr ++ clock) with
        | Ok c =>
            (conclude (fst (run c ((tr ++ clock) ++ [Connect (Ok c)]))),
             snd (run c ((tr ++ clock) ++ [Connect (Ok c)]))
             ++ [Release c])
        | Throw e =>
            (on_error (b_opts b) e, (tr ++ clock) ++ [Connect (Throw e)])
        end
    end.
Proof.
  intros Hob clock run conclude. subst clock run conclude.
  unfold then_, statement_text, statement_args. rewrite Hob.
  destruct (b_args b) as [a|]; cbn [option_map]; rewrite ?app_nil_r;
    destruct (o_client (b_opts b)) as [c|]; unfold connect;
    try match goal with
      | |- context [pool_connect w ?tr0] =>
          destruct (pool_connect w tr0) as [c|e]
      end;
    try match goal with
      | |- context [ebind (query w ?c ?sql ?a) ?k ?tr0] =>
          destruct (ebind (query w c sql a) k tr0) as [r tr1]
      end;
    reflexivity.
Qed.

(** The outcome of [then] is decided by its [try] block: its result is
    resolved, its error goes to the [catch] block. *)
Lemma then_attempt (rt : Runtime) (w : World) (models : list Model)
  (b : Builder) (tr : list event) (orderBy : string) :
  buildOrderByQuery rt (o_orderBy (b_opts b)) = Ok orderBy ->
  let clock :=
    match b_args b with Some _ => [Now (date_now w tr)] | None => [] end in
  fst (then_ rt w models b tr)
  = match fst (try_block rt w models (b_opts b) (statement_text rt b orderBy)
                 (statement_args w b tr) (tr ++ clock)) with
    | Ok res => Resolved res
    | Throw err => on_error (b_opts b) err
    end.
Proof.
  intros Hob clock. rewrite (then_unfold rt w models b tr Hob). fold clock.
  unfold try_block. destruct (o_client (b_opts b)) as [c|]; [reflexivity|].
  destruct (pool_connect w (tr ++ clock)) as [c|e] eqn:Hc;
    unfold ebind, connect; rewrite Hc; reflexivity.
Qed.

(** The statement goes out first; what follows it stays on its
    connection. *)
Lemma run_statement (rt : Runtime) (w : World) (models : list Model)
  (o : Opts) (c : conn) sql args (tr0 : list event) :
  exists r rest,
    snd ((result <~ query w c sql args ;;
          shape rt w models o c result) tr0)
    = tr0 ++ Query c sql args r :: rest
    /\ forallb (is_query_on c) rest = true.
Proof.
  unfold ebind at 1, query.
  destruct (client_query w tr0 c sql args) as [result|e] eqn:Eq.
  - destruct (emits_shape rt w models o c result
                (tr0 ++ [Query c sql args (Ok result)])) as [rest [Htr Hr]].
    exists (Ok result), rest. rewrite Htr, <- app_assoc. auto.
  - exists (Throw e), []. auto.
Qed.

(** C8, as the code has it.  When the ORDER BY fragment does not compile,
    [then] throws before it touches any connection: nothing is sent, leased
    or released, bound or not.  Otherwise the clock is read when there is an
    argument list and the statement goes out: on the bound connection, with
    any follow-up lookup on that same connection and no lease or release at
    all; or, for an unbound builder, on the connection the pool grants, which
    is asked once and gets the connection back exactly once, as the last
    event, whatever the outcome; when the pool refuses, nothing was leased
    and nothing is released. *)
Theorem connection_discipline
  (rt : Runtime) (w : World) (models : list Model) (b : Builder)
  (tr : list event) :
  let evs := since tr (snd (then_ rt w models b tr)) in
  let clock :=
    match b_args b with Some _ => [Now (date_now w tr)] | None => [] end in
  match buildOrderByQuery rt (o_orderBy (b_opts b)) with
  | Throw e => fst (then_ rt w models b tr) = ThenThrew e /\ evs = []
  | Ok orderBy =>
      let sql := statement_text rt b orderBy in
      let args := statement_args w b tr in
      match o_client (b_opts b) with
      | Some c =>
          exists r rest,
            evs = clock ++ Query c sql args r :: rest
            /\ forallb (is_query_on c) rest = true
            /\ filter is_connect evs = []
            /\ filter is_release evs = []
      | None =>
          match pool_connect w (tr ++ clock) with
          | Ok c =>
              exists r rest,
                evs = clock ++ Connect (Ok c) :: Query c sql args r
                              :: rest ++ [Release c]
                /\ forallb (is_query_on c) rest = true
                /\ filter is_connect evs = [Connect (Ok c)]
                /\ filter is_release evs = [Release c]
          | Throw e => evs = clock ++ [Connect (Throw e)]
          end
      end
  end.
Proof.
  intros evs clock.
  assert (Hclock : forallb is_now clock = true)
    by apply forallb_is_now_clock.
  destruct (buildOrderByQuery rt (o_orderBy (b_opts b))) as [orderBy|e]
    eqn:Hob.
  - subst evs. rewrite (then_unfold rt w models b tr Hob). fold clock.
    destruct (o_client (b_opts b)) as [c|].
    + destruct (run_statement rt w models (b_opts b) c
                  (statement_text rt b orderBy) (statement_args w b tr)
                  (tr ++ clock)) as [r [rest [Hsnd Hrest]]].
      exists r, rest. cbn [snd]. rewrite Hsnd, <- app_assoc, since_app.
      assert (Hstmts : forallb (is_query_on c)
                (Query c (statement_text rt b orderBy)
                   (statement_args w b tr) r :: rest) = true).
      { cbn [forallb is_query_on]. now rewrite Nat.eqb_refl. }
      destruct (filter_pool_events c clock _ Hclock Hstmts) as [H1 H2].
      auto.
    + destruct (pool_connect w (tr ++ clock)) as [c|e].
      * destruct (run_statement rt w models (b_opts b) c
                    (statement_text rt b orderBy) (statement_args w b tr)
                    ((tr ++ clock) ++ [Connect (Ok c)]))
          as [r [rest [Hsnd Hrest]]].
        exists r, rest. cbn [snd].
        rewrite Hsnd, <- !app_assoc, since_app. cbn [app].
        assert (Hstmts : forallb (is_query_on c)
                  (Query c (statement_text rt b orderBy)
                     (statement_args w b tr) r :: rest) = true).
        { cbn [forallb is_query_on]. now rewrite Nat.eqb_refl. }
        destruct (leased_pool_events c (Ok c) clock _ Hclock Hstmts)
          as [H1 H2].
        cbn [app] in H1, H2. auto.
      * cbn [snd]. now rewrite <- app_assoc, since_app.
  - subst evs. unfold then_. rewrite Hob. cbn [fst snd]. split; [reflexivity|].
    unfold since. apply skipn_all.
Qed.

Lemma connection_discipline_witness :
  (filter is_connect
     (since [] (snd (then_ Fixtures.rt (Fixtures.answering [])
                       Fixtures.registry
                       (usingConnection 9 Fixtures.insert_alice) [])))
   = []
   /\ filter is_release
        (since [] (snd (then_ Fixtures.rt (Fixtures.answering [])
                          Fixtures.registry
                          (usingConnection 9 Fixtures.insert_alice) [])))
      = [])
  /\ filter is_release
       (since [] (snd (then_ Fixtures.rt
                         (Fixtures.failing Fixtures.unique_violation)
                         Fixtures.registry Fixtures.insert_alice [])))
     = [Release 7].
Proof.
  split.
  - destruct (connection_discipline Fixtures.rt (Fixtures.answering [])
                Fixtures.registry
                (usingConnection 9 Fixtures.insert_alice) [])
      as [r [rest [_ [_ [H1 H2]]]]].
    split; [exact H1 | exact H2].
  - destruct (connection_discipline Fixtures.rt
                (Fixtures.failing Fixtures.unique_violation)
                Fixtures.registry Fixtures.insert_alice [])
      as [r [rest [_ [_ [_ H]]]]].
    exact H.
Defined.

(** C8 as stated fails on an unbound builder whose sort specification does
    not compile: [create(...).sort('a b c')], forced, throws out of [then]
    without asking the pool for a connection, so nothing is leased and
    nothing released. *)
Lemma unbound_sort_error_leases_nothing :
  o_client (b_opts (sort (VStr "a b c") Fixtures.insert_alice)) = None
  /\ then_ Fixtures.rt (Fixtures.answering []) Fixtures.registry
       (sort (VStr "a b c") Fixtures.insert_alice) []
     = (ThenThrew
          (InvalidArgument
             ("Unexpected extras in ORDER BY clause: "
                +++ dquote +++ "a b c" +++ dquote)),
        []).
Proof.
  split; reflexivity.
Qed.

(** ** Timestamps *)

Lemma statements_no_clock_event (c : conn) (evs : list event) :
  forallb (is_query_on c) evs = true -> filter is_now evs = [].
Proof.
  induction evs as [|e evs IH]; simpl; auto.
  intros H. apply andb_prop in H. destruct H as [He Hevs].
  destruct e; simpl in *; try discriminate. auto.
Qed.

Lemma substitute_now_marker (t : Z) (args : list value) (i : nat) :
  nth_error args i = Some VNow ->
  nth_error (substitute_now t args) i = Some (VNum (Int t)).
Proof.
  intros H. unfold substitute_now. rewrite nth_error_map, H. reflexivity.
Qed.

Lemma substitute_now_other (t : Z) (args : list value) (i : nat) (v : value) :
  nth_error args i = Some v -> is_NOW v = false ->
  nth_error (substitute_now t args) i = Some v.
Proof.
  intros H Hv. unfold substitute_now. rewrite nth_error_map, H. simpl.
  now rewrite Hv.
Qed.

Lemma substitute_now_complete (t : Z) (args : list value) :
  ~ In VNow (substitute_now t args).
Proof.
  unfold substitute_now. intros Hin. apply in_map_iff in Hin.
  destruct Hin as [x [Hx _]]. destruct x; simpl in Hx; discriminate.
Qed.

Lemma buildValuesQuery_col_values (props : obj) (cols : list string)
  (values : list value) (q : list string) :
  fst (fold_left (buildValuesQuery_col props) cols (values, q))
  = values ++ map (get props) cols.
Proof.
  revert values q. induction cols as [|k cols IH]; intros values q; simpl.
  - now rewrite app_nil_r.
  - rewrite IH, <- app_assoc. reflexivity.
Qed.

Lemma buildValuesQuery_values (M : Model) (cols : list string) (props : obj)
  (values : list value) :
  snd (buildValuesQuery M cols props values)
  = values ++ map (get props) cols.
Proof.
  unfold buildValuesQuery.
  rewrite <- (buildValuesQuery_col_values props cols values []).
  now destruct (fold_left _ cols (values, [])).
Qed.

Lemma createEach_values_args (M : Model) (cols : list string)
  (propses : list obj) (values : list value) :
  snd (createEach_values M cols propses values)
  = values ++ List.concat (map (fun props => map (get props) cols) propses).
Proof.
  revert values. induction propses as [|props rest IH]; intros values; simpl.
  - now rewrite app_nil_r.
  - assert (H := buildValuesQuery_values M cols props values).
    destruct (buildValuesQuery M cols props values) as [q values'].
    simpl in H. subst values'.
    specialize (IH (values ++ map (get props) cols)).
    destruct (createEach_values M cols rest _) as [qs values''].
    simpl in *. now rewrite IH, app_assoc.
Qed.

(** The one statement of a multi-row create carries, row after row, each
    row's values for the columns of the first row. *)
Lemma createEach_args (rt : Runtime) (M : Model) (propses : list obj) :
  propses <> [] ->
  let rows := map (fun props => withDefaultValues M props true) propses in
  let cols := map fst (hd [] rows) in
  exists b,
    createEach rt M propses = RBuilder b
    /\ b_args b = Some (List.concat (map (fun p => map (get p) cols) rows))
    /\ o_orderBy (b_opts b) = VUndefined
    /\ o_client (b_opts b) = None.
Proof.
  intros Hne rows cols. unfold createEach. fold rows.
  destruct rows as [|first rest] eqn:Erows.
  - destruct propses; [contradiction|discriminate].
  - assert (H := createEach_values_args M (map fst first) (first :: rest) []).
    destruct (createEach_values M (map fst first) (first :: rest) [])
      as [qs values].
    simpl in H. subst values. eexists. repeat split.
Qed.

Lemma get_set_same (o : obj) k v : get (set o k v) k = v.
Proof.
  induction o as [|[k' v'] o IH]; simpl.
  - now rewrite String.eqb_refl.
  - destruct (k' =? k) eqn:E; simpl; rewrite E; auto.
Qed.

Lemma get_set_other (o : obj) k k' v :
  k <> k' -> get (set o k v) k' = get o k'.
Proof.
  intros Hne. induction o as [|[k0 v0] o IH]; simpl.
  - destruct (k =? k') eqn:E; auto. apply String.eqb_eq in E. contradiction.
  - destruct (k0 =? k) eqn:E; simpl.
    + apply String.eqb_eq in E. subst k0.
      destruct (k =? k') eqn:E'; auto.
      apply String.eqb_eq in E'. contradiction.
    + now rewrite IH.
Qed.

Lemma withDefaultValues_attr_other creating (props : obj) attr cfg a :
  attr <> a ->
  get (withDefaultValues_attr creating props (attr, cfg)) a = get props a.
Proof.
  intros Hne. unfold withDefaultValues_attr.
  repeat match goal with
         | |- context [if ?c then _ else _] => destruct c
         | |- context [match ?c with Some _ => _ | None => _ end] => destruct c
         end;
    rewrite ?get_set_other by assumption; reflexivity.
Qed.

Lemma withDefaultValues_attr_auto (props : obj) a cfg :
  autoCreatedAt cfg = true \/ autoUpdatedAt cfg = true ->
  defaultsTo cfg = VUndefined ->
  get props a = VUndefined ->
  get (withDefaultValues_attr true props (a, cfg)) a = VNow.
Proof.
  intros Hauto Hdef Hget. unfold withDefaultValues_attr.
  rewrite Hdef, Hget. simpl. rewrite Hget. simpl.
  destruct Hauto as [-> | ->]; [|destruct (autoCreatedAt cfg)];
    apply get_set_same.
Qed.

Lemma withDefaultValues_fold_other creating (l : attrs) (props : obj) a :
  ~ In a (map fst l) ->
  get (fold_left (withDefaultValues_attr creating) l props) a = get props a.
Proof.
  revert props. induction l as [|[attr cfg] l IH]; intros props Hn; simpl;
    auto.
  simpl in Hn. rewrite IH by tauto.
  apply withDefaultValues_attr_other. tauto.
Qed.

(** A created row gets the marker on every auto-timestamp attribute the
    caller left out. *)
Lemma withDefaultValues_auto (M : Model) (props : obj) a cfg :
  NoDup (map fst (attributes M)) ->
  In (a, cfg) (attributes M) ->
  autoCreatedAt cfg = true \/ autoUpdatedAt cfg = true ->
  defaultsTo cfg = VUndefined ->
  get props a = VUndefined ->
  get (withDefaultValues M props true) a = VNow.
Proof.
  unfold withDefaultValues. revert props.
  induction (attributes M) as [|[attr cfg'] l IH];
    intros props Hnd Hin Hauto Hdef Hget;
    cbn [fold_left map fst In] in *; [contradiction|].
  inversion Hnd as [|? ? Hnotin Hnd']; subst.
  destruct Hin as [Heq | Hin].
  - inversion Heq; subst.
    rewrite withDefaultValues_fold_other by assumption.
    now apply withDefaultValues_attr_auto.
  - apply IH; auto.
    rewrite withDefaultValues_attr_other; auto.
    intros ->. apply Hnotin. apply (in_map fst) in Hin. exact Hin.
Qed.

(** One clock reading per forced statement, substituted for every
    marker. *)
Lemma then_substitutes_now
  (rt : Runtime) (w : World) (models : list Model) (b : Builder)
  (tr : list event) (args : list value) (orderBy : string) :
  b_args b = Some args ->
  buildOrderByQuery rt (o_orderBy (b_opts b)) = Ok orderBy ->
  (o_client (b_opts b) <> None
   \/ exists c, pool_connect w (tr ++ [Now (date_now w tr)]) = Ok c) ->
  let t := date_now w tr in
  let evs := since tr (snd (then_ rt w models b tr)) in
  filter is_now evs = [Now t]
  /\ first_statement_args evs = Some (Some (substitute_now t args)).
Proof.
  intros Hargs Hob Hconn t evs.
  destruct (then_trace rt w models b tr Hob) as [sql H].
  fold evs in H. rewrite Hargs in H. cbn [option_map] in H. fold t in H.
  destruct (o_client (b_opts b)) as [c|].
  - destruct H as [r [rest [-> Hrest]]]. simpl.
    now rewrite (statements_no_clock_event c rest Hrest).
  - destruct Hconn as [Hc|[c Hc]]; [contradiction|].
    fold t in Hc. rewrite Hc in H.
    destruct H as [r [rest [-> Hrest]]]. simpl.
    rewrite filter_app, (statements_no_clock_event c rest Hrest).
    split; reflexivity.
Qed.

(** C3.  When a builder with an argument list is forced and its statement
    goes out (on the bound connection, or on one the pool grants), the clock
    is read exactly once and the statement's arguments are the builder's
    with every PendingTimestamp marker replaced by that one reading: all
    markers of the statement resolve to the same timestamp, and every other
    argument is sent unchanged.  A multi-row create is one such statement:
    it carries each row's values for the first row's columns, a row holds
    the marker on every auto-timestamp attribute the caller left out, and
    every marker of every row is sent as the one reading.  Two statements,
    though bound to the same connection, read the clock separately and may
    resolve their markers to different timestamps. *)
Theorem one_timestamp_per_statement :
  (forall (rt : Runtime) (w : World) (models : list Model) (b : Builder)
          (tr : list event) (args : list value) (orderBy : string),
     b_args b = Some args ->
     buildOrderByQuery rt (o_orderBy (b_opts b)) = Ok orderBy ->
     (o_client (b_opts b) <> None
      \/ exists c, pool_connect w (tr ++ [Now (date_now w tr)]) = Ok c) ->
     let t := date_now w tr in
     let evs := since tr (snd (then_ rt w models b tr)) in
     filter is_now evs = [Now t]
     /\ first_statement_args evs = Some (Some (substitute_now t args))
     /\ (forall i, nth_error args i = Some VNow ->
           nth_error (substitute_now t args) i = Some (VNum (Int t)))
     /\ (forall i v, nth_error args i = Some v -> is_NOW v = false ->
           nth_error (substitute_now t args) i = Some v)
     /\ ~ In VNow (substitute_now t args))
  /\ (forall (rt : Runtime) (w : World) (models : list Model) (M : Model)
             (propses : list obj) (tr : list event) (c : conn),
        propses <> [] ->
        let rows := map (fun props => withDefaultValues M props true) propses in
        let cols := map fst (hd [] rows) in
        let t := date_now w tr in
        (exists b,
           createEach rt M propses = RBuilder b
           /\ first_statement_args
                (since tr (snd (then_ rt w models (usingConnection c b) tr)))
              = Some (Some (List.concat
                  (map (fun row =>
                          map (fun k => if is_NOW (get row k)
                                        then VNum (Int t) else get row k)
                              cols)
                       rows))))
        /\ (forall props a cfg,
              NoDup (map fst (attributes M)) ->
              In (a, cfg) (attributes M) ->
              autoCreatedAt cfg = true \/ autoUpdatedAt cfg = true ->
              defaultsTo cfg = VUndefined ->
              get props a = VUndefined ->
              get (withDefaultValues M props true) a = VNow))
  /\ (exists (w : World) (c : conn) (t1 t2 : Z),
        let b := usingConnection c Fixtures.audit_alice in
        let began :=
          [Connect (Ok c);
           Query c "BEGIN" None (Ok {| rows := []; rowCount := 0 |})] in
        let run1 := then_ Fixtures.rt w Fixtures.registry b began in
        let run2 := then_ Fixtures.rt w Fixtures.registry b (snd run1) in
        option_map (fun a => nth_error a 2) (b_args b) = Some (Some VNow)
        /\ first_statement_args (since began (snd run1))
           = Some (Some [VStr "alice"; VNum (Int 0); VNum (Int t1);
                         VNum (Int t1); VNum (Int t1); VNum (Int t1)])
        /\ first_statement_args (since (snd run1) (snd run2))
           = Some (Some [VStr "alice"; VNum (Int 0); VNum (Int t2);
                         VNum (Int t2); VNum (Int t2); VNum (Int t2)])
        /\ t1 <> t2).
Proof.
  split; [|split].
  - intros rt w models b tr args orderBy Hargs Hob Hconn t evs.
    destruct (@then_substitutes_now rt w models b tr args orderBy
                Hargs Hob Hconn) as [H1 H2].
    repeat split; auto.
    + intros i. apply substitute_now_marker.
    + intros i v. apply substitute_now_other.
    + apply substitute_now_complete.
  - intros rt w models M propses tr c Hne rows cols t. split.
    + destruct (@createEach_args rt M propses Hne)
        as [b [Hb [Hargs [Hob Hclient]]]].
      exists b. split; [exact Hb|].
      assert (Hconn :
        o_client (b_opts (usingConnection c b)) <> None
        \/ exists c', pool_connect w (tr ++ [Now (date_now w tr)]) = Ok c').
      { left. discriminate. }
      assert (Hob' : buildOrderByQuery rt
                       (o_orderBy (b_opts (usingConnection c b)))
                     = Ok EmptyString).
      { simpl. rewrite Hob. reflexivity. }
      destruct (@then_substitutes_now rt w models (usingConnection c b) tr
                  _ _ Hargs Hob' Hconn) as [_ H].
      rewrite H. unfold substitute_now.
      rewrite concat_map, map_map. do 3 f_equal.
      apply map_ext. intros row. now rewrite map_map.
    + intros props a cfg. apply withDefaultValues_auto.
  - exists (Fixtures.answering []), 9%nat, 2%Z, 4%Z.
    repeat split. discriminate.
Qed.

Lemma one_timestamp_per_statement_witness :
  let b := usingConnection 9 Fixtures.audit_alice in
  let evs := since [] (snd (then_ Fixtures.rt (Fixtures.answering [])
                              Fixtures.registry b [])) in
  filter is_now evs = [Now 0]
  /\ first_statement_args evs
     = Some (Some [VStr "alice"; VNum (Int 0); VNum (Int 0);
                   VNum (Int 0); VNum (Int 0); VNum (Int 0)]).
Proof.
  assert (Hconn :
    o_client (b_opts (usingConnection 9 Fixtures.audit_alice)) <> None
    \/ exists c, pool_connect (Fixtures.answering [])
                   ([] ++ [Now (date_now (Fixtures.answering []) [])]) = Ok c).
  { left. discriminate. }
  destruct (proj1 one_timestamp_per_statement Fixtures.rt
              (Fixtures.answering []) Fixtures.registry
              (usingConnection 9 Fixtures.audit_alice) []
              [VStr "alice"; VNum (Int 0); VNow; VNow; VNow; VNow]
              EmptyString eq_refl eq_refl Hconn)
    as [H1 [H2 _]].
  split; [exact H1 | exact H2].
Defined.

(** ** Error interception *)

Lemma intercept_registers (h : handler) (b : Builder) :
  handler_get (o_intercepters (b_opts (intercept "E_UNIQUE" h b))) "23505"
  = Some h.
Proof.
  unfold intercept, with_opts. simpl.
  induction (o_intercepters (b_opts b)) as [|[k h'] l IH]; simpl; auto.
  destruct (k =? "23505") eqn:E; simpl; rewrite E; auto.
Qed.

Lemma intercept_unknown_kind (kind : string) (h : handler) (b : Builder) :
  (kind =? "E_UNIQUE") = false -> intercept kind h b = b.
Proof.
  intros Hk. unfold intercept, with_opts, getErrorCodesFor. rewrite Hk.
  destruct b as [sql args []]. reflexivity.
Qed.


(** The [catch] block, case by case. *)
Lemma on_error_cases (o : Opts) (err : exn) :
  on_error o err
  = match handler_get (o_intercepters o) (err_code err) with
    | Some (HFun f) =>
        match f err with
        | Ok r => Rejected r
        | Throw e => ThenThrew e
        end
    | Some (HVal v) =>
        if truthy v then
          match v with
          | VStr s => Rejected (RejVal (VStr s))
          | _ => ThenThrew NotImplemented
          end
        else Rejected (RejErr err)
    | None =>
        if err_code err =? "constructor" then Rejected (RejErr err)
        else if err_code err =? "toString"
        then Rejected (RejVal (VStr "[object Undefined]"))
        else if err_code err =? "__proto__" then ThenThrew NotImplemented
        else if inherited (err_code err) then ThenThrew this_undefined
        else Rejected (RejErr err)
    end.
Proof.
  unfold on_error, intercepter_at.
  destruct (handler_get (o_intercepters o) (err_code err)) as [[f|v]|].
  - reflexivity.
  - destruct (truthy v); cbn [negb]; [now destruct v | reflexivity].
  - unfold inherited_handler.
    destruct (err_code err =? "constructor"); [reflexivity|].
    destruct (err_code err =? "toString"); [reflexivity|].
    destruct (err_code err =? "__proto__"); [reflexivity|].
    destruct (inherited (err_code err)); reflexivity.
Qed.

(** C7, as the code has it.  Whatever fails inside the [try] block of
    [then] (the lease, the statement, the casting of its rows, the populate
    lookup) with error [err], what [opts.intercepters[err.code]] reads
    decides.  A registered function: the value it returns on the error is
    the rejection value, and when it throws, [then] throws.  A registered
    falsy value (the empty string, 0, null, undefined, false): the original
    error is the rejection value.  A registered non-empty string: it is the
    rejection value verbatim.  Any other registered value (a number, true, an
    array, an object): [then] throws NotImplemented.  Nothing registered:
    the original error is the rejection value, unless the code names a
    member of [Object.prototype], which the lookup then finds: [constructor]
    rejects with the error, [toString] rejects with ['[object Undefined]'],
    [__proto__] throws NotImplemented, the other methods throw a TypeError.
    When [then] throws, neither callback is called: the awaiting caller
    never sees the builder settle.  [intercept('E_UNIQUE', h)] stores [h]
    under code 23505, and [intercept] with any other kind stores nothing. *)
Theorem interceptor_dispatch
  (rt : Runtime) (w : World) (models : list Model) (b : Builder)
  (tr : list event) (orderBy : string) :
  buildOrderByQuery rt (o_orderBy (b_opts b)) = Ok orderBy ->
  let clock :=
    match b_args b with Some _ => [Now (date_now w tr)] | None => [] end in
  fst (then_ rt w models b tr)
  = match fst (try_block rt w models (b_opts b) (statement_text rt b orderBy)
                 (statement_args w b tr) (tr ++ clock)) with
    | Ok res => Resolved res
    | Throw err =>
        match handler_get (o_intercepters (b_opts b)) (err_code err) with
        | Some (HFun f) =>
            match f err with
            | Ok r => Rejected r
            | Throw e => ThenThrew e
            end
        | Some (HVal v) =>
            if truthy v then
              match v with
              | VStr s => Rejected (RejVal (VStr s))
              | _ => ThenThrew NotImplemented
              end
            else Rejected (RejErr err)
        | None =>
            if err_code err =? "constructor" then Rejected (RejErr err)
            else if err_code err =? "toString"
            then Rejected (RejVal (VStr "[object Undefined]"))
            else if err_code err =? "__proto__"
            then ThenThrew NotImplemented
            else if inherited (err_code err) then ThenThrew this_undefined
            else Rejected (RejErr err)
        end
    end
  /\ (forall e, fst (then_ rt w models b tr) = ThenThrew e ->
        settled (fst (then_ rt w models b tr)) = Pending)
  /\ (forall h b', handler_get
                     (o_intercepters (b_opts (intercept "E_UNIQUE" h b')))
                     "23505" = Some h)
  /\ (forall kind h b', (kind =? "E_UNIQUE") = false ->
                        intercept kind h b' = b').
Proof.
  intros Hob clock. split; [|split; [|split]].
  - rewrite (then_attempt rt w models b tr Hob). fold clock.
    destruct (fst (try_block rt w models (b_opts b) _ _ (tr ++ clock)))
      as [res|err]; [reflexivity|].
    apply on_error_cases.
  - intros e He. now rewrite He.
  - apply intercept_registers.
  - apply intercept_unknown_kind.
Qed.

Lemma interceptor_dispatch_witness :
  fst (then_ Fixtures.rt (Fixtures.failing Fixtures.unique_violation)
         Fixtures.registry
         (intercept "E_UNIQUE" (HVal (VStr "emailAlreadyInUse"))
            Fixtures.insert_alice) [])
  = Rejected (RejVal (VStr "emailAlreadyInUse")).
Proof.
  exact (proj1 (@interceptor_dispatch Fixtures.rt
                  (Fixtures.failing Fixtures.unique_violation)
                  Fixtures.registry
                  (intercept "E_UNIQUE" (HVal (VStr "emailAlreadyInUse"))
                     Fixtures.insert_alice)
                  [] EmptyString eq_refl)).
Defined.

(** C7 as stated fails.  On literal handlers that are not non-empty
    strings: with the empty string registered, the original error is the
    rejection value, not the empty string; with the number 42 registered,
    [then] throws instead of rejecting with 42.  And with no handler
    registered at all: a failure whose code is [toString] is rejected with
    ['[object Undefined]'], not with the original error, and one whose code
    is [valueOf] makes [then] throw. *)
Lemma literal_handler_not_verbatim :
  fst (then_ Fixtures.rt (Fixtures.failing Fixtures.unique_violation)
         Fixtures.registry
         (intercept "E_UNIQUE" (HVal (VStr EmptyString))
            Fixtures.insert_alice) [])
  = Rejected (RejErr Fixtures.unique_violation)
  /\ fst (then_ Fixtures.rt (Fixtures.failing Fixtures.unique_violation)
            Fixtures.registry
            (intercept "E_UNIQUE" (HVal (VNum (Int 42)))
               Fixtures.insert_alice) [])
     = ThenThrew NotImplemented
  /\ fst (then_ Fixtures.rt
            (Fixtures.failing (NativeError "toString" "storage error"))
            Fixtures.registry Fixtures.insert_alice [])
     = Rejected (RejVal (VStr "[object Undefined]"))
  /\ fst (then_ Fixtures.rt
            (Fixtures.failing (NativeError "valueOf" "storage error"))
            Fixtures.registry Fixtures.insert_alice [])
     = ThenThrew this_undefined.
Proof.
  repeat split.
Qed.

(** ** Population *)

Lemma zero_of_not_no_key t z : zero_of t = Some z -> no_key z = false.
Proof.
  unfold zero_of. destruct t as [t|]; [|discriminate].
  destruct (t =? "string"); [intros H; inversion H; reflexivity|].
  destruct (t =? "number"); [intros H; inversion H; reflexivity|].
  destruct (t =? "boolean"); [intros H; inversion H; reflexivity|].
  discriminate.
Qed.

Lemma has_id_set (row : obj) k z :
  has_id row = true -> no_key z = false -> has_id (set row k z) = true.
Proof.
  unfold has_id. intros Hrow Hz.
  destruct (String.eqb k "id") eqn:E.
  - apply String.eqb_eq in E. subst k. now rewrite get_set_same, Hz.
  - rewrite get_set_other; auto. intros ->. now rewrite String.eqb_refl in E.
Qed.

Lemma has_id_set_other (row : obj) k z :
  k <> "id" -> has_id (set row k z) = has_id row.
Proof.
  intros Hk. unfold has_id. now rewrite get_set_other.
Qed.

Lemma withTimestampsCast_has_id (rt : Runtime) (row : obj) :
  has_id (withTimestampsCast rt row) = has_id row.
Proof.
  unfold withTimestampsCast.
  destruct (truthy (get row "created_at"));
    [ destruct (truthy (get (set row "created_at" _) "updated_at"))
    | destruct (truthy (get row "updated_at")) ];
    rewrite ?has_id_set_other by discriminate; reflexivity.
Qed.

Lemma cast_entry_has_id (rt : Runtime) (M : Model) (row row' : obj) kv :
  cast_entry M row kv = Ok row' -> has_id row = true -> has_id row' = true.
Proof.
  unfold cast_entry. destruct kv as [k v].
  destruct (is_undefined v || is_null v); [|intros H; now inversion H].
  destruct (attributes_at M k) as [cfg|]; [|discriminate].
  destruct (negb (allowNull cfg)); [|intros H; now inversion H].
  destruct (zero_of (type cfg)) as [z|] eqn:Ez; intros H; inversion H; auto.
  subst. intros Hrow. apply has_id_set; auto.
  now apply zero_of_not_no_key with (t := type cfg).
Qed.

Lemma forEach_cast_entry_has_id (rt : Runtime) (M : Model)
  (es : obj) (row row' : obj) :
  forEachM (cast_entry M) es row = Ok row' ->
  has_id row = true -> has_id row' = true.
Proof.
  revert row. induction es as [|kv es IH]; intros row; simpl.
  - intros H; now inversion H.
  - destruct (cast_entry M row kv) as [row1|e] eqn:E; simpl; [|discriminate].
    intros H Hrow. apply (IH row1); auto.
    now apply (cast_entry_has_id rt M row kv).
Qed.

Lemma castRow_has_id (rt : Runtime) (M : Model) (row row' : obj) :
  castRow rt (Some M) row = Ok row' ->
  has_id row = true -> has_id row' = true.
Proof.
  unfold castRow, withSelectedValuesCast.
  destruct (forEachM (cast_entry M) (withTimestampsCast rt row)
              (withTimestampsCast rt row)) as [r|e] eqn:E; simpl;
    [|discriminate].
  intros H Hrow. inversion H; subst.
  apply (forEach_cast_entry_has_id rt M _ _ E).
  now rewrite withTimestampsCast_has_id.
Qed.

Lemma find_index_no_key (p : string) (r : obj) (store : list obj) :
  no_key (get r p) = true ->
  forallb has_id store = true ->
  find_index (fun row => strict_eq (get r p) (get row "id")) store = None.
Proof.
  intros Hr. induction store as [|row store IH]; simpl; auto.
  intros H. apply andb_prop in H. destruct H as [Hrow Hstore].
  rewrite IH by assumption.
  unfold has_id in Hrow.
  destruct (get r p); try discriminate;
    destruct (get row "id"); try discriminate; reflexivity.
Qed.

Lemma find_index_valid {A} (f : A -> bool) (xs : list A) j :
  find_index f xs = Some j -> (j < List.length xs)%nat.
Proof.
  revert j. induction xs as [|x xs IH]; intros j; simpl; [discriminate|].
  destruct (f x).
  - intros H; inversion H. lia.
  - destruct (find_index f xs) as [j'|]; [|discriminate].
    intros H; inversion H. specialize (IH j' eq_refl). lia.
Qed.

Lemma forallb_replace_nth {A} (f : A -> bool) j a (xs : list A) :
  forallb f xs = true -> f a = true ->
  forallb f (replace_nth j a xs) = true.
Proof.
  revert j. induction xs as [|x xs IH]; intros j; simpl; auto.
  intros H Ha. apply andb_prop in H. destruct H as [Hx Hxs].
  destruct j; simpl.
  - now rewrite Ha.
  - now rewrite Hx, IH.
Qed.

Lemma forallb_nth {A} (f : A -> bool) (xs : list A) j d :
  forallb f xs = true -> (j < List.length xs)%nat -> f (nth j xs d) = true.
Proof.
  intros H Hj. rewrite forallb_forall in H. apply H. now apply nth_In.
Qed.

(** Records without a key find no related row, whatever happens to the
    others. *)
Lemma populate_each_no_key (rt : Runtime) (pm : Model) (p : string)
  (ret : list obj) (store : list obj) out store' :
  forallb has_id store = true ->
  populate_each rt pm p ret store = Ok (out, store') ->
  forall i r, nth_error ret i = Some r -> no_key (get r p) = true ->
              nth_error out i = Some (r, None).
Proof.
  revert store out store'.
  induction ret as [|r0 ret IH]; intros store out store' Hstore Hrun i r Hi Hr.
  - destruct i; discriminate.
  - simpl in Hrun.
    destruct (find_index _ store) as [j|] eqn:Ej.
    + destruct (castRow rt (Some pm) (nth j store [])) as [row'|e] eqn:Ec;
        simpl in Hrun; [|discriminate].
      assert (Hstore1 : forallb has_id (replace_nth j row' store) = true).
      { apply forallb_replace_nth; auto.
        apply (castRow_has_id rt pm _ Ec).
        apply forallb_nth; auto. now apply find_index_valid in Ej. }
      destruct (populate_each rt pm p ret (replace_nth j row' store))
        as [[out1 store1]|e] eqn:Erest; simpl in Hrun; [|discriminate].
      inversion Hrun; subst.
      destruct i as [|i]; simpl in *.
      * inversion Hi; subst.
        rewrite find_index_no_key in Ej by assumption. discriminate.
      * apply (IH _ _ _ Hstore1 Erest i r Hi Hr).
    + destruct (populate_each rt pm p ret store)
        as [[out1 store1]|e] eqn:Erest; simpl in Hrun; [|discriminate].
      inversion Hrun; subst.
      destruct i as [|i]; simpl in *.
      * now inversion Hi.
      * apply (IH _ _ _ Hstore Erest i r Hi Hr).
Qed.

Lemma populate_each_all_no_key (rt : Runtime) (pm : Model) (p : string)
  (ret : list obj) (store : list obj) :
  forallb has_id store = true ->
  forallb (fun r => no_key (get r p)) ret = true ->
  populate_each rt pm p ret store
  = Ok (map (fun r => (r, None)) ret, store).
Proof.
  intros Hstore. induction ret as [|r ret IH]; simpl; auto.
  intros H. apply andb_prop in H. destruct H as [Hr Hret].
  rewrite find_index_no_key, IH by assumption. reflexivity.
Qed.

(** C2, as the code has it.  [shape] is what [then] does with the result of
    its statement.  In single-row mode with a result row, the follow-up
    equality lookup on the target table is always sent, with the row's
    foreign-key value whatever it is (null and absent included), and the
    populated field becomes the cast first row of the lookup's answer:
    absent exactly when the lookup returns no row.  In multi-row mode the
    follow-up membership lookup is sent with the foreign-key values of all
    result rows, in row order, nulls and repetitions included; when no
    looked-up row has a null or absent id, a record whose foreign key is
    null or absent gets an absent populated value, and a result whose
    foreign keys are all null or absent resolves without error. *)
Theorem populate_follow_up :
  (forall (rt : Runtime) (w : World) (models : list Model) (o : Opts)
          (c : conn) (result : QueryResult) (tr : list event)
          (p : string) (pm : Model) (r : obj),
     (o_returnSingleRow o || (o_fetch o && o_single o)) = true ->
     populate_of o = Some p ->
     populateModel_of rt models o p = Ok pm ->
     withSelectedValuesCast rt (o_Model o) (hd_error (rows result))
     = Ok (Some r) ->
     let sql :=
       "SELECT * FROM " +++ esc_table rt (tableName pm) +++ " WHERE id=$1" in
     let res := client_query w tr c sql (Some [get r p]) in
     let run := shape rt w models o c result tr in
     snd run = tr ++ [Query c sql (Some [get r p]) res]
     /\ fst run
        = (qr <- res ;;
           prow <- withSelectedValuesCast rt (Some pm) (hd_error (rows qr)) ;;
           Ok (Single (Some (set r p (populated prow)))))
     /\ (forall qr, res = Ok qr -> rows qr = [] ->
           fst run = Ok (Single (Some (set r p VUndefined)))))
  /\ (forall (rt : Runtime) (w : World) (models : list Model) (o : Opts)
             (c : conn) (result : QueryResult) (tr : list event)
             (p : string) (pm : Model) (ret : list obj),
        (o_returnSingleRow o || (o_fetch o && o_single o)) = false ->
        (o_returnRows o || o_fetch o) = true ->
        populate_of o = Some p ->
        populateModel_of rt models o p = Ok pm ->
        mapM (castRow rt (o_Model o)) (rows result) = Ok ret ->
        let sql :=
          "SELECT * FROM " +++ esc_table rt (tableName pm)
            +++ " WHERE id=ANY($1)" in
        let ids := map (fun r => get r p) ret in
        let res := client_query w tr c sql (Some [VArr ids]) in
        let run := shape rt w models o c result tr in
        snd run = tr ++ [Query c sql (Some [VArr ids]) res]
        /\ (forall qr, res = Ok qr -> forallb has_id (rows qr) = true ->
              (forall merged, fst run = Ok (Rows merged) ->
                 forall i r, nth_error ret i = Some r ->
                             no_key (get r p) = true ->
                             nth_error merged i = Some (set r p VUndefined))
              /\ (forallb (fun r => no_key (get r p)) ret = true ->
                  fst run
                  = Ok (Rows (map (fun r => set r p VUndefined) ret))))).
Proof.
  split.
  - intros rt w models o c result tr p pm r Hmode Hpop Hpm Hcast sql res run.
    subst run res. unfold shape. rewrite Hmode.
    unfold then_single, ebind, lift, query, eret.
    rewrite Hcast, Hpop, Hpm. fold sql.
    destruct (client_query w tr c sql (Some [get r p])) as [qr|e];
      cbn [bind fst snd].
    + destruct (withSelectedValuesCast rt (Some pm) (hd_error (rows qr)))
        as [prow|e] eqn:Ep; cbn [bind fst snd]; (split; [|split]); auto.
      * intros qr' Hqr Hrows. inversion Hqr; subst qr'.
        rewrite Hrows in Ep. simpl in Ep. inversion Ep. reflexivity.
      * intros qr' Hqr Hrows. inversion Hqr; subst qr'.
        rewrite Hrows in Ep. simpl in Ep. discriminate.
    + (split; [|split]); auto. intros qr Hqr. discriminate.
  - intros rt w models o c result tr p pm ret Hsingle Hmode Hpop Hpm Hcast
      sql ids res run.
    subst run res. unfold shape. rewrite Hsingle, Hmode.
    unfold then_rows, ebind, lift, query, eret.
    rewrite Hcast, Hpop, Hpm. fold ids. fold sql.
    destruct (client_query w tr c sql (Some [VArr ids])) as [qr|e];
      cbn [bind fst snd].
    + unfold populate_merge.
      destruct (populate_each rt pm p ret (rows qr)) as [[out store]|e]
        eqn:Eeach; cbn [bind fst snd].
      * split; auto. intros qr' Hqr Hids. inversion Hqr; subst qr'. split.
        -- intros merged Hm i r Hi Hr. inversion Hm; subst merged.
           rewrite nth_error_map.
           rewrite (populate_each_no_key rt pm p ret (rows qr) Hids Eeach
                      i Hi Hr).
           reflexivity.
        -- intros Hall.
           rewrite populate_each_all_no_key in Eeach by assumption.
           inversion Eeach; subst. now rewrite map_map.
      * split; auto. intros qr' Hqr Hids. inversion Hqr; subst qr'. split.
        -- intros merged Hm. discriminate.
        -- intros Hall.
           rewrite populate_each_all_no_key in Eeach by assumption.
           discriminate.
    + split; auto. intros qr Hqr. discriminate.
Qed.

Lemma populate_follow_up_witness :
  fst (shape Fixtures.rt (Fixtures.answering []) Fixtures.registry
         (b_opts Fixtures.find_owner_3) 7
         {| rows := [Fixtures.owns_nothing]; rowCount := 1 |} [])
  = Ok (Single (Some [("id", Fixtures.num 3);
                      ("name", VStr "owns_nothing");
                      ("my_simple", VUndefined)]))
  /\ fst (shape Fixtures.rt (Fixtures.answering []) Fixtures.registry
            (b_opts Fixtures.find_owners) 7
            {| rows := [Fixtures.owns_nothing; Fixtures.owns_nothing];
               rowCount := 2 |} [])
     = Ok (Rows [[("id", Fixtures.num 3); ("name", VStr "owns_nothing");
                  ("my_simple", VUndefined)];
                 [("id", Fixtures.num 3); ("name", VStr "owns_nothing");
                  ("my_simple", VUndefined)]]).
Proof.
  split.
  - apply (proj2 (proj2 (proj1 populate_follow_up
             Fixtures.rt (Fixtures.answering []) Fixtures.registry
             (b_opts Fixtures.find_owner_3) 7%nat
             {| rows := [Fixtures.owns_nothing]; rowCount := 1 |} []
             "my_simple" Fixtures.Simple Fixtures.owns_nothing
             eq_refl eq_refl eq_refl eq_refl))
           {| rows := []; rowCount := 0 |} eq_refl eq_refl).
  - apply (proj2 (proj2 (proj2 populate_follow_up
             Fixtures.rt (Fixtures.answering []) Fixtures.registry
             (b_opts Fixtures.find_owners) 7%nat
             {| rows := [Fixtures.owns_nothing; Fixtures.owns_nothing];
                rowCount := 2 |} []
             "my_simple" Fixtures.Simple
             [Fixtures.owns_nothing; Fixtures.owns_nothing]
             eq_refl eq_refl eq_refl eq_refl eq_refl)
           {| rows := []; rowCount := 0 |} eq_refl eq_refl) eq_refl).
Defined.

(** C2 as stated fails.  Single-row mode: for the row [owns_nothing], whose
    foreign key is null, the follow-up lookup is sent all the same, with
    null as its argument.  Multi-row mode: the membership lookup is sent
    with the foreign keys 1, 1, null as they come, not with the one distinct
    non-null key. *)
Lemma populate_looks_up_null_keys :
  nth_error
    (statements
       (since [] (snd (then_ Fixtures.rt
                         (Fixtures.answering_then [Fixtures.owns_nothing] [])
                         Fixtures.registry Fixtures.find_owner_3 []))))
    1
  = Some ("SELECT * FROM simple WHERE id=$1", Some [VNull])
  /\ nth_error
       (statements
          (since [] (snd (then_ Fixtures.rt
                            (Fixtures.answering_then
                               [Fixtures.alice_owner;
                                Fixtures.second_alice_owner;
                                Fixtures.owns_nothing]
                               [Fixtures.alice])
                            Fixtures.registry Fixtures.find_owners []))))
       1
     = Some ("SELECT * FROM simple WHERE id=ANY($1)",
             Some [VArr [Fixtures.num 1; Fixtures.num 1; VNull]]).
Proof.
  split; reflexivity.
Qed.

(* ------------------------------------------------------------------ *)
(** * Further properties of the code *)

(** ** Criteria: what [buildWhereQuery] does to the argument list *)

Lemma buildWhereQuery_object (rt : Runtime) (criteria : value)
  (args : list value) :
  truthy criteria = true -> typeof_object criteria = true ->
  buildWhereQuery rt criteria args
  = Spec.compileWhere rt (entries criteria) args.
Proof.
  intros Ht Ho. unfold buildWhereQuery, Spec.compileWhere.
  rewrite Ht, Ho. cbn [negb].
  rewrite forEach_where_entry_spec by reflexivity.
  cbn [w_args w_wher app].
  destruct (Spec.clauses rt (entries criteria) args) as [[texts args']|e];
    simpl; auto.
Qed.

Lemma operator_clause_params col op val n text params :
  Spec.operator_clause col op val n = Ok (text, params) ->
  (List.length params <= 1)%nat.
Proof.
  unfold Spec.operator_clause.
  destruct (op =? "!=").
  - destruct val; intros H; inversion H; simpl; lia.
  - destruct (existsb _ _); intros H; inversion H; simpl; lia.
Qed.

Lemma clause_params (rt : Runtime) k v n text params :
  Spec.clause rt k v n = Ok (text, params) -> (List.length params <= 1)%nat.
Proof.
  unfold Spec.clause.
  destruct v as [| |b|x|s|xs|props|];
    try (intros H; inversion H; simpl; lia).
  - cbn [entries]. destruct props as [|[op val] [|kv props]];
      try discriminate.
    apply operator_clause_params.
Qed.

Lemma clauses_append (rt : Runtime) (es : obj) (args : list value)
  texts args' :
  Spec.clauses rt es args = Ok (texts, args') ->
  exists params,
    args' = args ++ params
    /\ (List.length params <= List.length es)%nat
    /\ List.length texts = List.length es.
Proof.
  revert args texts args'.
  induction es as [|[k v] es IH]; intros args texts args'; simpl.
  - intros H. inversion H. exists []. now rewrite app_nil_r.
  - destruct (Spec.clause rt k v (S (List.length args)))
      as [[text params]|e] eqn:Ec; simpl; [|discriminate].
    destruct (Spec.clauses rt es (args ++ params))
      as [[texts1 args1]|e] eqn:Er; simpl; [|discriminate].
    intros H. inversion H; subst.
    destruct (IH _ _ _ Er) as [params1 [-> [Hlen Htexts]]].
    apply clause_params in Ec.
    exists (params ++ params1). rewrite app_assoc, length_app. simpl.
    repeat split; auto; lia.
Qed.

(** X1.  Whatever the criteria (absent, scalar, sequence or mapping), a
    [buildWhereQuery] that succeeds keeps the arguments accumulated so far,
    in place, and only appends to them: at most one new argument per key of
    the criteria, exactly the criteria itself for a scalar, and none at all
    when it emits no WHERE clause. *)
Theorem buildWhereQuery_appends
  (rt : Runtime) (criteria : value) (args : list value)
  (frag : string) (args' : list value) :
  buildWhereQuery rt criteria args = Ok (frag, args') ->
  exists params,
    args' = args ++ params
    /\ (frag = EmptyString -> params = [])
    /\ (typeof_object criteria = true ->
        (List.length params <= List.length (entries criteria))%nat)
    /\ (truthy criteria = true -> typeof_object criteria = false ->
        params = [criteria]).
Proof.
  intros H.
  destruct (truthy criteria) eqn:Ht.
  - destruct (typeof_object criteria) eqn:Ho.
    + rewrite buildWhereQuery_object in H by assumption.
      unfold Spec.compileWhere in H.
      destruct (Spec.clauses rt (entries criteria) args)
        as [[texts args1]|e] eqn:Ec; simpl in H; [|discriminate].
      destruct (clauses_append rt _ _ Ec) as [params [-> [Hlen Htexts]]].
      exists params. destruct texts as [|t texts].
      * inversion H; subst. repeat split; auto; try discriminate.
        intros _. destruct (entries criteria); [|discriminate].
        destruct params; auto. simpl in Hlen. lia.
      * inversion H; subst. repeat split; auto; discriminate.
    + unfold buildWhereQuery in H. rewrite Ht, Ho in H. simpl in H.
      inversion H; subst. exists [criteria].
      repeat split; auto; discriminate.
  - unfold buildWhereQuery in H. rewrite Ht in H. simpl in H.
    inversion H; subst. exists []. rewrite app_nil_r.
    repeat split; auto; try discriminate. intros _. simpl. lia.
Qed.

Lemma buildWhereQuery_appends_witness :
  exists params,
    [VStr "charlie"; VArr [Fixtures.num 1; Fixtures.num 2]]
    = [VStr "charlie"] ++ params.
Proof.
  assert (H : buildWhereQuery Fixtures.rt
                (VObj [("id", VArr [Fixtures.num 1; Fixtures.num 2])])
                [VStr "charlie"]
              = Ok ("WHERE id=ANY($2)",
                    [VStr "charlie"; VArr [Fixtures.num 1; Fixtures.num 2]]))
    by reflexivity.
  destruct (@buildWhereQuery_appends Fixtures.rt _ _ _ _ H)
    as [params [H1 _]].
  exists params. exact H1.
Defined.

(** X2.  A falsy criteria is no criteria.  [0], the empty string, [false],
    [NaN] and [null] compile to the empty fragment like an absent criteria,
    so [update(0).set(props)] and [updateOne(0).set(props)] build the very
    statement of [update().set(props)], over the whole table, and so do
    [find] and [findOne] for every falsy criteria but [null]. *)
Theorem falsy_criteria_is_whole_table
  (rt : Runtime) (M : Model) (criteria : value) (props : obj)
  (args : list value) :
  truthy criteria = false ->
  buildWhereQuery rt criteria args = Ok (EmptyString, args)
  /\ update rt M criteria props = update rt M VUndefined props
  /\ updateOne rt M criteria props = updateOne rt M VUndefined props
  /\ (criteria <> VNull ->
      find rt M criteria = find rt M VUndefined
      /\ findOne rt M criteria = findOne rt M VUndefined).
Proof.
  intros Hf.
  assert (Hw : forall a, buildWhereQuery rt criteria a = Ok (EmptyString, a)).
  { intros a. unfold buildWhereQuery. now rewrite Hf. }
  split; [apply Hw|]. split; [|split].
  - unfold update.
    destruct (buildSetQuery rt M (withDefaultValues M props false) [])
      as [[setQuery a]|e]; simpl; auto.
    destruct (setQuery =? EmptyString); auto. now rewrite Hw.
  - unfold updateOne.
    destruct (buildSetQuery rt M (withDefaultValues M props false) [])
      as [[setQuery a]|e]; simpl; auto.
    destruct (setQuery =? EmptyString); auto. now rewrite Hw.
  - intros Hnull. unfold find, findOne.
    destruct criteria as [| |b|[z|n d| |neg]|s| | |]; try discriminate;
      try contradiction; auto;
      cbn [is_undefined getFindCriteriaFrom entries has bind];
      rewrite Hw; split; reflexivity.
Qed.

Lemma falsy_criteria_is_whole_table_witness :
  update Fixtures.rt Fixtures.Simple (VNum (Int 0)) [("name", VStr "charlie")]
  = update Fixtures.rt Fixtures.Simple VUndefined [("name", VStr "charlie")].
Proof.
  exact (proj1 (proj2 (@falsy_criteria_is_whole_table Fixtures.rt
           Fixtures.Simple (VNum (Int 0)) [("name", VStr "charlie")] []
           eq_refl))).
Defined.

(** ** SET and VALUES fragments *)

Lemma append_empty (a b : string) : a +++ b = EmptyString -> b = EmptyString.
Proof.
  destruct a; simpl; [auto|discriminate].
Qed.

Lemma numbered_cons {A} n (x : A) xs :
  numbered n (x :: xs) = (n, x) :: numbered (S n) xs.
Proof.
  reflexivity.
Qed.

Lemma attributes_at_declared (M : Model) k cfg :
  attr_get (attributes M) k = Some cfg -> attributes_at M k = Some cfg.
Proof.
  unfold attributes_at. now intros ->.
Qed.

Lemma all_declared_readable (M : Model) (props : obj) :
  all_declared M props = true -> all_readable M props = true.
Proof.
  unfold all_declared, all_readable. rewrite !forallb_forall.
  intros H kv Hin. specialize (H kv Hin).
  destruct (attr_get (attributes M) (fst kv)) as [cfg|] eqn:E;
    [|discriminate].
  now rewrite (@attributes_at_declared M _ _ E).
Qed.

(** The value bound for a property follows the attribute that
    [Model.attributes[k]] finds. *)
Lemma set_value_at (rt : Runtime) (M : Model) k v cfg :
  attributes_at M k = Some cfg ->
  set_value rt M (k, v)
  = match type cfg with
    | Some t => if t =? "json" then JSON_stringify rt v else v
    | None => v
    end.
Proof.
  unfold attributes_at, set_value. cbn [fst snd].
  destruct (attr_get (attributes M) k) as [cfg'|].
  - intros H. now inversion H.
  - destruct (inherited k); [|discriminate]. intros H. now inversion H.
Qed.

Lemma buildSetQuery_entries (rt : Runtime) (M : Model) (props : obj)
  (values : list value) (sets : list string) :
  all_readable M props = true ->
  forEachM (buildSetQuery_entry rt M) props (values, sets)
  = Ok (values ++ map (set_value rt M) props,
        sets ++ map (set_clause rt)
                    (numbered (S (List.length values)) props)).
Proof.
  revert values sets.
  induction props as [|[k v] props IH]; intros values sets Hd.
  - simpl. now rewrite !app_nil_r.
  - simpl in Hd. apply andb_prop in Hd. destruct Hd as [Hk Hd].
    cbn [forEachM]. unfold buildSetQuery_entry at 1.
    cbn [fst] in Hk.
    destruct (attributes_at M k) as [cfg|] eqn:Ek; [|discriminate].
    cbn [bind].
    rewrite numbered_cons. cbn [map].
    rewrite (@set_value_at rt M k v cfg Ek).
    unfold set_clause at 1. cbn [fst snd].
    destruct (type cfg) as [t|]; [destruct (t =? "json")|];
      rewrite IH by assumption;
      rewrite <- !app_assoc, length_app; cbn [List.length app];
      rewrite Nat.add_1_r; reflexivity.
Qed.

Lemma buildSetQuery_unreadable (rt : Runtime) (M : Model) (props : obj)
  (acc : list value * list string) :
  all_readable M props = false ->
  forEachM (buildSetQuery_entry rt M) props acc
  = Throw (TypeError "Cannot read properties of undefined (reading 'type')").
Proof.
  revert acc. induction props as [|[k v] props IH]; intros [values sets] Hd.
  - discriminate.
  - cbn [forEachM]. unfold buildSetQuery_entry at 1.
    simpl in Hd.
    destruct (attributes_at M k) as [cfg|]; auto.
    cbn [bind]. apply IH. exact Hd.
Qed.

(** The fragment and arguments of [buildSetQuery], in closed form. *)
Lemma buildSetQuery_closed_form
  (rt : Runtime) (M : Model) (props : obj) (values : list value) :
  buildSetQuery rt M props values
  = if all_readable M props
    then Ok (join ", " (map (set_clause rt)
                            (numbered (S (List.length values)) props)),
             values ++ map (set_value rt M) props)
    else Throw (TypeError
           "Cannot read properties of undefined (reading 'type')").
Proof.
  unfold buildSetQuery.
  destruct (all_readable M props) eqn:Hd.
  - rewrite buildSetQuery_entries by assumption. reflexivity.
  - rewrite buildSetQuery_unreadable by assumption. reflexivity.
Qed.

(** X3.  [buildSetQuery] numbers its placeholders after the arguments
    already there.  When [Model.attributes[k]] is defined for every property
    [k] (the name is a declared attribute, or one the attribute map inherits
    from [Object.prototype], such as [constructor]), the fragment is one
    [col = $i] per property, in property order, joined by commas, where [i]
    is the position its value takes in the argument list; the values are
    appended in that order, the value of an attribute declared [json]
    serialised, and the earlier arguments stay in place.  When some property
    has a name that is neither declared nor inherited, the call throws a
    TypeError instead; a property named [constructor] does not. *)
Theorem buildSetQuery_numbers_in_order
  (rt : Runtime) (M : Model) (props : obj) (values : list value) :
  buildSetQuery rt M props values
  = (if all_readable M props
     then Ok (join ", " (map (set_clause rt)
                             (numbered (S (List.length values)) props)),
              values ++ map (set_value rt M) props)
     else Throw (TypeError
            "Cannot read properties of undefined (reading 'type')"))
  /\ all_readable M props
     = forallb (fun kv =>
                  match attr_get (attributes M) (fst kv) with
                  | Some _ => true
                  | None => inherited (fst kv)
                  end) props
  /\ (forall v, attr_get (attributes M) "constructor" = None ->
        buildSetQuery rt M [("constructor", v)] values
        = Ok (esc_col rt (VStr "constructor") +++ " = "
                +++ placeholder (S (List.length values)),
              values ++ [v])).
Proof.
  split; [apply buildSetQuery_closed_form|split].
  - unfold all_readable, attributes_at.
    induction props as [|kv props IH]; [reflexivity|].
    cbn [forallb]. rewrite IH. f_equal.
    destruct (attr_get (attributes M) (fst kv)); [reflexivity|].
    now destruct (inherited (fst kv)).
  - intros v Hown. rewrite buildSetQuery_closed_form.
    unfold all_readable, attributes_at, set_value.
    cbn [forallb fst snd map]. rewrite Hown. reflexivity.
Qed.

(** ** Defaults *)

Lemma set_keys (o : obj) k v :
  map fst (set o k v)
  = if has o k then map fst o else map fst o ++ [k].
Proof.
  induction o as [|[k' v'] o IH]; simpl; auto.
  destruct (k' =? k) eqn:E; simpl; auto.
  rewrite IH. now destruct (has o k).
Qed.

Lemma get_defined_has (o : obj) k :
  is_undefined (get o k) = false -> has o k = true.
Proof.
  induction o as [|[k' v'] o IH]; simpl; [discriminate|].
  destruct (k' =? k); simpl; auto.
Qed.

Lemma withDefaultValues_attr_keeps (creating : bool) (props : obj)
  (ac : string * AttributeSpec) (k : string) :
  no_key (get props k) = false ->
  get (withDefaultValues_attr creating props ac) k = get props k.
Proof.
  intros Hk. destruct ac as [a cfg].
  destruct (String.eqb a k) eqn:E.
  - apply String.eqb_eq in E. subst a.
    unfold no_key in Hk. apply orb_false_elim in Hk. destruct Hk as [Hn Hu].
    unfold withDefaultValues_attr. rewrite Hu, andb_false_r.
    cbv beta iota zeta. rewrite Hu, Hn, andb_false_r. reflexivity.
  - apply withDefaultValues_attr_other. intros ->.
    now rewrite String.eqb_refl in E.
Qed.

(** X4.  Defaults never override the caller.  A property the caller
    supplied with a value other than null or undefined reads the same after
    [withDefaultValues], whether creating or updating, whatever the model
    declares for it (a default, an auto-timestamp, a type). *)
Theorem withDefaultValues_keeps_supplied
  (M : Model) (props : obj) (creating : bool) (k : string) :
  no_key (get props k) = false ->
  get (withDefaultValues M props creating) k = get props k.
Proof.
  unfold withDefaultValues. revert props.
  induction (attributes M) as [|ac l IH]; intros props Hk; simpl; auto.
  rewrite IH; rewrite withDefaultValues_attr_keeps; auto.
Qed.

Lemma withDefaultValues_keeps_supplied_witness :
  get (withDefaultValues Fixtures.WithDefaults
         [("str_def", VStr "mine")] true) "str_def"
  = VStr "mine".
Proof.
  apply (@withDefaultValues_keeps_supplied Fixtures.WithDefaults
           [("str_def", VStr "mine")] true "str_def").
  reflexivity.
Defined.

Lemma withDefaultValues_attr_update_keys (props : obj)
  (ac : string * AttributeSpec) :
  map fst (withDefaultValues_attr false props ac) = map fst props.
Proof.
  destruct ac as [a cfg]. unfold withDefaultValues_attr.
  cbn [andb orb].
  destruct (is_null (get props a)) eqn:En; auto.
  assert (Hhas : has props a = true).
  { apply get_defined_has. now destruct (get props a). }
  destruct (autoCreatedAt cfg); auto.
  destruct (autoUpdatedAt cfg); [now rewrite set_keys, Hhas|].
  destruct (negb (allowNull cfg)); auto.
  destruct (zero_of (type cfg)); auto. now rewrite set_keys, Hhas.
Qed.

(** Updating keeps the caller's property names. *)
Lemma withDefaultValues_update_keys (M : Model) (props : obj) :
  map fst (withDefaultValues M props false) = map fst props.
Proof.
  unfold withDefaultValues. revert props.
  induction (attributes M) as [|ac l IH]; intros props; simpl; auto.
  now rewrite IH, withDefaultValues_attr_update_keys.
Qed.

(** X5.  An update sets only what the caller named.  When not creating,
    [withDefaultValues] returns a property map with the caller's property
    names, in the caller's order: no default, no auto-timestamp and no zero
    value is added for an attribute the caller left out. *)
Theorem withDefaultValues_update_adds_nothing (M : Model) (props : obj) :
  map fst (withDefaultValues M props false) = map fst props.
Proof.
  apply withDefaultValues_update_keys.
Qed.




Lemma withDefaultValues_attr_no_null (creating : bool) (props : obj)
  a cfg z :
  allowNull cfg = false ->
  zero_of (type cfg) = Some z ->
  creating = true \/ autoCreatedAt cfg = false ->
  let r := withDefaultValues_attr creating props (a, cfg) in
  is_null (get r a) = false
  /\ (creating = true -> is_undefined (get r a) = false).
Proof.
  intros Hallow Hz Hmode r. subst r. unfold withDefaultValues_attr.
  cbv zeta.
  remember (if creating && is_undefined (get props a)
            then if negb (is_undefined (defaultsTo cfg))
                 then set props a (defaultsTo cfg) else props
            else props) as p1 eqn:Ep1.
  rewrite Hallow, Hz. cbn [negb].
  assert (Hzero := zero_of_not_no_key _ Hz).
  unfold no_key in Hzero. apply orb_false_elim in Hzero.
  destruct Hzero as [Hzn Hzu].
  destruct ((creating && is_undefined (get p1 a)) || is_null (get p1 a))
    eqn:Ec.
  - destruct (autoCreatedAt cfg) eqn:Ea.
    + destruct Hmode as [-> | Hm]; [|discriminate].
      rewrite get_set_same. auto.
    + destruct (autoUpdatedAt cfg); rewrite get_set_same; auto.
  - apply orb_false_elim in Ec. destruct Ec as [Hcu Hnull].
    split; auto. intros ->. exact Hcu.
Qed.

(** X7.  Null does not reach a non-nullable attribute.  When the model's
    attribute names are distinct, an attribute declared [string], [number]
    or [boolean] without [allowNull] never reads null after
    [withDefaultValues], except for an [autoCreatedAt] attribute on update;
    on create it never reads undefined either: it holds the caller's value,
    the default, the timestamp marker or the type's zero value. *)
Theorem withDefaultValues_no_null
  (M : Model) (props : obj) (creating : bool)
  (a : string) (cfg : AttributeSpec) (z : value) :
  NoDup (map fst (attributes M)) ->
  In (a, cfg) (attributes M) ->
  allowNull cfg = false ->
  zero_of (type cfg) = Some z ->
  creating = true \/ autoCreatedAt cfg = false ->
  is_null (get (withDefaultValues M props creating) a) = false
  /\ (creating = true ->
      is_undefined (get (withDefaultValues M props creating) a) = false).
Proof.
  unfold withDefaultValues. revert props.
  induction (attributes M) as [|[attr cfg'] l IH];
    intros props Hnd Hin Hallow Hz Hmode;
    cbn [fold_left map fst In] in *; [contradiction|].
  inversion Hnd as [|? ? Hnotin Hnd']; subst.
  destruct Hin as [Heq | Hin].
  - inversion Heq; subst.
    rewrite withDefaultValues_fold_other by assumption.
    now apply withDefaultValues_attr_no_null with (z := z).
  - apply IH; auto.
Qed.

Lemma withDefaultValues_no_null_witness :
  is_null (get (withDefaultValues Fixtures.Simple
                  [("name", VNull)] false) "name") = false.
Proof.
  assert (Hnd : NoDup (map fst (attributes Fixtures.Simple))).
  { simpl. repeat constructor; simpl; intuition discriminate. }
  assert (Hin : In ("name", Fixtures.attr (Some "string"))
                   (attributes Fixtures.Simple)).
  { simpl. auto. }
  exact (proj1 (@withDefaultValues_no_null Fixtures.Simple [("name", VNull)]
                  false "name" (Fixtures.attr (Some "string"))
                  (VStr EmptyString) Hnd Hin eq_refl eq_refl
                  (or_intror eq_refl))).
Defined.

(** ** Statements of [update], [create] and [createEach] *)

Lemma append_eq_empty (a b : string) :
  a +++ b = EmptyString -> a = EmptyString /\ b = EmptyString.
Proof.
  destruct a; simpl; [auto|discriminate].
Qed.

Lemma set_clause_nonempty (rt : Runtime) ik :
  set_clause rt ik <> EmptyString.
Proof.
  unfold set_clause. intros H.
  apply append_eq_empty in H. destruct H as [_ H]. discriminate.
Qed.

Lemma join_nonempty sep (x : string) (xs : list string) :
  x <> EmptyString -> join sep (x :: xs) <> EmptyString.
Proof.
  intros Hx H. unfold join in H. simpl in H.
  destruct xs; [contradiction|].
  apply append_eq_empty in H. destruct H as [H _]. contradiction.
Qed.

Lemma all_declared_keys (M : Model) (p q : obj) :
  map fst p = map fst q -> all_declared M p = all_declared M q.
Proof.
  revert q. induction p as [|[k v] p IH]; intros [|[k' v'] q]; simpl;
    try discriminate; auto.
  intros H. inversion H; subst. now rewrite (IH q).
Qed.

(** X8.  [update(criteria).set(props)] with at least one property, all of
    declared attributes, builds one UPDATE whose SET list assigns the
    caller's properties in the caller's order to [$1], [$2], ... and whose
    WHERE fragment is compiled against those values: the argument list is
    the SET values followed by the criteria's arguments, so a scalar
    criteria is [WHERE id=$(k+1)] after [k] properties.  [updateOne] builds
    the same fragments and arguments inside its sub-select, in single-row
    fetch mode.  A criteria that fails to compile fails the call. *)
Theorem update_statement
  (rt : Runtime) (M : Model) (criteria : value) (props : obj) :
  props <> [] ->
  all_declared M props = true ->
  let props' := withDefaultValues M props false in
  let setQuery := join ", " (map (set_clause rt) (numbered 1 props')) in
  let values := map (set_value rt M) props' in
  map fst props' = map fst props
  /\ update rt M criteria props
     = ('(wher, args) <- buildWhereQuery rt criteria values ;;
        Ok (RBuilder (sendNativeQuery (update_sql rt M setQuery wher)
                        (Some args) (model_opts M))))
  /\ (exists opts,
        o_single opts = true /\ o_fetch opts = true
        /\ updateOne rt M criteria props
           = ('(wher, args) <- buildWhereQuery rt criteria values ;;
              Ok (RBuilder (sendNativeQuery
                              (updateOne_sql rt M setQuery wher)
                              (Some args) opts))))
  /\ (truthy criteria = true -> typeof_object criteria = false ->
      buildWhereQuery rt criteria values
      = Ok ("WHERE id=" +++ placeholder (S (List.length props)),
            values ++ [criteria])).
Proof.
  intros Hne Hd props' setQuery values.
  assert (Hkeys : map fst props' = map fst props)
    by apply withDefaultValues_update_keys.
  assert (Hd' : all_declared M props' = true).
  { now rewrite (all_declared_keys M props' props Hkeys). }
  assert (Hset : buildSetQuery rt M props' [] = Ok (setQuery, values)).
  { rewrite buildSetQuery_closed_form,
      (all_declared_readable M props' Hd'). reflexivity. }
  assert (Hnonempty : (setQuery =? EmptyString) = false).
  { apply String.eqb_neq. subst setQuery.
    destruct props' as [|kv props1] eqn:E.
    - destruct props; [contradiction|discriminate].
    - rewrite numbered_cons. cbn [map].
      apply join_nonempty, set_clause_nonempty. }
  split; [exact Hkeys|]. split; [|split].
  - unfold update. fold props'. rewrite Hset. cbn [bind].
    rewrite Hnonempty. reflexivity.
  - eexists. split; [|split]; [| |unfold updateOne; fold props';
      rewrite Hset; cbn [bind]; rewrite Hnonempty; reflexivity];
      reflexivity.
  - intros Ht Ho. unfold buildWhereQuery. rewrite Ht, Ho. cbn [negb].
    rewrite length_app. cbn [List.length]. rewrite Nat.add_1_r.
    subst values. rewrite length_map.
    rewrite <- (length_map fst props'), Hkeys, length_map. reflexivity.
Qed.

Lemma update_statement_witness :
  update Fixtures.rt Fixtures.Simple (Fixtures.num 1)
    [("name", VStr "charlie")]
  = Ok (RBuilder (sendNativeQuery
          (update_sql Fixtures.rt Fixtures.Simple "name = $1" "WHERE id=$2")
          (Some [VStr "charlie"; Fixtures.num 1])
          (model_opts Fixtures.Simple))).
Proof.
  assert (Hne : [("name", VStr "charlie")] <> ([] : obj)) by discriminate.
  exact (proj1 (proj2 (@update_statement Fixtures.rt Fixtures.Simple
           (Fixtures.num 1) [("name", VStr "charlie")] Hne eq_refl))).
Defined.

Lemma buildValuesQuery_fold (props : obj) (cols : list string)
  (values : list value) (q : list string) :
  fold_left (buildValuesQuery_col props) cols (values, q)
  = (values ++ map (get props) cols,
     q ++ map placeholder (seq (S (List.length values)) (List.length cols))).
Proof.
  revert values q. induction cols as [|k cols IH]; intros values q; simpl.
  - now rewrite !app_nil_r.
  - rewrite IH, <- !app_assoc, length_app. simpl.
    now rewrite Nat.add_1_r.
Qed.

Lemma set_NoDup (o : obj) k v :
  NoDup (map fst o) -> NoDup (map fst (set o k v)).
Proof.
  intros Hnd. rewrite set_keys. destruct (has o k) eqn:E; auto.
  apply NoDup_app; auto.
  - constructor; [intros []|constructor].
  - intros x Hin [Hx|[]]. subst x.
    assert (has o k = true); [|congruence].
    clear E Hnd. induction o as [|[k' v'] o IH]; simpl in *; [contradiction|].
    destruct Hin as [->|Hin]; [now rewrite String.eqb_refl|].
    rewrite IH by assumption. apply orb_true_r.
Qed.

Lemma withDefaultValues_attr_NoDup creating (props : obj) ac :
  NoDup (map fst props) ->
  NoDup (map fst (withDefaultValues_attr creating props ac)).
Proof.
  intros Hnd. destruct ac as [a cfg]. unfold withDefaultValues_attr.
  repeat match goal with
         | |- context [if ?c then _ else _] => destruct c
         | |- context [match ?c with Some _ => _ | None => _ end] => destruct c
         end;
    repeat apply set_NoDup; assumption.
Qed.

Lemma withDefaultValues_NoDup (M : Model) (props : obj) creating :
  NoDup (map fst props) ->
  NoDup (map fst (withDefaultValues M props creating)).
Proof.
  unfold withDefaultValues. revert props.
  induction (attributes M) as [|ac l IH]; intros props Hnd; simpl; auto.
  apply IH. now apply withDefaultValues_attr_NoDup.
Qed.

Lemma get_own_keys (o : obj) :
  NoDup (map fst o) -> map (get o) (map fst o) = map snd o.
Proof.
  induction o as [|[k v] o IH]; simpl; auto.
  intros Hnd. inversion Hnd as [|? ? Hnotin Hnd']; subst.
  rewrite String.eqb_refl. f_equal.
  rewrite <- IH by assumption. apply map_ext_in.
  intros k' Hin. destruct (k =? k') eqn:E; auto.
  apply String.eqb_eq in E. subst. contradiction.
Qed.

(** X9.  [create(props)] on properties with distinct names builds one
    INSERT in single-row mode whose column list is the names of the
    defaulted properties, whose VALUES tuple is [$1], ..., [$n] in the same
    order, and whose arguments are the defaulted values in that order: one
    argument per column, each at the position its placeholder names. *)
Theorem create_statement (rt : Runtime) (M : Model) (props : obj) :
  NoDup (map fst props) ->
  let props' := withDefaultValues M props true in
  exists b,
    create rt M props = RBuilder b
    /\ b_sql b
       = create_sql rt M (map fst props')
           ("(" +++ join ", " (map placeholder
                                   (seq 1 (List.length props'))) +++ ")")
    /\ b_args b = Some (map snd props')
    /\ o_single (b_opts b) = true
    /\ o_fetch (b_opts b) = false.
Proof.
  intros Hnd props'. unfold create. fold props'.
  unfold buildValuesQuery. rewrite buildValuesQuery_fold.
  cbn [List.length app]. rewrite length_map.
  rewrite get_own_keys by now apply withDefaultValues_NoDup.
  eexists. repeat split.
Qed.

Lemma create_statement_witness :
  exists b,
    create Fixtures.rt Fixtures.WithDefaults
      [("str_no_def", VStr "a"); ("num_no_def", Fixtures.num 1)]
    = RBuilder b
    /\ b_args b
       = Some [VStr "a"; Fixtures.num 1; Fixtures.num 0; VStr "val";
               VStr "77"].
Proof.
  assert (Hnd : NoDup (map fst [("str_no_def", VStr "a");
                                ("num_no_def", Fixtures.num 1)])).
  { simpl. repeat constructor; simpl; intuition discriminate. }
  destruct (@create_statement Fixtures.rt Fixtures.WithDefaults _ Hnd)
    as [b [H1 [_ [H3 _]]]].
  exists b. split; [exact H1 | exact H3].
Defined.





(** ** Casting rows *)

Lemma set_app_notin (done es : obj) k v z :
  ~ In k (map fst done) ->
  set (done ++ (k, v) :: es) k z = done ++ (k, z) :: es.
Proof.
  induction done as [|[k' v'] done IH]; simpl; intros Hn.
  - now rewrite String.eqb_refl.
  - destruct (k' =? k) eqn:E.
    + apply String.eqb_eq in E. subst. exfalso. auto.
    + rewrite IH; auto.
Qed.

Lemma no_key_spec (v : value) : is_undefined v || is_null v = no_key v.
Proof.
  unfold no_key. apply orb_comm.
Qed.

Lemma forEach_cast_entry_columns (M : Model) (es done : obj) :
  NoDup (map fst (done ++ es)) ->
  forEachM (cast_entry M) es (done ++ es)
  = (es' <- mapM (cast_column M) es ;; Ok (done ++ es')).
Proof.
  revert done. induction es as [|[k v] es IH]; intros done Hnd.
  - reflexivity.
  - assert (Hk : ~ In k (map fst done)).
    { rewrite map_app in Hnd. simpl in Hnd.
      apply NoDup_remove_2 in Hnd. intros Hin. apply Hnd.
      apply in_or_app. auto. }
    assert (Hnext : forall z,
      forEachM (cast_entry M) es (done ++ (k, z) :: es)
      = (es' <- mapM (cast_column M) es ;; Ok (done ++ (k, z) :: es'))).
    { intros z.
      replace (done ++ (k, z) :: es) with ((done ++ [(k, z)]) ++ es)
        by now rewrite <- app_assoc.
      rewrite IH.
      - destruct (mapM (cast_column M) es); simpl; auto.
        now rewrite <- app_assoc.
      - rewrite <- app_assoc. simpl.
        rewrite !map_app in *. simpl in *. exact Hnd. }
    cbn [forEachM mapM]. unfold cast_entry at 1, cast_column at 1.
    cbn [fst snd]. rewrite no_key_spec.
    destruct (no_key v).
    + destruct (attributes_at M k) as [cfg|]; [|reflexivity].
      destruct (allowNull cfg); cbn [negb bind].
      * rewrite Hnext. now destruct (mapM (cast_column M) es).
      * destruct (zero_of (type cfg)) as [z|]; cbn [bind].
        -- rewrite set_app_notin by assumption. rewrite Hnext.
           now destruct (mapM (cast_column M) es).
        -- rewrite Hnext. now destruct (mapM (cast_column M) es).
    + cbn [bind]. rewrite Hnext. now destruct (mapM (cast_column M) es).
Qed.

Lemma withTimestampsCast_keys (rt : Runtime) (row : obj) :
  map fst (withTimestampsCast rt row) = map fst row.
Proof.
  assert (Hset : forall (o : obj) k v,
            truthy (get o k) = true -> map fst (set o k v) = map fst o).
  { intros o k v Ht. rewrite set_keys, get_defined_has; auto.
    now destruct (get o k). }
  unfold withTimestampsCast.
  destruct (truthy (get row "created_at")) eqn:Ec.
  - destruct (truthy (get (set row "created_at" _) "updated_at")) eqn:Eu;
      rewrite ?Hset; auto.
  - destruct (truthy (get row "updated_at")) eqn:Eu; rewrite ?Hset; auto.
Qed.

(** The cast as a column-wise map. *)
Lemma castRow_mapM
  (rt : Runtime) (M : Model) (row : obj) :
  NoDup (map fst row) ->
  castRow rt (Some M) row
  = mapM (cast_column M) (withTimestampsCast rt row).
Proof.
  intros Hnd. unfold castRow, withSelectedValuesCast.
  assert (H := forEach_cast_entry_columns M (withTimestampsCast rt row) []).
  cbn [app] in H. rewrite H.
  - destruct (mapM (cast_column M) (withTimestampsCast rt row)); reflexivity.
  - now rewrite withTimestampsCast_keys.
Qed.

(** X11.  On a row with distinct column names, [withSelectedValuesCast]
    works column by column, left to right, after the two timestamp columns
    are converted.  A column that is not null or absent keeps its value.  A
    null or absent column of a declared attribute becomes the type's zero
    value when the attribute disallows null and has one ([string],
    [number], [boolean]) and stays as it is otherwise.  A null or absent
    column that the model does not declare stays as it is when its name is
    a member of [Object.prototype] ([constructor], [toString], ...), which
    the attribute map inherits, and makes the cast throw a TypeError for
    any other name. *)
Theorem castRow_column_by_column
  (rt : Runtime) (M : Model) (row : obj) :
  NoDup (map fst row) ->
  castRow rt (Some M) row
  = mapM (cast_column M) (withTimestampsCast rt row)
  /\ (forall k v, no_key v = false -> cast_column M (k, v) = Ok (k, v))
  /\ (forall k v cfg,
        no_key v = true -> attr_get (attributes M) k = Some cfg ->
        cast_column M (k, v)
        = Ok (k, if allowNull cfg then v
                 else match zero_of (type cfg) with
                      | Some z => z
                      | None => v
                      end))
  /\ (forall k v,
        no_key v = true -> attr_get (attributes M) k = None ->
        cast_column M (k, v)
        = if inherited k then Ok (k, v)
          else Throw (TypeError
                 "Cannot destructure property 'allowNull' of undefined")).
Proof.
  intros Hnd. split; [now apply castRow_mapM|]. split; [|split].
  - intros k v Hv. unfold cast_column. cbn [fst snd]. now rewrite Hv.
  - intros k v cfg Hv Hattr. unfold cast_column. cbn [fst snd].
    rewrite Hv, (@attributes_at_declared M k cfg Hattr).
    destruct (allowNull cfg); [reflexivity|].
    now destruct (zero_of (type cfg)).
  - intros k v Hv Hattr. unfold cast_column, attributes_at. cbn [fst snd].
    rewrite Hv, Hattr. now destruct (inherited k).
Qed.

Lemma castRow_column_by_column_witness :
  castRow Fixtures.rt (Some Fixtures.Simple)
    [("id", Fixtures.num 1); ("name", VNull)]
  = Ok [("id", Fixtures.num 1); ("name", VStr EmptyString)].
Proof.
  assert (Hnd : NoDup (map fst [("id", Fixtures.num 1); ("name", VNull)])).
  { simpl. repeat constructor; simpl; intuition discriminate. }
  exact (proj1 (@castRow_column_by_column Fixtures.rt Fixtures.Simple _
                  Hnd)).
Defined.

Lemma forEach_cast_entry_fails (M : Model) (es acc : obj) :
  existsb (unreadable_null M) es = true ->
  forEachM (cast_entry M) es acc
  = Throw (TypeError "Cannot destructure property 'allowNull' of undefined").
Proof.
  revert acc. induction es as [|[k v] es IH]; intros acc; simpl;
    [discriminate|].
  unfold unreadable_null at 1. cbn [fst snd]. rewrite no_key_spec.
  destruct (no_key v); cbn [andb orb].
  - destruct (attributes_at M k) as [cfg|]; cbn [orb];
      [|reflexivity].
    intros H. destruct (negb (allowNull cfg)); [destruct (zero_of _)|];
      cbn [bind]; now apply IH.
  - intros H. cbn [bind]. now apply IH.
Qed.

Lemma forEach_cast_entry_succeeds (M : Model) (es acc : obj) :
  existsb (unreadable_null M) es = false ->
  exists row', forEachM (cast_entry M) es acc = Ok row'.
Proof.
  revert acc. induction es as [|[k v] es IH]; intros acc; simpl.
  - intros _. now exists acc.
  - unfold unreadable_null at 1. cbn [fst snd]. rewrite no_key_spec.
    destruct (no_key v); cbn [andb orb].
    + destruct (attributes_at M k) as [cfg|]; cbn [orb];
        [|discriminate].
      intros H. destruct (negb (allowNull cfg)); [destruct (zero_of _)|];
        cbn [bind]; now apply IH.
    + intros H. cbn [bind]. now apply IH.
Qed.

(** X12.  A row can be cast exactly when [Model.attributes[k]] is defined
    for each of its null or absent columns [k] (after the timestamp columns
    are converted), that is when each such column is a declared attribute or
    is named like a member of [Object.prototype]: with a null or absent
    column of any other name, [withSelectedValuesCast] throws a TypeError;
    without one it returns a row.  Columns that hold a value need no
    declaration, and a null column named [constructor] does not make the
    cast fail. *)
Theorem castRow_fails_on_undeclared_null
  (rt : Runtime) (M : Model) (row : obj) :
  (if existsb (unreadable_null M) (withTimestampsCast rt row)
   then castRow rt (Some M) row
        = Throw (TypeError
            "Cannot destructure property 'allowNull' of undefined")
   else exists row', castRow rt (Some M) row = Ok row')
  /\ (forall k v,
        unreadable_null M (k, v)
        = no_key v
          && match attr_get (attributes M) k with
             | Some _ => false
             | None => negb (inherited k)
             end)
  /\ (attr_get (attributes M) "constructor" = None ->
      castRow rt (Some M) [("constructor", VNull)]
      = Ok [("constructor", VNull)]).
Proof.
  split; [|split].
  - unfold castRow, withSelectedValuesCast.
    destruct (existsb (unreadable_null M) (withTimestampsCast rt row)) eqn:E.
    + now rewrite forEach_cast_entry_fails.
    + destruct (forEach_cast_entry_succeeds M _ (withTimestampsCast rt row)
                  E) as [row' H].
      exists row'. now rewrite H.
  - intros k v. unfold unreadable_null, attributes_at. cbn [fst snd].
    destruct (attr_get (attributes M) k); [reflexivity|].
    now destruct (inherited k).
  - intros Hown. unfold castRow, withSelectedValuesCast, withTimestampsCast.
    cbn [get String.eqb Ascii.eqb Bool.eqb truthy forEachM cast_entry
         is_undefined is_null orb].
    unfold attributes_at. rewrite Hown. reflexivity.
Qed.





(** ** The registry *)

Lemma find_first {A} (f : A -> bool) (l : list A) (x : A) :
  List.find f l = Some x ->
  exists before after,
    l = before ++ x :: after
    /\ f x = true
    /\ forall y, In y before -> f y = false.
Proof.
  induction l as [|a l IH]; simpl; [discriminate|].
  destruct (f a) eqn:Ea.
  - intros H. inversion H; subst. exists [], l. simpl. intuition.
  - intros H. destruct (IH H) as [before [after [Hl [Hx Hb]]]].
    exists (a :: before), after. subst l. simpl.
    split; [reflexivity|]. split; [exact Hx|].
    intros y [->|Hy]; auto.
Qed.

(** X14.  Models are looked up by name without regard to case, first match
    first.  [getModelWithName] returns the first model, in registry order,
    whose lower-cased id equals the lower-cased name: every model before it
    in the registry has a different lower-cased id.  It succeeds whenever
    some model matches, so the lookup under the name of a model the module
    was given always succeeds; and when none matches it throws
    ModelNotFound with the name asked for. *)
Theorem getModelWithName_case_insensitive
  (rt : Runtime) (models : list Model) (name : string) :
  (forall m, getModelWithName rt models (Some name) = Ok m ->
     exists before after,
       models = before ++ m :: after
       /\ toLowerCase rt (globalId m) = toLowerCase rt name
       /\ forall m', In m' before ->
             toLowerCase rt (globalId m') <> toLowerCase rt name)
  /\ (forall m, In m models ->
        toLowerCase rt (globalId m) = toLowerCase rt name ->
        exists m', getModelWithName rt models (Some name) = Ok m')
  /\ ((forall m, In m models ->
         toLowerCase rt (globalId m) <> toLowerCase rt name) ->
      getModelWithName rt models (Some name) = Throw (ModelNotFound name))
  /\ (forall defaults sources own,
        models = plimsoll_models rt defaults sources ->
        In (name, own) sources ->
        exists m', getModelWithName rt models (Some name) = Ok m').
Proof.
  assert (Hfind : forall m, In m models ->
            toLowerCase rt (globalId m) = toLowerCase rt name ->
            exists m', getModelWithName rt models (Some name) = Ok m').
  { intros m Hin Hm. unfold getModelWithName.
    destruct models as [|m0 ms]; [contradiction|].
    destruct (List.find _ (m0 :: ms)) as [m'|] eqn:Ef.
    - now exists m'.
    - apply (find_none _ _ Ef) in Hin. apply String.eqb_neq in Hin.
      contradiction. }
  split; [|split; [exact Hfind|split]].
  - intros m H. unfold getModelWithName in H.
    destruct models as [|m0 ms]; [discriminate|].
    destruct (List.find _ (m0 :: ms)) as [m'|] eqn:Ef; [|discriminate].
    inversion H; subst.
    destruct (find_first _ _ Ef) as [before [after [Hl [Hm Hb]]]].
    exists before, after. split; [exact Hl|].
    split; [now apply String.eqb_eq in Hm|].
    intros m' Hin'. apply String.eqb_neq. now apply Hb.
  - intros Hnone. unfold getModelWithName.
    destruct models as [|m0 ms]; [reflexivity|].
    destruct (List.find _ (m0 :: ms)) as [m'|] eqn:Ef; [|reflexivity].
    apply find_some in Ef. destruct Ef as [Hin Hm].
    apply String.eqb_eq in Hm. exfalso. exact (Hnone m' Hin Hm).
  - intros defaults sources own Hmodels Hin.
    apply (Hfind (initialiseModel rt defaults name own)).
    + subst models. unfold plimsoll_models.
      apply (in_map (fun nm => initialiseModel rt defaults (fst nm) (snd nm))
               sources (name, own) Hin).
    + reflexivity.
Qed.

Lemma getModelWithName_case_insensitive_witness :
  exists m', getModelWithName Fixtures.rt Fixtures.registry (Some "SIMPLE")
             = Ok m'.
Proof.
  assert (Hin : In Fixtures.Simple Fixtures.registry).
  { simpl. auto. }
  exact (proj1 (proj2 (@getModelWithName_case_insensitive Fixtures.rt
           Fixtures.registry "SIMPLE")) Fixtures.Simple Hin eq_refl).
Defined.

(** ** ORDER BY *)

(** X15.  The ORDER BY fragment is empty or well-formed: whenever
    [buildOrderByQuery] returns, the fragment is either empty or the words
    ORDER BY, one column passed through the identifier escape, and a
    direction that is empty, ASC or DESC; the column is the first word of
    the caller's sort string, and no other text of it reaches the
    statement. *)
Theorem buildOrderByQuery_well_formed
  (rt : Runtime) (orderBy : value) (fragment : string) :
  buildOrderByQuery rt orderBy = Ok fragment ->
  fragment = EmptyString
  \/ exists column direction,
       fragment = " ORDER BY " +++ esc_col rt (VStr column) +++ " "
                    +++ direction
       /\ (direction = EmptyString \/ direction = "ASC"
           \/ direction = "DESC")
       /\ exists s, orderBy = VStr s /\ hd_error (trim_split rt s) = Some column.
Proof.
  unfold buildOrderByQuery.
  destruct (negb (truthy orderBy)); [intros H; inversion H; auto|].
  destruct orderBy as [| |b|n|s|xs|props|]; try discriminate.
  destruct (trim_split rt s) as [|c [|d [|x rest]]] eqn:Es; cbn [bind].
  - intros H. inversion H. auto.
  - cbn [String.eqb negb andb hd]. intros H. inversion H. right.
    exists c, EmptyString. repeat split; auto. exists s. rewrite Es. auto.
  - destruct (negb (toUpperCase rt d =? EmptyString)
              && negb ((toUpperCase rt d =? "ASC")
                       || (toUpperCase rt d =? "DESC"))) eqn:Ed;
      [discriminate|].
    intros H. inversion H. right. exists c, (toUpperCase rt d).
    split; [reflexivity|]. split; [|exists s; rewrite Es; auto].
    apply andb_false_iff in Ed. destruct Ed as [Ed|Ed].
    + apply negb_false_iff, String.eqb_eq in Ed. auto.
    + apply negb_false_iff, orb_true_iff in Ed.
      destruct Ed as [Ed|Ed]; apply String.eqb_eq in Ed; auto.
  - discriminate.
Qed.

Lemma buildOrderByQuery_well_formed_witness :
  " ORDER BY name DESC" = EmptyString
  \/ exists column direction,
       " ORDER BY name DESC"
       = " ORDER BY " +++ esc_col Fixtures.rt (VStr column) +++ " "
           +++ direction
       /\ (direction = EmptyString \/ direction = "ASC"
           \/ direction = "DESC")
       /\ exists s, VStr "name desc" = VStr s
                    /\ hd_error (trim_split Fixtures.rt s) = Some column.
Proof.
  exact (@buildOrderByQuery_well_formed Fixtures.rt (VStr "name desc")
           " ORDER BY name DESC" eq_refl).
Defined.

(** ** Statements of one execution *)

(** What [shape] sends: nothing, or the one follow-up lookup of a
    populate. *)
Lemma shape_sends (rt : Runtime) (w : World) (models : list Model)
  (o : Opts) (c : conn) (result : QueryResult) (tr : list event) :
  snd (shape rt w models o c result tr) = tr
  \/ (populate_of o <> None
      /\ exists sql args r,
           snd (shape rt w models o c result tr)
           = tr ++ [Query c sql args r]).
Proof.
  unfold shape, then_single, then_rows, ebind, lift, eret, query.
  destruct (o_returnSingleRow o || (o_fetch o && o_single o)).
  - destruct (withSelectedValuesCast rt (o_Model o) (hd_error (rows result)))
      as [ret|e]; auto.
    destruct (populate_of o) as [p|]; auto.
    destruct (populateModel_of rt models o p) as [pm|e]; auto.
    destruct ret as [r|]; auto.
    right. split; [discriminate|].
    destruct (client_query w tr c _ _) as [res|e];
      [|eexists _, _, _; reflexivity].
    destruct (withSelectedValuesCast rt (Some pm) (hd_error (rows res)));
      eexists _, _, _; reflexivity.
  - destruct (o_returnRows o || o_fetch o); auto.
    destruct (mapM (castRow rt (o_Model o)) (rows result)) as [ret|e]; auto.
    destruct (populate_of o) as [p|]; auto.
    destruct (populateModel_of rt models o p) as [pm|e]; auto.
    right. split; [discriminate|].
    destruct (client_query w tr c _ _) as [res|e];
      [|eexists _, _, _; reflexivity].
    destruct (populate_merge rt pm p ret (rows res));
      eexists _, _, _; reflexivity.
Qed.

Lemma statements_app (xs ys : list event) :
  statements (xs ++ ys) = statements xs ++ statements ys.
Proof.
  induction xs as [|e xs IH]; simpl; auto.
  destruct e; simpl; now rewrite ?IH.
Qed.

Lemma statements_clock (args : option (list value)) (t : Z) :
  statements (match args with Some _ => [Now t] | None => [] end) = [].
Proof.
  now destruct args.
Qed.

(** X16.  One execution, at most two statements.  When [then] gets past the
    ORDER BY fragment on a connection (bound, or granted by the pool), the
    first statement it sends is the builder's text followed by
    [RETURNING *] when fetching, the ORDER BY fragment and the LIMIT
    fragment, in this order, with the builder's arguments after timestamp
    substitution; without [populate] that is the only statement, and with
    [populate] at most one more follows. *)
Theorem then_sends_at_most_two
  (rt : Runtime) (w : World) (models : list Model) (b : Builder)
  (tr : list event) (orderBy : string) :
  buildOrderByQuery rt (o_orderBy (b_opts b)) = Ok orderBy ->
  (o_client (b_opts b) <> None
   \/ exists c,
        pool_connect w
          (tr ++ match b_args b with
                 | Some _ => [Now (date_now w tr)]
                 | None => []
                 end) = Ok c) ->
  let sent := statements (since tr (snd (then_ rt w models b tr))) in
  hd_error sent = Some (statement_text rt b orderBy, statement_args w b tr)
  /\ (List.length sent <= 2)%nat
  /\ (populate_of (b_opts b) = None -> List.length sent = 1%nat).
Proof.
  intros Hob Hconn sent. subst sent.
  rewrite (then_unfold rt w models b tr Hob).
  set (clock := match b_args b with
                | Some _ => [Now (date_now w tr)]
                | None => []
                end) in *.
  assert (Hrun : forall c tr0,
    exists r rest,
      snd ((result <~ query w c (statement_text rt b orderBy)
                        (statement_args w b tr) ;;
            shape rt w models (b_opts b) c result) tr0)
      = tr0 ++ Query c (statement_text rt b orderBy)
                 (statement_args w b tr) r :: rest
      /\ (List.length (statements rest) <= 1)%nat
      /\ (populate_of (b_opts b) = None -> rest = [])).
  { intros c tr0. unfold ebind at 1, query.
    destruct (client_query w tr0 c _ _) as [result|e].
    - destruct (shape_sends rt w models (b_opts b) c result
                  (tr0 ++ [Query c (statement_text rt b orderBy)
                             (statement_args w b tr) (Ok result)]))
        as [H | [Hp [sql [args [r H]]]]]; rewrite H.
      + exists (Ok result), []. simpl. auto.
      + exists (Ok result), [Query c sql args r].
        rewrite <- app_assoc. simpl. repeat split; auto.
        intros Hnone. contradiction.
    - exists (Throw e), []. simpl. auto. }
  destruct (o_client (b_opts b)) as [c|].
  - destruct (Hrun c (tr ++ clock)) as [r [rest [Hsnd [Hlen Hnone]]]].
    cbn [snd]. rewrite Hsnd, <- app_assoc, since_app, statements_app.
    unfold clock. rewrite statements_clock. cbn [app statements hd_error].
    repeat split; auto.
    + simpl. lia.
    + intros Hp. rewrite (Hnone Hp). reflexivity.
  - destruct Hconn as [Hc | [c Hc]]; [contradiction|].
    rewrite Hc.
    destruct (Hrun c ((tr ++ clock) ++ [Connect (Ok c)]))
      as [r [rest [Hsnd [Hlen Hnone]]]].
    cbn [snd]. rewrite Hsnd, <- !app_assoc, since_app, !statements_app.
    unfold clock. rewrite statements_clock.
    cbn [app statements hd_error]. rewrite app_nil_r.
    repeat split; auto.
    + simpl. lia.
    + intros Hp. rewrite (Hnone Hp). reflexivity.
Qed.

Lemma then_sends_at_most_two_witness :
  List.length
    (statements
       (since [] (snd (then_ Fixtures.rt (Fixtures.answering [])
                         Fixtures.registry Fixtures.insert_alice []))))
  = 1%nat.
Proof.
  assert (Hconn :
    o_client (b_opts Fixtures.insert_alice) <> None
    \/ exists c,
         pool_connect (Fixtures.answering [])
           ([] ++ match b_args Fixtures.insert_alice with
                  | Some _ => [Now (date_now (Fixtures.answering []) [])]
                  | None => []
                  end) = Ok c).
  { right. exists 7%nat. reflexivity. }
  exact (proj2 (proj2 (@then_sends_at_most_two Fixtures.rt
           (Fixtures.answering []) Fixtures.registry Fixtures.insert_alice
           [] EmptyString eq_refl Hconn)) eq_refl).
Defined.

(** ** Interceptors on the builders one can hold *)

Lemma handler_get_set_other (o : list (string * handler)) k k' h :
  (k' =? k) = false ->
  handler_get (handler_set o k h) k' = handler_get o k'.
Proof.
  intros Hne. induction o as [|[k0 h0] o IH]; simpl.
  - rewrite String.eqb_sym. now rewrite Hne.
  - destruct (k0 =? k) eqn:E; simpl.
    + apply String.eqb_eq in E. subst k0.
      rewrite String.eqb_sym. now rewrite Hne.
    + now rewrite IH.
Qed.

Lemma built_intercepters (b : Builder) :
  built b ->
  forall code, (code =? "23505") = false ->
               handler_get (o_intercepters (b_opts b)) code = None.
Proof.
  induction 1 as [sql args opts|client b Hb IH|b Hb IH|errName h b Hb IH
                 |n b b' Hb IH Hlimit|prop b Hb IH|criteria b Hb IH];
    intros code Hcode; try (apply IH; assumption).
  - reflexivity.
  - unfold intercept, with_opts, getErrorCodesFor. cbn [b_opts o_intercepters].
    destruct (errName =? "E_UNIQUE"); cbn [fold_left]; [|now apply IH].
    rewrite handler_get_set_other by assumption. now apply IH.
  - unfold limit in Hlimit.
    destruct (negb (isSafeInteger n)); [discriminate|].
    inversion Hlimit; subst. now apply IH.
Qed.

(** X17.  Registered handlers are only ever consulted for uniqueness
    violations.  On a builder obtained from [sendNativeQuery] by calling
    modifiers, whatever [opts] it was made with and whatever interceptors
    were registered, a failure inside the [try] block of [then] with an
    error whose code is not 23505 meets no registered handler.  When the
    code names no member of [Object.prototype], the promise is rejected
    with that very error.  When it does, the lookup finds the inherited
    member, whatever was registered: [constructor] still rejects with the
    error, [toString] rejects with ['[object Undefined]'], and [__proto__]
    and the other methods make [then] throw. *)
Theorem only_unique_violations_intercepted
  (rt : Runtime) (w : World) (models : list Model) (b : Builder)
  (tr : list event) (err : exn) (orderBy : string) :
  built b ->
  buildOrderByQuery rt (o_orderBy (b_opts b)) = Ok orderBy ->
  let clock :=
    match b_args b with Some _ => [Now (date_now w tr)] | None => [] end in
  fst (try_block rt w models (b_opts b) (statement_text rt b orderBy)
         (statement_args w b tr) (tr ++ clock)) = Throw err ->
  (err_code err =? "23505") = false ->
  fst (then_ rt w models b tr)
  = (if err_code err =? "constructor" then Rejected (RejErr err)
     else if err_code err =? "toString"
     then Rejected (RejVal (VStr "[object Undefined]"))
     else if err_code err =? "__proto__" then ThenThrew NotImplemented
     else if inherited (err_code err) then ThenThrew this_undefined
     else Rejected (RejErr err))
  /\ (inherited (err_code err) = false ->
      fst (then_ rt w models b tr) = Rejected (RejErr err)).
Proof.
  intros Hb Hob clock Htry Hcode.
  assert (Hthen : fst (then_ rt w models b tr)
    = (if err_code err =? "constructor" then Rejected (RejErr err)
       else if err_code err =? "toString"
       then Rejected (RejVal (VStr "[object Undefined]"))
       else if err_code err =? "__proto__" then ThenThrew NotImplemented
       else if inherited (err_code err) then ThenThrew this_undefined
       else Rejected (RejErr err))).
  { rewrite (then_attempt rt w models b tr Hob). fold clock. rewrite Htry.
    rewrite on_error_cases.
    now rewrite (built_intercepters Hb _ Hcode). }
  split; [exact Hthen|].
  intros Hinh. rewrite Hthen, Hinh.
  destruct (err_code err =? "constructor") eqn:E1;
    [apply String.eqb_eq in E1; rewrite E1 in Hinh; discriminate|].
  destruct (err_code err =? "toString") eqn:E2;
    [apply String.eqb_eq in E2; rewrite E2 in Hinh; discriminate|].
  destruct (err_code err =? "__proto__") eqn:E3;
    [apply String.eqb_eq in E3; rewrite E3 in Hinh; discriminate|].
  reflexivity.
Qed.

Lemma only_unique_violations_intercepted_witness :
  fst (then_ Fixtures.rt
         (Fixtures.failing (NativeError "21000" "more than one row"))
         Fixtures.registry
         (intercept "E_UNIQUE" (HVal (VStr "emailAlreadyInUse"))
            Fixtures.insert_alice) [])
  = Rejected (RejErr (NativeError "21000" "more than one row")).
Proof.
  assert (Hb : built (intercept "E_UNIQUE" (HVal (VStr "emailAlreadyInUse"))
                        Fixtures.insert_alice)).
  { apply built_intercept. unfold Fixtures.insert_alice. simpl.
    apply built_sendNativeQuery. }
  exact (proj2 (@only_unique_violations_intercepted Fixtures.rt
           (Fixtures.failing (NativeError "21000" "more than one row"))
           Fixtures.registry
           (intercept "E_UNIQUE" (HVal (VStr "emailAlreadyInUse"))
              Fixtures.insert_alice)
           [] (NativeError "21000" "more than one row") EmptyString
           Hb eq_refl eq_refl eq_refl) eq_refl).
Defined.

(** ** Population without a result row *)

(** X18.  Populating a single-row result that has no row is an error.  On a
    builder obtained from [sendNativeQuery] by calling modifiers, in
    single-row mode ([returnSingleRow], or [fetch] together with [single])
    with a model and a [populate] whose target model resolves, running on
    its bound connection or on the one the pool grants: when the statement
    returns no row, the promise is rejected with a TypeError (the attribute
    is read from [undefined]) and the statement is the only one sent, no
    lookup follows. *)
Theorem populate_without_row_rejects
  (rt : Runtime) (w : World) (models : list Model) (b : Builder)
  (tr : list event) (orderBy : string) (M pm : Model) (p : string)
  (c : conn) (result : QueryResult) :
  built b ->
  buildOrderByQuery rt (o_orderBy (b_opts b)) = Ok orderBy ->
  let clock :=
    match b_args b with Some _ => [Now (date_now w tr)] | None => [] end in
  let lease :=
    match o_client (b_opts b) with
    | Some _ => []
    | None => [Connect (Ok c)]
    end in
  (o_client (b_opts b) = Some c
   \/ (o_client (b_opts b) = None /\ pool_connect w (tr ++ clock) = Ok c)) ->
  o_returnSingleRow (b_opts b) || (o_fetch (b_opts b) && o_single (b_opts b))
  = true ->
  o_Model (b_opts b) = Some M ->
  populate_of (b_opts b) = Some p ->
  populateModel_of rt models (b_opts b) p = Ok pm ->
  client_query w ((tr ++ clock) ++ lease) c (statement_text rt b orderBy)
    (statement_args w b tr) = Ok result ->
  rows result = [] ->
  fst (then_ rt w models b tr)
  = Rejected (RejErr (TypeError "Cannot read properties of undefined"))
  /\ statements (since tr (snd (then_ rt w models b tr)))
     = [(statement_text rt b orderBy, statement_args w b tr)].
Proof.
  intros Hb Hob clock lease Hconn Hmode HM Hpop Hpm Hquery Hrows.
  assert (Hrun :
    (result <~ query w c (statement_text rt b orderBy)
                 (statement_args w b tr) ;;
     shape rt w models (b_opts b) c result) ((tr ++ clock) ++ lease)
    = (Throw (TypeError "Cannot read properties of undefined"),
       ((tr ++ clock) ++ lease)
       ++ [Query c (statement_text rt b orderBy) (statement_args w b tr)
             (Ok result)])).
  { unfold ebind at 1, query. rewrite Hquery.
    unfold shape. rewrite Hmode.
    unfold then_single, ebind, lift.
    rewrite HM, Hrows. cbn [hd_error withSelectedValuesCast].
    now rewrite Hpop, Hpm. }
  assert (Herr :
    on_error (b_opts b) (TypeError "Cannot read properties of undefined")
    = Rejected (RejErr (TypeError "Cannot read properties of undefined"))).
  { rewrite on_error_cases. cbn [err_code].
    now rewrite (built_intercepters Hb "undefined" eq_refl). }
  rewrite (then_unfold rt w models b tr Hob). fold clock.
  destruct Hconn as [Hc | [Hc Hpool]]; subst lease; rewrite Hc in *.
  - rewrite app_nil_r in Hrun. rewrite Hrun. cbn [fst snd].
    split; [exact Herr|].
    rewrite <- app_assoc, since_app, statements_app.
    unfold clock. rewrite statements_clock. reflexivity.
  - rewrite Hpool, Hrun. cbn [fst snd]. split; [exact Herr|].
    rewrite <- !app_assoc, since_app, !statements_app.
    unfold clock. rewrite statements_clock. reflexivity.
Qed.

Lemma populate_without_row_rejects_witness :
  fst (then_ Fixtures.rt (Fixtures.answering []) Fixtures.registry
         Fixtures.find_owner_3 [])
  = Rejected (RejErr (TypeError "Cannot read properties of undefined")).
Proof.
  assert (Hb : built Fixtures.find_owner_3).
  { unfold Fixtures.find_owner_3.
    apply built_populate. simpl. apply built_sendNativeQuery. }
  exact (proj1 (@populate_without_row_rejects Fixtures.rt
           (Fixtures.answering []) Fixtures.registry
           Fixtures.find_owner_3 [] EmptyString
           Fixtures.WithRelationship Fixtures.Simple "my_simple" 7%nat
           {| rows := []; rowCount := 0 |}
           Hb eq_refl (or_intror (conj eq_refl eq_refl))
           eq_refl eq_refl eq_refl eq_refl eq_refl eq_refl)).
Defined.

(** ** Transactions *)

Lemma uses_only_no_pool_event (c : conn) (evs : list event) :
  forallb (uses_only c) evs = true ->
  filter is_connect evs = [] /\ filter is_release evs = [].
Proof.
  induction evs as [|e evs IH]; simpl; auto.
  intros H. apply andb_prop in H. destruct H as [He Hevs].
  destruct e; simpl in *; try discriminate; auto.
Qed.

Lemma uses_only_query (c : conn) sql args r :
  uses_only c (Query c sql args r) = true.
Proof.
  unfold uses_only. simpl. now rewrite Nat.eqb_refl.
Qed.

Lemma transaction_body_events (c : conn) (x : result conn)
  (body : list event) :
  forallb (uses_only c) body = true ->
  filter is_connect (Connect x :: body ++ [Release c]) = [Connect x]
  /\ filter is_release (Connect x :: body ++ [Release c]) = [Release c].
Proof.
  intros Hbody. destruct (uses_only_no_pool_event c body Hbody) as [H1 H2].
  cbn [filter is_connect is_release]. rewrite !filter_app, H1, H2. auto.
Qed.

Lemma transaction_trace_closed (c : conn) (answer : result QueryResult)
  (fevs qs : list event) :
  forallb (uses_only c) fevs = true ->
  forallb (uses_only c) qs = true ->
  let rest := fevs ++ qs ++ [Release c] in
  let evs := Connect (Ok c) :: Query c "BEGIN" None answer :: rest in
  exists body,
    rest = body ++ [Release c]
    /\ forallb (uses_only c) body = true
    /\ filter is_connect evs = [Connect (Ok c)]
    /\ filter is_release evs = [Release c].
Proof.
  intros Hf Hq rest evs. subst rest evs.
  assert (Hbody : forallb (uses_only c) (fevs ++ qs) = true).
  { now rewrite forallb_app, Hf, Hq. }
  exists (fevs ++ qs). split; [now rewrite app_assoc|]. split; [exact Hbody|].
  rewrite app_assoc.
  apply (transaction_body_events c (Ok c)
           (Query c "BEGIN" None answer :: fevs ++ qs)).
  cbn [forallb]. now rewrite uses_only_query, Hbody.
Qed.

Ltac transaction_settled c answer fevs qs :=
  exists answer, (fevs ++ qs ++ [Release c]);
  cbn [fst snd]; rewrite <- !app_assoc, since_app;
  split; [reflexivity|]; split; [discriminate|]; intros _;
  apply (transaction_trace_closed c answer fevs qs); auto.

(** The events of a transaction. *)
Lemma transaction_discipline
  (A : Type) (w : World) (fn : work A) (tr : list event) :
  (forall c tr0, exists evs,
      snd (fn c tr0) = tr0 ++ evs /\ forallb (uses_only c) evs = true) ->
  let run := transaction w fn tr in
  let evs := since tr (snd run) in
  match pool_connect w tr with
  | Throw e => fst run = Failed (RejErr e) /\ evs = [Connect (Throw e)]
  | Ok c =>
      exists answer rest,
        evs = Connect (Ok c) :: Query c "BEGIN" None answer :: rest
        /\ (fst run = Pending ->
            forallb (uses_only c) rest = true
            /\ filter is_release evs = [])
        /\ (fst run <> Pending ->
            exists body,
              rest = body ++ [Release c]
              /\ forallb (uses_only c) body = true
              /\ filter is_connect evs = [Connect (Ok c)]
              /\ filter is_release evs = [Release c])
  end.
Proof.
  intros Hfn run evs. subst run evs. unfold transaction, connect, query.
  destruct (pool_connect w tr) as [c|e];
    [|cbn [fst snd]; split; [reflexivity|apply since_app]].
  assert (Hq : forall sql args r,
            forallb (uses_only c) [Query c sql args r] = true).
  { intros. cbn [forallb]. now rewrite uses_only_query. }
  assert (Hq2 : forall sql args r sql' args' r',
            forallb (uses_only c)
              [Query c sql args r; Query c sql' args' r'] = true).
  { intros. cbn [forallb]. now rewrite !uses_only_query. }
  destruct (client_query w (tr ++ [Connect (Ok c)]) c "BEGIN" None)
    as [began|e] eqn:Eb.
  - destruct (Hfn c ((tr ++ [Connect (Ok c)])
                     ++ [Query c "BEGIN" None (Ok began)]))
      as [fevs [Hsnd Hfevs]].
    destruct (fn c ((tr ++ [Connect (Ok c)])
                    ++ [Query c "BEGIN" None (Ok began)]))
      as [[res|rej|] tr3] eqn:Ef; simpl in Hsnd; subst tr3.
    + destruct (client_query w _ c "COMMIT" None) as [committed|e] eqn:Ec.
      * transaction_settled c (Ok began : result QueryResult) fevs
          [Query c "COMMIT" None (Ok committed)].
      * match goal with
        | |- context [client_query w ?tr0 c "ROLLBACK" None] =>
            destruct (client_query w tr0 c "ROLLBACK" None) as [rolled|e']
        end.
        -- transaction_settled c (Ok began : result QueryResult) fevs
             [Query c "COMMIT" None (Throw e);
              Query c "ROLLBACK" None (Ok rolled)].
        -- transaction_settled c (Ok began : result QueryResult) fevs
             [Query c "COMMIT" None (Throw e);
              Query c "ROLLBACK" None (Throw e')].
    + match goal with
      | |- context [client_query w ?tr0 c "ROLLBACK" None] =>
          destruct (client_query w tr0 c "ROLLBACK" None) as [rolled|e']
      end.
      * transaction_settled c (Ok began : result QueryResult) fevs
          [Query c "ROLLBACK" None (Ok rolled)].
      * transaction_settled c (Ok began : result QueryResult) fevs
          [Query c "ROLLBACK" None (Throw e')].
    + exists (Ok began), fevs. cbn [fst snd].
      rewrite <- !app_assoc, since_app.
      split; [reflexivity|]. split; [|intros H; now contradiction H].
      intros _. split; [exact Hfevs|].
      cbn [app filter is_release].
      now destruct (uses_only_no_pool_event c fevs Hfevs).
  - match goal with
    | |- context [client_query w ?tr0 c "ROLLBACK" None] =>
        destruct (client_query w tr0 c "ROLLBACK" None) as [rolled|e']
    end.
    + transaction_settled c (Throw e : result QueryResult) (@nil event)
        [Query c "ROLLBACK" None (Ok rolled)].
    + transaction_settled c (Throw e : result QueryResult) (@nil event)
        [Query c "ROLLBACK" None (Throw e')].
Qed.

(** X19.  [transaction] leases one connection and gives it back once.  For
    a unit of work that only sends statements on the connection it is
    handed: when the pool refuses, the transaction fails with the pool's
    error and the unit of work leaves no event; when the pool grants a
    connection, BEGIN is the first statement on it, and once the
    transaction settles (fulfilled or failed) everything in between ran on
    that connection and it was released exactly once, as the last event.
    When the unit of work never settles, neither does the transaction, and
    the connection is never released. *)
Theorem transaction_releases_once
  (A : Type) (w : World) (fn : work A) (tr : list event) :
  (forall c tr0, exists evs,
      snd (fn c tr0) = tr0 ++ evs /\ forallb (uses_only c) evs = true) ->
  let run := transaction w fn tr in
  let evs := since tr (snd run) in
  match pool_connect w tr with
  | Throw e => fst run = Failed (RejErr e) /\ evs = [Connect (Throw e)]
  | Ok c =>
      exists answer rest,
        evs = Connect (Ok c) :: Query c "BEGIN" None answer :: rest
        /\ (fst run = Pending ->
            forallb (uses_only c) rest = true
            /\ filter is_release evs = [])
        /\ (fst run <> Pending ->
            exists body,
              rest = body ++ [Release c]
              /\ forallb (uses_only c) body = true
              /\ filter is_connect evs = [Connect (Ok c)]
              /\ filter is_release evs = [Release c])
  end.
Proof.
  exact (@transaction_discipline A w fn tr).
Qed.

(** X20.  [transaction] commits exactly a fulfilled unit of work and rolls
    back everything else.  On a granted connection: when the transaction is
    fulfilled, its value is the unit of work's, the statements sent are
    BEGIN, the unit of work's own, and COMMIT last; when it fails (BEGIN,
    the unit of work or COMMIT failed), ROLLBACK was the last statement
    sent, right before the release, and when that ROLLBACK itself failed
    the rejection value is the ROLLBACK's error, not the original one. *)
Theorem transaction_commits_or_rolls_back
  (A : Type) (w : World) (fn : work A) (tr : list event) (c : conn) :
  (forall c tr0, exists evs,
      snd (fn c tr0) = tr0 ++ evs /\ forallb (uses_only c) evs = true) ->
  pool_connect w tr = Ok c ->
  let run := transaction w fn tr in
  let evs := since tr (snd run) in
  (forall res, fst run = Fulfilled res ->
     exists began fevs,
       fn c ((tr ++ [Connect (Ok c)]) ++ [Query c "BEGIN" None (Ok began)])
       = (Fulfilled res,
          ((tr ++ [Connect (Ok c)]) ++ [Query c "BEGIN" None (Ok began)])
          ++ fevs)
       /\ statements evs
          = ("BEGIN", None) :: statements fevs ++ [("COMMIT", None)])
  /\ (forall rej, fst run = Failed rej ->
        exists before answer,
          evs = before ++ [Query c "ROLLBACK" None answer; Release c]
          /\ (forall e', answer = Throw e' -> rej = RejErr e')).
Proof.
  intros Hfn Hc run evs. subst run evs. unfold transaction, connect, query.
  rewrite Hc.
  destruct (client_query w (tr ++ [Connect (Ok c)]) c "BEGIN" None)
    as [began|e] eqn:Eb.
  - destruct (Hfn c ((tr ++ [Connect (Ok c)])
                     ++ [Query c "BEGIN" None (Ok began)]))
      as [fevs [Hsnd Hfevs]].
    destruct (fn c ((tr ++ [Connect (Ok c)])
                    ++ [Query c "BEGIN" None (Ok began)]))
      as [[res|rej|] tr3] eqn:Ef; simpl in Hsnd; subst tr3.
    + destruct (client_query w _ c "COMMIT" None) as [committed|e] eqn:Ec.
      * cbn [fst snd]. split.
        -- intros res' H. inversion H; subst res'.
           exists began, fevs. split; [exact Ef|].
           rewrite <- !app_assoc, since_app.
           cbn [app statements]. rewrite statements_app. reflexivity.
        -- intros rej H. discriminate H.
      * match goal with
        | |- context [client_query w ?tr0 c "ROLLBACK" None] =>
            destruct (client_query w tr0 c "ROLLBACK" None) as [rolled|e']
        end;
          cbn [fst snd]; rewrite <- !app_assoc, since_app;
          (split; [intros res' H; discriminate H|]);
          intros rej H; inversion H; subst rej;
          eexists ([Connect (Ok c)] ++ [Query c "BEGIN" None (Ok began)]
                    ++ fevs ++ [Query c "COMMIT" None (Throw e)]), _;
          (split; [rewrite <- !app_assoc; reflexivity|]);
          intros e0 He0; now inversion He0.
    + match goal with
      | |- context [client_query w ?tr0 c "ROLLBACK" None] =>
          destruct (client_query w tr0 c "ROLLBACK" None) as [rolled|e']
      end;
        cbn [fst snd]; rewrite <- !app_assoc, since_app;
        (split; [intros res' H; discriminate H|]);
        intros rej' H; inversion H; subst rej';
        eexists ([Connect (Ok c)] ++ [Query c "BEGIN" None (Ok began)]
                  ++ fevs), _;
        (split; [rewrite <- !app_assoc; reflexivity|]);
        intros e0 He0; now inversion He0.
    + cbn [fst snd]. split; intros ? H; discriminate H.
  - match goal with
    | |- context [client_query w ?tr0 c "ROLLBACK" None] =>
        destruct (client_query w tr0 c "ROLLBACK" None) as [rolled|e']
    end;
      cbn [fst snd]; rewrite <- !app_assoc, since_app;
      (split; [intros res' H; discriminate H|]);
      intros rej H; inversion H; subst rej;
      eexists ([Connect (Ok c)] ++ [Query c "BEGIN" None (Throw e)]), _;
      (split; [rewrite <- !app_assoc; reflexivity|]);
      intros e0 He0; now inversion He0.
Qed.

Lemma uses_only_clock_and_statements (c : conn) (clock stmts : list event) :
  forallb is_now clock = true ->
  forallb (is_query_on c) stmts = true ->
  forallb (uses_only c) (clock ++ stmts) = true.
Proof.
  intros Hclock Hstmts. rewrite forallb_app. apply andb_true_intro. split.
  - clear Hstmts. induction clock as [|e clock IH]; simpl in *; auto.
    apply andb_prop in Hclock. destruct Hclock as [He Hc].
    unfold uses_only. rewrite He, orb_true_r. now apply IH.
  - clear Hclock. induction stmts as [|e stmts IH]; simpl in *; auto.
    apply andb_prop in Hstmts. destruct Hstmts as [He Hs].
    unfold uses_only. rewrite He. now apply IH.
Qed.

(** A builder run as the unit of work [client =>
    builder.usingConnection(client)] reads the clock and sends statements
    on that client, nothing else. *)
Lemma within_uses_only (rt : Runtime) (w : World) (models : list Model)
  (b : Builder) (c : conn) (tr0 : list event) :
  exists evs,
    snd (within rt w models b c tr0) = tr0 ++ evs
    /\ forallb (uses_only c) evs = true.
Proof.
  unfold within.
  destruct (buildOrderByQuery rt (o_orderBy (b_opts (usingConnection c b))))
    as [orderBy|e] eqn:Hob.
  - destruct (then_trace rt w models (usingConnection c b) tr0 Hob)
      as [sql H].
    cbn [usingConnection with_opts b_opts o_client b_args] in H.
    destruct H as [r [rest [Hevs Hrest]]].
    destruct (then_ rt w models (usingConnection c b) tr0) as [o tr'] eqn:Et.
    cbn [snd] in *.
    assert (Hpre : exists evs, tr' = tr0 ++ evs).
    { pose proof (then_unfold rt w models (usingConnection c b) tr0 Hob)
        as Hu.
      cbn [usingConnection with_opts b_opts o_client b_args] in Hu.
      rewrite Et in Hu. inversion Hu as [[Ho Htr]].
      unfold ebind at 1, query.
      destruct (client_query w _ c _ _) as [result|e].
      - destruct (emits_shape rt w models
                    (b_opts (usingConnection c b)) c result
                    ((tr0 ++ match b_args b with
                             | Some _ => [Now (date_now w tr0)]
                             | None => []
                             end)
                     ++ [Query c (statement_text rt (usingConnection c b)
                                    orderBy)
                           (statement_args w (usingConnection c b) tr0)
                           (Ok result)]))
          as [evs [Hs _]].
        cbn [usingConnection with_opts b_opts] in Hs |- *.
        rewrite Hs, <- !app_assoc. eauto.
      - cbn [snd]. rewrite <- !app_assoc. eauto. }
    destruct Hpre as [evs ->]. rewrite since_app in Hevs. subst evs.
    eexists. split; [reflexivity|].
    apply uses_only_clock_and_statements.
    + apply forallb_is_now_clock.
    + cbn [forallb is_query_on]. now rewrite Nat.eqb_refl.
  - unfold then_. rewrite Hob. exists []. cbn [snd]. now rewrite app_nil_r.
Qed.

Lemma transaction_releases_once_witness :
  exists answer rest,
    since [] (snd (transaction (Fixtures.answering [])
                     (within Fixtures.rt (Fixtures.answering [])
                        Fixtures.registry Fixtures.insert_alice) []))
    = Connect (Ok 7%nat) :: Query 7 "BEGIN" None answer :: rest.
Proof.
  destruct (@transaction_releases_once resolution (Fixtures.answering [])
              (within Fixtures.rt (Fixtures.answering [])
                 Fixtures.registry Fixtures.insert_alice) []
              (within_uses_only Fixtures.rt (Fixtures.answering [])
                 Fixtures.registry Fixtures.insert_alice))
    as [answer [rest [H _]]].
  exists answer, rest. exact H.
Defined.

Lemma transaction_commits_or_rolls_back_witness :
  exists before answer,
    since [] (snd (transaction (Fixtures.failing Fixtures.unique_violation)
                     (within Fixtures.rt
                        (Fixtures.failing Fixtures.unique_violation)
                        Fixtures.registry Fixtures.insert_alice) []))
    = before ++ [Query 7 "ROLLBACK" None answer; Release 7]
    /\ (forall e', answer = Throw e' ->
                   RejErr Fixtures.unique_violation = RejErr e').
Proof.
  exact (proj2 (@transaction_commits_or_rolls_back resolution
           (Fixtures.failing Fixtures.unique_violation)
           (within Fixtures.rt (Fixtures.failing Fixtures.unique_violation)
              Fixtures.registry Fixtures.insert_alice) [] 7%nat
           (within_uses_only Fixtures.rt
              (Fixtures.failing Fixtures.unique_violation)
              Fixtures.registry Fixtures.insert_alice)
           eq_refl)
         (RejErr Fixtures.unique_violation) eq_refl).
Defined.

Lemma uses_only_statement_connection (c : conn) (evs : list event) :
  forallb (uses_only c) evs = true ->
  forall c' sql args r, In (Query c' sql args r) evs -> c' = c.
Proof.
  intros H c' sql args r Hin.
  rewrite forallb_forall in H. specialize (H _ Hin).
  unfold uses_only in H. simpl in H. rewrite orb_false_r in H.
  now apply Nat.eqb_eq.
Qed.

(** X21.  A builder run inside a transaction stays on the transaction's
    connection.  For [transaction(client =>
    builder.usingConnection(client))] on a connection the pool grants:
    every statement of the whole run (BEGIN, the builder's statement and
    its populate lookup, COMMIT or ROLLBACK) goes to that connection, the
    pool is asked exactly once, and once the transaction settles the
    connection was released exactly once: the builder neither leases nor
    releases a connection of its own. *)
Theorem builder_in_transaction
  (rt : Runtime) (w : World) (models : list Model) (b : Builder)
  (tr : list event) (c : conn) :
  pool_connect w tr = Ok c ->
  let run := transaction w (within rt w models b) tr in
  let evs := since tr (snd run) in
  (forall c' sql args r, In (Query c' sql args r) evs -> c' = c)
  /\ filter is_connect evs = [Connect (Ok c)]
  /\ (fst run <> Pending -> filter is_release evs = [Release c]).
Proof.
  intros Hc run evs.
  pose proof (@transaction_discipline resolution w (within rt w models b) tr
                (within_uses_only rt w models b)) as H.
  cbv zeta in H. rewrite Hc in H. fold run in H. fold evs in H.
  destruct H as [answer [rest [Hevs [Hpending Hsettled]]]].
  assert (Hcases : fst run = Pending \/ fst run <> Pending).
  { destruct (fst run); [right|right|left]; auto; discriminate. }
  destruct Hcases as [Hp | Hs].
  - destruct (Hpending Hp) as [Hrest Hrel].
    split; [|split; [|contradiction]].
    + intros c' sql args r Hin. rewrite Hevs in Hin.
      destruct Hin as [Hin|[Hin|Hin]]; try discriminate.
      * now inversion Hin.
      * exact (uses_only_statement_connection c rest Hrest _ _ _ _ Hin).
    + rewrite Hevs. cbn [filter is_connect].
      now destruct (uses_only_no_pool_event c rest Hrest) as [-> _].
  - destruct (Hsettled Hs) as [body [Hrest [Hbody [Hconn Hrel]]]].
    split; [|split; auto].
    intros c' sql args r Hin. rewrite Hevs, Hrest in Hin.
    destruct Hin as [Hin|[Hin|Hin]]; try discriminate.
    + now inversion Hin.
    + apply in_app_or in Hin. destruct Hin as [Hin|[Hin|[]]];
        [|discriminate].
      exact (uses_only_statement_connection c body Hbody _ _ _ _ Hin).
Qed.

Lemma builder_in_transaction_witness :
  filter is_connect
    (since [] (snd (transaction (Fixtures.answering [])
                      (within Fixtures.rt (Fixtures.answering [])
                         Fixtures.registry Fixtures.insert_alice) [])))
  = [Connect (Ok 7%nat)].
Proof.
  exact (proj1 (proj2 (@builder_in_transaction Fixtures.rt
           (Fixtures.answering []) Fixtures.registry Fixtures.insert_alice
           [] 7%nat eq_refl))).
Defined.

(** ** The two forms of [find]'s options *)

Lemma append_empty_r (a : string) : a +++ EmptyString = a.
Proof.
  induction a as [|ch a IH]; simpl; [reflexivity|now rewrite IH].
Qed.

(** X22.  Without a [select] key the options of [find] are the criteria,
    all of them.  Whatever else the options hold ([where], [sort],
    [limit]), the builder has neither limit nor ordering, so forcing it
    appends neither LIMIT nor ORDER BY to the statement, and its WHERE
    fragment and arguments are those of the options compiled as a criteria.
    [findOne] does the same in single-row mode, with the WHERE fragment
    inside its sub-select.  A criteria that fails to compile fails both
    calls. *)
Theorem find_shorthand_is_criteria
  (rt : Runtime) (M : Model) (options : value) :
  has (entries options) "select" = false ->
  is_null options = false ->
  let criteria := if is_undefined options then VObj [] else options in
  (forall b, find rt M options = Ok (RBuilder b) ->
     o_limit (b_opts b) = VUndefined
     /\ o_orderBy (b_opts b) = VUndefined
     /\ statement_text rt b EmptyString = b_sql b
     /\ exists wher,
          buildWhereQuery rt criteria [] = Ok (wher, match b_args b with
                                                      | Some a => a
                                                      | None => []
                                                      end)
          /\ b_sql b = find_sql rt M "*" wher)
  /\ (forall e, buildWhereQuery rt criteria [] = Throw e ->
        find rt M options = Throw e /\ findOne rt M options = Throw e)
  /\ (forall b, findOne rt M options = Ok (RBuilder b) ->
        o_limit (b_opts b) = VUndefined
        /\ o_orderBy (b_opts b) = VUndefined
        /\ o_returnSingleRow (b_opts b) = true
        /\ statement_text rt b EmptyString = b_sql b
        /\ exists wher,
             buildWhereQuery rt criteria []
             = Ok (wher, match b_args b with
                         | Some a => a
                         | None => []
                         end)
             /\ b_sql b = findOne_sql rt M "*" wher).
Proof.
  intros Hsel Hnull criteria.
  assert (Hget : getFindCriteriaFrom rt criteria
                 = Ok ("*", criteria, VUndefined, VUndefined)).
  { subst criteria. unfold getFindCriteriaFrom.
    destruct options; try discriminate; cbn [is_undefined entries has];
      try reflexivity; cbn [entries] in Hsel; now rewrite Hsel. }
  unfold find, findOne. fold criteria. rewrite Hget. cbn [bind].
  destruct (buildWhereQuery rt criteria []) as [[wher args]|e] eqn:Ew;
    cbn [bind].
  - split; [|split].
    + intros b H. inversion H; subst b.
      cbn [sendNativeQuery b_opts b_sql b_args o_limit o_orderBy].
      split; [reflexivity|]. split; [reflexivity|].
      split; [|exists wher; auto].
      unfold statement_text, buildLimitQuery.
      cbn [sendNativeQuery b_opts b_sql o_fetch o_limit is_undefined].
      now rewrite !append_empty_r.
    + intros e H. discriminate H.
    + intros b H. inversion H; subst b.
      cbn [sendNativeQuery b_opts b_sql b_args o_limit o_orderBy
           o_returnSingleRow].
      split; [reflexivity|]. split; [reflexivity|]. split; [reflexivity|].
      split; [|exists wher; auto].
      unfold statement_text, buildLimitQuery.
      cbn [sendNativeQuery b_opts b_sql o_fetch o_limit is_undefined].
      now rewrite !append_empty_r.
  - split; [|split].
    + intros b H. discriminate H.
    + intros e' H. inversion H. auto.
    + intros b H. discriminate H.
Qed.

Lemma find_shorthand_is_criteria_witness :
  find Fixtures.rt Fixtures.Simple
    (VObj [("limit", Fixtures.num 5)])
  = Ok (RBuilder (sendNativeQuery
         (find_sql Fixtures.rt Fixtures.Simple "*" "WHERE limit=$1")
         (Some [Fixtures.num 5])
         {| o_Model := Some Fixtures.Simple; o_single := false;
            o_returnSingleRow := false; o_returnRows := true;
            o_fetch := false; o_limit := VUndefined;
            o_orderBy := VUndefined; o_populate := None; o_client := None;
            o_intercepters := [] |}))
  /\ o_limit (b_opts (sendNativeQuery
         (find_sql Fixtures.rt Fixtures.Simple "*" "WHERE limit=$1")
         (Some [Fixtures.num 5])
         {| o_Model := Some Fixtures.Simple; o_single := false;
            o_returnSingleRow := false; o_returnRows := true;
            o_fetch := false; o_limit := VUndefined;
            o_orderBy := VUndefined; o_populate := None; o_client := None;
            o_intercepters := [] |})) = VUndefined.
Proof.
  split; [reflexivity|].
  exact (proj1 (proj1 (@find_shorthand_is_criteria Fixtures.rt
           Fixtures.Simple (VObj [("limit", Fixtures.num 5)])
           eq_refl eq_refl) _ eq_refl)).
Defined.

(** ** Placeholders of a multi-row insert *)

Lemma buildValuesQuery_tuple (M : Model) (cols : list string) (props : obj)
  (values : list value) :
  buildValuesQuery M cols props values
  = (values_tuple (List.length cols) (List.length values),
     values ++ map (get props) cols).
Proof.
  unfold buildValuesQuery. rewrite buildValuesQuery_fold. reflexivity.
Qed.

Lemma createEach_values_tuples (M : Model) (cols : list string)
  (propses : list obj) (values : list value) :
  fst (createEach_values M cols propses values)
  = map (fun i => values_tuple (List.length cols)
                    (List.length values + i * List.length cols))
        (seq 0 (List.length propses)).
Proof.
  revert values. induction propses as [|props rest IH]; intros values.
  - reflexivity.
  - cbn [createEach_values]. rewrite buildValuesQuery_tuple.
    specialize (IH (values ++ map (get props) cols)).
    destruct (createEach_values M cols rest
                (values ++ map (get props) cols)) as [qs values'].
    cbn [fst] in *. subst qs.
    cbn [List.length seq map]. rewrite Nat.mul_0_l, Nat.add_0_r. f_equal.
    rewrite <- seq_shift, map_map. apply map_ext. intros i.
    rewrite length_app, length_map. f_equal. lia.
Qed.

(** X23.  A multi-row insert numbers its placeholders row by row.  For a
    non-empty list [createEach] builds one INSERT over the first row's
    columns whose VALUES list has one tuple per row, the tuple of row [i]
    holding the placeholders [i*n+1], ..., [i*n+n] for [n] columns: the
    placeholder numbered [i*n+j+1] is the one whose argument is row [i]'s
    value of column [j]. *)
Theorem createEach_placeholders
  (rt : Runtime) (M : Model) (propses : list obj) :
  propses <> [] ->
  let rows := map (fun props => withDefaultValues M props true) propses in
  let cols := map fst (hd [] rows) in
  exists b,
    createEach rt M propses = RBuilder b
    /\ b_sql b
       = create_sql rt M cols
           (join ("," +++ nl +++ "                   ")
              (map (fun i => values_tuple (List.length cols)
                               (i * List.length cols))
                   (seq 0 (List.length propses))))
    /\ o_single (b_opts b) = false
    /\ o_fetch (b_opts b) = false.
Proof.
  intros Hne rows cols. unfold createEach. fold rows.
  destruct rows as [|first rest] eqn:Erows.
  - destruct propses; [contradiction|discriminate].
  - assert (Hlen : List.length propses = List.length (first :: rest)).
    { rewrite <- Erows. subst rows. now rewrite length_map. }
    assert (H := createEach_values_tuples M (map fst first)
                   (first :: rest) []).
    destruct (createEach_values M (map fst first) (first :: rest) [])
      as [qs values].
    cbn [fst List.length] in H. subst qs.
    eexists. split; [reflexivity|].
    cbn [sendNativeQuery b_sql b_opts model_opts o_single o_fetch].
    subst cols. cbn [hd]. rewrite Hlen. cbn [List.length]. auto.
Qed.

Lemma createEach_placeholders_witness :
  exists b,
    createEach Fixtures.rt Fixtures.Simple
      [[("name", VStr "alice")]; [("name", VStr "bob")]]
    = RBuilder b
    /\ b_sql b
       = create_sql Fixtures.rt Fixtures.Simple ["name"; "id"]
           (join ("," +++ nl +++ "                   ")
              ["($1, $2)"; "($3, $4)"]).
Proof.
  assert (Hne : [[("name", VStr "alice")]; [("name", VStr "bob")]]
                <> ([] : list obj)) by discriminate.
  destruct (@createEach_placeholders Fixtures.rt Fixtures.Simple _ Hne)
    as [b [H1 [H2 _]]].
  exists b. split; [exact H1 | exact H2].
Defined.

(** ** Fetching without a model *)

(** X24.  Rows cannot be fetched without a model.  A builder made by
    [sendNativeQuery] with no model, put in fetch mode and bound to a
    connection, sends its text with [RETURNING *] appended; when the
    statement returns no row it resolves to the empty list, and when it
    returns at least one row it is rejected with the 'No model supplied'
    error instead of the rows. *)
Theorem fetch_without_model
  (rt : Runtime) (w : World) (models : list Model)
  (sql : string) (args : option (list value)) (c : conn)
  (tr : list event) (result : QueryResult) :
  let b := usingConnection c (fetch (sendNativeQuery sql args no_opts)) in
  let clock :=
    match args with Some _ => [Now (date_now w tr)] | None => [] end in
  client_query w (tr ++ clock) c (sql +++ " RETURNING *")
    (statement_args w b tr) = Ok result ->
  fst (then_ rt w models b tr)
  = match rows result with
    | [] => Resolved (Rows [])
    | _ :: _ => Rejected (RejErr NoModelSupplied)
    end
  /\ statements (since tr (snd (then_ rt w models b tr)))
     = [(sql +++ " RETURNING *", statement_args w b tr)].
Proof.
  intros b clock Hq.
  assert (Hob : buildOrderByQuery rt (o_orderBy (b_opts b)) = Ok EmptyString)
    by reflexivity.
  assert (Htext : statement_text rt b EmptyString = sql +++ " RETURNING *").
  { unfold statement_text, buildLimitQuery. subst b.
    cbn [usingConnection fetch with_opts sendNativeQuery b_opts b_sql
         o_fetch o_limit no_opts is_undefined].
    now rewrite !append_empty_r. }
  rewrite (then_unfold rt w models b tr Hob). rewrite Htext.
  change (o_client (b_opts b)) with (Some c).
  change (b_args b) with args. fold clock.
  unfold ebind, query. rewrite Hq.
  unfold shape. subst b.
  cbn [usingConnection fetch with_opts sendNativeQuery b_opts
       o_returnSingleRow o_fetch o_single o_returnRows no_opts orb andb].
  unfold then_rows, ebind, lift.
  cbn [usingConnection fetch with_opts sendNativeQuery b_opts o_Model
       no_opts].
  destruct (rows result) as [|row rest] eqn:Er.
  - cbn [mapM]. unfold populate_of.
    cbn [usingConnection fetch with_opts sendNativeQuery b_opts o_populate
         no_opts eret fst snd].
    split; [reflexivity|].
    rewrite <- app_assoc, since_app, statements_app.
    unfold clock. rewrite statements_clock. reflexivity.
  - cbn [mapM].
    change (castRow rt None row) with (@Throw obj NoModelSupplied).
    cbn [bind fst snd]. split; [reflexivity|].
    rewrite <- app_assoc, since_app, statements_app.
    unfold clock. rewrite statements_clock. reflexivity.
Qed.

Lemma fetch_without_model_witness :
  fst (then_ Fixtures.rt (Fixtures.answering [Fixtures.alice])
         Fixtures.registry
         (usingConnection 9
            (fetch (sendNativeQuery "SELECT 2 + 5 AS my_sum" None no_opts)))
         [])
  = Rejected (RejErr NoModelSupplied).
Proof.
  exact (proj1 (@fetch_without_model Fixtures.rt
           (Fixtures.answering [Fixtures.alice]) Fixtures.registry
           "SELECT 2 + 5 AS my_sum" None 9%nat []
           {| rows := [Fixtures.alice]; rowCount := 1 |} eq_refl)).
Defined.
